(** * Data loading for grounded video captioning: [dat_loader_simple.py]

    A shallow embedding of the example-construction pipeline of
    [code/dat_loader_simple.py] and the properties of its padding,
    proposal, ground-truth, frame-mask, segment-feature, box-shift, SRL,
    candidate-selection and multi-video composition steps.

    Conventions of the embedding.
    - Python [int] is [Z]; a [len] is a [Z] obtained from a [nat].
    - Outside the box shifts, array and tensor entries (numpy / torch
      floats) are exact rationals [Q]; comparisons are the decidable ones
      of [Q], and rounding is outside the model there.
    - The box shifts compute on float32 tensors: their entries are IEEE
      754 binary32 numbers ([spec_float] at precision 24), added and
      multiplied with rounding to nearest.
    - A Python list, a numpy vector and a 1-d tensor are a [list]; a matrix
      is a list of rows.
    - A raised exception is a [Raise] in the [result] monad below. *)

From Stdlib Require Import String Ascii ZArith QArith Bool Lia List Permutation.
From Stdlib Require Import Sorted.
From Stdlib Require Import SpecFloat.
Import ListNotations.

Local Open Scope Z_scope.

(** ** Exceptions and the error monad *)

Inductive exn : Type :=
| AssertionError
| IndexError
| KeyError
| ValueError
| RuntimeError.

Inductive result (A : Type) : Type :=
| Ok (a : A)
| Raise (e : exn).

Arguments Ok {A} a.
Arguments Raise {A} e.

Definition bind {A B : Type} (m : result A) (k : A -> result B) : result B :=
  match m with
  | Ok a => k a
  | Raise e => Raise e
  end.

Notation "x <- m ;; k" := (bind m (fun x => k))
  (at level 61, m at next level, right associativity).
Notation "' p <- m ;; k" := (bind m (fun p => k))
  (at level 61, p pattern, m at next level, right associativity).

(** [assert c] of Python. *)
Definition py_assert (c : bool) : result unit :=
  if c then Ok tt else Raise AssertionError.

(** ** Python sequences *)

Definition len {A : Type} (l : list A) : Z := Z.of_nat (length l).

(** Position denoted by a slice bound [i] in a sequence of [n] items:
    negative bounds count from the end, and every bound is clipped to
    [0 .. n]. *)
Definition slice_bound (n : nat) (i : Z) : nat :=
  if i <? 0 then Z.to_nat (Z.max 0 (Z.of_nat n + i))
  else Nat.min (Z.to_nat i) n.

(** [l[lo:hi]] *)
Definition py_slice {A : Type} (l : list A) (lo hi : Z) : list A :=
  let a := slice_bound (length l) lo in
  let b := slice_bound (length l) hi in
  firstn (b - a) (skipn a l).

(** [l[:hi]] *)
Definition py_prefix {A : Type} (l : list A) (hi : Z) : list A :=
  py_slice l 0 hi.

(** [l[i]]: negative [i] counts from the end; out of range raises. *)
Definition py_index {A : Type} (l : list A) (i : Z) : result A :=
  let j := if i <? 0 then len l + i else i in
  if j <? 0 then Raise IndexError
  else match nth_error l (Z.to_nat j) with
       | Some a => Ok a
       | None => Raise IndexError
       end.

(** [defm * k] for a list [defm]: [k] copies end to end, none when
    [k <= 0]. *)
Definition list_mul {A : Type} (defm : list A) (k : Z) : list A :=
  concat (repeat defm (Z.to_nat k)).

(** [mapM] of the error monad: the first exception stops the traversal. *)
Fixpoint mapM {A B : Type} (f : A -> result B) (l : list A) : result (list B) :=
  match l with
  | [] => Ok []
  | a :: t => b <- f a ;; bs <- mapM f t ;; Ok (b :: bs)
  end.

(** Pointwise combination of two sequences of the same length. *)
Fixpoint map2 {A B C : Type} (f : A -> B -> C) (l : list A) (m : list B)
  : list C :=
  match l, m with
  | a :: l', b :: m' => f a b :: map2 f l' m'
  | _, _ => []
  end.

(** ** Padding utility *)

(** The optional vocabulary argument of [pad_words_with_vocab]: only its
    [itos] attribute, when it has one, is looked at. *)
Record Vocab : Type := { itos : option (list string) }.

(** [if voc is not None and hasattr(voc, 'itos'):
       assert voc.itos[1] == '<pad>'] *)
Definition voc_pad_check (voc : option Vocab) : result unit :=
  match voc with
  | None => Ok tt
  | Some v =>
      match itos v with
      | None => Ok tt
      | Some names =>
          w <- py_index names 1 ;;
          py_assert (String.eqb w "<pad>")
      end
  end.

(** [AnetEntDataset.pad_words_with_vocab(out_list, voc, pad_len, defm)].
    The source extends [out_list] in place when it pads; every caller
    below passes a list it does not read again, so the returned value is
    all that is kept. *)
Definition pad_words_with_vocab {A : Type} (out_list : list A)
    (voc : option Vocab) (pad_len : Z) (defm : list A) : result (list A) :=
  let curr_len := len out_list in
  if (pad_len =? -1) || (curr_len =? pad_len) then Ok out_list
  else if curr_len >? pad_len then Ok (py_prefix out_list pad_len)
  else
    _ <- voc_pad_check voc ;;
    Ok (out_list ++ list_mul defm (pad_len - curr_len)).

(** Dictionaries keep insertion order, and their keys are distinct: an
    association list, first match wins on lookup.  A missing key raises. *)
Fixpoint dict_get {V : Type} (d : list (string * V)) (k : string) : result V :=
  match d with
  | [] => Raise KeyError
  | (k', v) :: d' => if String.eqb k k' then Ok v else dict_get d' k
  end.

Definition dict_keys {V : Type} (d : list (string * V)) : list string :=
  map fst d.

(** ** Arrays *)

(** [a[:, c]] on a stored two-dimensional array. *)
Definition np_column (a : list (list Q)) (c : Z) : result (list Q) :=
  mapM (fun r => py_index r c) a.

(** [np.array(rows)[:hi, c]].  [np.array([])] is one-dimensional, so two
    indices are one too many; on a matrix the column must exist. *)
Definition np_col_prefix (rows : list (list Q)) (hi c : Z) : result (list Q) :=
  match rows with
  | [] => Raise IndexError
  | r0 :: _ =>
      _ <- py_index r0 c ;;
      mapM (fun r => py_index r c) (py_prefix rows hi)
  end.

(** [torch.tensor(rows)]: nested lists of unequal length are refused. *)
Definition torch_tensor_rows (rows : list (list Q)) : result (list (list Q)) :=
  match rows with
  | [] => Ok []
  | r0 :: _ =>
      if forallb (fun r => Nat.eqb (length r) (length r0)) rows then Ok rows
      else Raise ValueError
  end.

(** [np.ones((r, c))] *)
Definition np_ones (r c : Z) : result (list (list Z)) :=
  if (r <? 0) || (c <? 0) then Raise ValueError
  else Ok (repeat (repeat 1 (Z.to_nat c)) (Z.to_nat r)).

Definition width {A : Type} (m : list (list A)) : nat :=
  match m with
  | [] => 0%nat
  | r :: _ => length r
  end.

Fixpoint assign_rows (m : list (list Z)) (blk : list (list bool))
  : list (list Z) :=
  match m, blk with
  | row :: m', b :: blk' =>
      (map Z.b2z b ++ skipn (length b) row) :: assign_rows m' blk'
  | _, _ => m
  end.

(** [m[:r, :c] = blk] for a boolean block of exactly the shape of the
    target; any other shape raises (the call sites below never rely on
    broadcasting). *)
Definition assign_block (m : list (list Z)) (r c : Z) (blk : list (list bool))
  : result (list (list Z)) :=
  let rows := slice_bound (length m) r in
  let cols := slice_bound (width m) c in
  if Nat.eqb (length blk) rows
     && forallb (fun b => Nat.eqb (length b) cols) blk
  then Ok (assign_rows m blk)
  else Raise ValueError.

(** ** The dataset object *)

(** A row of the annotation table ([self.annots]). *)
Record AnnotRow : Type := {
  vid_id : string;
  seg_id : string;          (* [str(row['seg_id'])] *)
  vid_seg_id : string;      (* [row['id']] *)
  Index : Z
}.

(** A segment of the grounding annotation ([caption_dct]). *)
Record Caption : Type := {
  bbox : list (list Q);
  frm_idx : list Q
}.

(** The attributes of [AnetEntDataset] that the box pipeline reads. *)
Record AnetEntDataset : Type := {
  num_frms : Z;                            (* [cfg.ds.num_sampled_frm] *)
  num_prop_per_frm : Z;
  prop_thresh : Q;                         (* [cfg.misc.prop_thresh] *)
  exclude_bgd_det : bool;                  (* [cfg.misc.exclude_bgd_det] *)
  max_gt_box : Z;                          (* [cfg.ds.max_gt_box] *)
  ctx_for_seg_feats : Z;                   (* [cfg.misc.ctx_for_seg_feats] *)
  num_proposals : list Z;                  (* h5 [dets_num] *)
  label_proposals : list (list (list Q));  (* h5 [dets_labels] *)
  annots : list AnnotRow;
  anet_ent_captions : list (string * list (string * Caption))
}.

(** [self.max_proposals = self.num_prop_per_frm * self.num_frms] *)
Definition max_proposals (self : AnetEntDataset) : Z :=
  num_prop_per_frm self * num_frms self.

(** ** Proposal and ground-truth loader *)

(** [AnetEntDataset.get_props(index)].  The mask is a boolean vector,
    [true] for 1; its filler [0] is [false]. *)
Definition get_props (self : AnetEntDataset) (index : Z)
  : result (list (list Q) * list bool * Z) :=
  n <- py_index (num_proposals self) index ;;
  label <- py_index (label_proposals self) index ;;
  let proposals := py_prefix label n in
  conf <- np_column proposals 6 ;;
  let pnt_mask := map (fun c => Qle_bool (prop_thresh self) c) conf in
  pnt_mask <-
    (if exclude_bgd_det self then
       cls <- np_column proposals 5 ;;
       Ok (map2 andb pnt_mask (map (fun c => negb (Qeq_bool c 0)) cls))
     else Ok pnt_mask) ;;
  let num_props := Z.min (len proposals) (max_proposals self) in
  padded_props <-
    pad_words_with_vocab proposals None (max_proposals self)
      [repeat 0%Q 7] ;;
  padded_mask <-
    pad_words_with_vocab pnt_mask None (max_proposals self) [false] ;;
  Ok (padded_props, padded_mask, num_props).

(** The dictionary returned by [get_gt_annots]. *)
Record GtAnnots : Type := {
  padded_gt_bboxs : list (list Q);
  padded_gt_box_mask : list Z;
  num_box : Z
}.

(** [AnetEntDataset.get_gt_annots(caption_dct, idx)] *)
Definition get_gt_annots (self : AnetEntDataset) (caption_dct : Caption)
    (idx : Z) : result GtAnnots :=
  gt_bboxs <- torch_tensor_rows (bbox caption_dct) ;;
  let gt_frms := map (fun f => [f]) (frm_idx caption_dct) in
  _ <- py_assert (len gt_bboxs =? len gt_frms) ;;
  let num_box := len gt_bboxs in
  let gt_bboxs_t := map2 (@app Q) gt_bboxs gt_frms in
  padded_gt_bboxs <-
    pad_words_with_vocab gt_bboxs_t None (max_gt_box self) [repeat 0%Q 5] ;;
  let padded_gt_bboxs_mask_list := list_mul [1] num_box in
  padded_gt_box_mask <-
    pad_words_with_vocab padded_gt_bboxs_mask_list None (max_gt_box self) [0] ;;
  Ok {| padded_gt_bboxs := padded_gt_bboxs;
        padded_gt_box_mask := padded_gt_box_mask;
        num_box := num_box |}.

(** ** Frame-box alignment *)

(** [np.tile(v.reshape(-1, 1), (1, k))]: entry [v[i]] along row [i]. *)
Definition np_tile_cols (v : list Q) (k : nat) : list (list Q) :=
  map (fun x => repeat x k) v.

(** [np.tile(v, (k, 1))]: [k] copies of the row [v]. *)
Definition np_tile_rows (v : list Q) (k : nat) : list (list Q) :=
  repeat v k.

(** [AnetEntDataset.get_frm_mask(proposals, gt_bboxs)] on two vectors of
    frame indices. *)
Definition get_frm_mask (proposals gt_bboxs : list Q) : list (list bool) :=
  let num_pps := length proposals in
  let num_box := length gt_bboxs in
  map2 (map2 (fun a b => negb (Qeq_bool a b)))
    (np_tile_cols proposals num_box)
    (np_tile_rows gt_bboxs num_pps).

(** ** Single-example assembler *)

(** The box and mask entries of the dictionary built by
    [simple_item_getter]. *)
Record Item : Type := {
  item_num_props : Z;
  item_num_box : Z;
  pad_proposals : list (list Q);
  pad_gt_bboxs : list (list Q);
  pad_gt_box_mask : list Z;
  pad_frm_mask : list (list Z);
  pad_pnt_mask : list bool;
  item_idx : Z
}.

(** [AnetEntDataset.simple_item_getter(idx)], restricted to the proposal,
    ground-truth and mask entries of its output.  The steps that do not
    feed these entries are not represented: [get_features] with its
    assertions and feature files, the [raw_caption] lookup, the
    timestamps divided by the duration, [get_seg_feat_for_frms] and
    [int(seg_id)].  Where one of them raises, the source raises and this
    function does not: it stands for the items the source returns. *)
Definition simple_item_getter (self : AnetEntDataset) (idx : Z) : result Item :=
  row <- py_index (annots self) idx ;;
  '(padded_props, pad_pnt_mask, num_props) <- get_props self (Index row) ;;
  segments <- dict_get (anet_ent_captions self) (vid_id row) ;;
  caption_dct <- dict_get segments (seg_id row) ;;
  gt_annot_dict <- get_gt_annots self caption_dct idx ;;
  let pad_gt_bboxs := padded_gt_bboxs gt_annot_dict in
  let num_box := num_box gt_annot_dict in
  props_frm <- np_col_prefix padded_props num_props 4 ;;
  gt_frm <- np_col_prefix pad_gt_bboxs num_box 4 ;;
  let frm_mask := get_frm_mask props_frm gt_frm in
  ones <- np_ones (max_proposals self) (max_gt_box self) ;;
  pad_frm_mask <- assign_block ones num_props num_box frm_mask ;;
  Ok {| item_num_props := num_props;
        item_num_box := num_box;
        pad_proposals := padded_props;
        pad_gt_bboxs := pad_gt_bboxs;
        pad_gt_box_mask := padded_gt_box_mask gt_annot_dict;
        pad_frm_mask := pad_frm_mask;
        pad_pnt_mask := pad_pnt_mask;
        item_idx := idx |}.

(** ** Segment features on the frame grid *)

(** A feature vector produced by a mean: a mean over an empty slice is a
    row of nan in numpy (with a warning, not an exception). *)
Inductive FeatRow : Type :=
| Feat (v : list Q)
| NaNRow.

(** [.astype(np.int_)]: truncation toward zero. *)
Definition Qtrunc (q : Q) : Z := Z.quot (Qnum q) (Z.pos (Qden q)).

(** [rows.mean(axis=0)] *)
Definition np_mean_axis0 (rows : list (list Q)) : FeatRow :=
  match rows with
  | [] => NaNRow
  | r :: rs =>
      let total := fold_left (map2 Qplus) rs r in
      Feat (map (fun s => (s / inject_Z (len rows))%Q) total)
  end.

(** [np.arange(0, 10)] *)
Definition frm_ind : list Z := map Z.of_nat (seq 0 10).

(** [AnetEntDataset.get_seg_feat_for_frms(seg_feats, timestamps, duration,
    idx)].  Returns the per-bin features and the global feature; [duration]
    and [idx] are not read by the body.  Warnings are not turned into
    exceptions. *)
Definition get_seg_feat_for_frms (self : AnetEntDataset)
    (seg_feats : list (list Q)) (timestamps : Q * Q) (duration : Q)
  : result (list FeatRow * FeatRow) :=
  let ctx := ctx_for_seg_feats self in
  let timestamps :=
    if negb (Qle_bool (fst timestamps) (snd timestamps))
    then (snd timestamps, fst timestamps)
    else timestamps in
  let st_time := fst timestamps in
  let end_time := snd timestamps in
  let duration_clip := (end_time - st_time)%Q in
  let num_frms := len seg_feats in
  let frm_time :=
    map (fun i => (st_time + (duration_clip / 10) * (inject_Z i + (1 # 2)))%Q)
      frm_ind in
  let frm_index_in_seg_feat :=
    map (fun t => Z.min (Z.max (Qtrunc (t * 2) - 1) 0) (num_frms - 1))
      frm_time in
  let st_indices :=
    map (fun i => Z.max (i - ctx - 1) 0) frm_index_in_seg_feat in
  let end_indices :=
    map (fun i => Z.min (i + ctx + 1) num_frms) frm_index_in_seg_feat in
  let st0 := hd 0 st_indices in
  let end9 := last end_indices 0 in
  seg_feats_frms_glob <-
    (if negb (st0 =? end9)
     then Ok (np_mean_axis0 (py_slice seg_feats st0 end9))
     else r <- py_index seg_feats st0 ;; Ok (Feat r)) ;;
  _ <- py_assert
         (forallb (fun p => fst p - snd p >? 0)
            (combine end_indices st_indices)) ;;
  seg_feats_frms <-
    (if negb (ctx =? 0)
     then Ok (map (fun p => np_mean_axis0 (py_slice seg_feats (fst p) (snd p)))
                (combine st_indices end_indices))
     else mapM (fun i => r <- py_index seg_feats i ;; Ok (Feat r))
            frm_index_in_seg_feat) ;;
  Ok (seg_feats_frms, seg_feats_frms_glob).

(** ** SPAT and TEMP box shifts *)

(** The entries of a [torch.float32] tensor, as the boxes of an example
    are ([torch.tensor(...).float()]): IEEE 754 binary32 numbers, that
    is [spec_float] with 24 bits of precision and 128 as the exponent of
    the infinities.  The operations are those of the standard
    specification of floating-point arithmetic; they round to nearest,
    ties to even. *)
Definition f32 : Type := spec_float.

Definition f32_add : f32 -> f32 -> f32 := SFadd 24 128.

Definition f32_sub : f32 -> f32 -> f32 := SFsub 24 128.

Definition f32_mul : f32 -> f32 -> f32 := SFmul 24 128.

Definition f32_zero : f32 := S754_zero false.

Definition f32_one : f32 := S754_finite false 8388608 (-23).

(** The result of an operation on 64-bit signed integers: wrapped around
    into [-2^63 .. 2^63 - 1]. *)
Definition int64 (z : Z) : Z := (z + 2 ^ 63) mod 2 ^ 64 - 2 ^ 63.

(** [t.float()] on an entry of an integer tensor: the nearest float32. *)
Definition f32_of_Z (z : Z) : f32 := binary_normalize 24 128 z 0 false.

(** A three-dimensional float32 tensor with its shape: videos, rows per
    video, channels per row. *)
Record Tensor3 : Type := {
  dim0 : nat;
  dim1 : nat;
  dim2 : nat;
  entries : list (list (list f32))
}.

(** What a [view] of the shifted boxes returns: [n x num_props x pdim] when
    [keepdim], else [(n * num_props) x pdim]. *)
Inductive BoxView : Type :=
| View3 (t : list (list (list f32)))
| View2 (t : list (list f32)).

Definition t3_map {A B : Type} (f : A -> B) (a : list (list (list A)))
  : list (list (list B)) :=
  map (map (map f)) a.

Definition t3_map2 {A B C : Type} (f : A -> B -> C)
    (a : list (list (list A))) (b : list (list (list B)))
  : list (list (list C)) :=
  map2 (map2 (map2 f)) a b.

(** [torch.arange(n) * shift], an int64 tensor, viewed as [n x 1 x 1] and
    expanded to [n x num_props x pdim]. *)
Definition expand_delta (n num_props pdim : nat) (shift : Z)
  : list (list (list Z)) :=
  map (fun v => repeat (repeat (int64 (Z.of_nat v * shift)) pdim) num_props)
    (seq 0 n).

(** The zero tensor of the shape and type of [props] with the channels
    [cols] set to 1: [delta_msk[..., cols] = 1]. *)
Definition delta_msk (n num_props pdim : nat) (cols : list nat)
  : result (list (list (list f32))) :=
  if forallb (fun c => Nat.ltb c pdim) cols then
    let row :=
      map (fun c => if existsb (Nat.eqb c) cols then f32_one else f32_zero)
        (seq 0 pdim) in
    Ok (repeat (repeat row num_props) n)
  else Raise IndexError.

(** Rows [k * size .. (k + 1) * size) of a sequence. *)
Definition chunk {A : Type} (size k : nat) (l : list A) : list A :=
  firstn size (skipn (k * size) l).

Module SPAT.

(** [reshuffle_boxes]: from [nvids x (nfrms * nppf)] rows to
    [nfrms x nvids x nppf] rows, flattened.  The first [view] needs
    [num_props = num_frms * num_prop_per_frm]. *)
Definition reshuffle_boxes {A : Type} (self : AnetEntDataset)
    (num_props : nat) (inp_t : list (list A)) : result (list A) :=
  if (num_frms self <? 0) || (num_prop_per_frm self <? 0)
     || negb (Z.of_nat num_props =? num_frms self * num_prop_per_frm self)
  then Raise RuntimeError
  else
    let nfrms := Z.to_nat (num_frms self) in
    let nppf := Z.to_nat (num_prop_per_frm self) in
    Ok (concat (map (fun f => concat (map (chunk nppf f) inp_t))
                  (seq 0 nfrms))).

(** [process_props(props, shift=720, keepdim, reshuffle_box)] of
    [verb_item_getter_SPAT]. *)
Definition process_props (self : AnetEntDataset) (props : Tensor3)
    (shift : Z) (keepdim reshuffle_box : bool) : result BoxView :=
  let n := dim0 props in
  let num_props := dim1 props in
  let pdim := dim2 props in
  let delta := expand_delta n num_props pdim shift in
  delta_msk <- delta_msk n num_props pdim [0%nat; 2%nat] ;;
  let delta := t3_map2 f32_mul (t3_map f32_of_Z delta) delta_msk in
  let props_new := t3_map2 f32_add (entries props) delta in
  flat <-
    (if reshuffle_box then reshuffle_boxes self num_props props_new
     else Ok (concat props_new)) ;;
  if keepdim
  then Ok (View3 (map (fun v => chunk num_props v flat) (seq 0 n)))
  else Ok (View2 flat).

End SPAT.

Module TEMP.

(** [process_props(props, shift=10, keepdim, reshuffle_box)] of
    [verb_item_getter_TEMP]; [reshuffle_box] is not looked at. *)
Definition process_props (props : Tensor3) (shift : Z)
    (keepdim reshuffle_box : bool) : result BoxView :=
  let n := dim0 props in
  let num_props := dim1 props in
  let pdim := dim2 props in
  let delta := expand_delta n num_props pdim shift in
  delta_msk <- delta_msk n num_props pdim [4%nat] ;;
  let delta := t3_map2 f32_mul (t3_map f32_of_Z delta) delta_msk in
  let props_new := t3_map2 f32_add (entries props) delta in
  let flat := concat props_new in
  if keepdim
  then Ok (View3 (map (fun v => chunk num_props v flat) (seq 0 n)))
  else Ok (View2 flat).

End TEMP.

(** Entry [(v, r, c)] of a three-dimensional tensor. *)
Definition t3_get {A : Type} (t : list (list (list A))) (v r c : nat)
  : option A :=
  match nth_error t v with
  | Some video =>
      match nth_error video r with
      | Some row => nth_error row c
      | None => None
      end
  | None => None
  end.

(** The data agrees with the declared shape. *)
Definition well_shaped (t : Tensor3) : Prop :=
  length (entries t) = dim0 t /\
  Forall (fun video =>
            length video = dim1 t /\
            Forall (fun row => length row = dim2 t) video)
         (entries t).

(** ** SRL annotation encoder: the verb slot *)

(** A row of the SRL table ([self.srl_annots]). *)
Record SrlRow : Type := {
  ann_ind : Z;
  lemma_verb : string;
  req_pat_ix : list (string * list Z);
  srl_words : list string;      (* [srl_row.words] *)
  srl_tags : list string        (* [srl_row.tags] *)
}.

(** A table indexed by row label: [table.loc[k]]. *)
Fixpoint loc {V : Type} (t : list (Z * V)) (k : Z) : result V :=
  match t with
  | [] => Raise KeyError
  | (k', v) :: t' => if k =? k' then Ok v else loc t' k
  end.

(** The candidate mapping: argument name to candidate row indices. *)
Definition MoreIdxs : Type := list (string * list Z).

Inductive Split : Type := Train | Valid | Test.

Inductive SampleType : Type := Ds4 | Random | Ds4Random.

(** The attributes of [Anet_SRL] ([AV_CS] over [AnetVerbDataset]). *)
Record Anet_SRL : Type := {
  ent : AnetEntDataset;
  split_type : Split;
  sample_type : SampleType;
  cs_nvids_sample : Z;
  cs_shuffle : bool;                        (* [cfg.ds.cs_shuffle] *)
  seq_length : Z;                           (* [cfg.ds.max_seq_length] *)
  srl_arg_len : Z;                          (* [cfg.misc.srl_arg_length] *)
  include_srl_args : list string;           (* [cfg.ds.include_srl_args] *)
  arg_tag_vocab : list (string * Z);        (* [arg_vocab['arg_tag_vocab']] *)
  srl_annots : list (Z * SrlRow);
  RandDS4_Inds : list (Z * MoreIdxs);       (* column of [srl_annots] *)
  DS4_Inds : list (Z * MoreIdxs)            (* column of [srl_annots] *)
}.

(** [l.index(x)] on names: position of the first occurrence. *)
Fixpoint index_of (x : string) (l : list string) : option nat :=
  match l with
  | [] => None
  | y :: l' =>
      if String.eqb x y then Some 0%nat
      else option_map S (index_of x l')
  end.

(** [x in l] on names. *)
Definition mem (x : string) (l : list string) : bool :=
  existsb (String.eqb x) l.

(** The verb slot of [get_srl_anns]:
<<
    assert 'V' in srl_args
    verb_ind_in_srl = srl_args.index('V')
    if not verb_ind_in_srl <= self.srl_arg_len - 1:
        verb_ind_in_srl = 0
>> *)
Definition verb_ind_in_srl (srl_arg_len : Z) (srl_args : list string)
  : result Z :=
  _ <- py_assert (mem "V" srl_args) ;;
  match index_of "V" srl_args with
  | None => Raise ValueError
  | Some i =>
      let verb_ind := Z.of_nat i in
      if negb (verb_ind <=? srl_arg_len - 1) then Ok 0 else Ok verb_ind
  end.

(** [word_to_int_vocab(words, voc, pad_len)], local to [get_srl_anns], for
    a dictionary [voc]: it has no [stoi], [UNK] or [itos] attribute. *)
Definition word_to_int_vocab (words : list string) (voc : list (string * Z))
    (pad_len : Z) : result (list Z * Z) :=
  out_list <-
    mapM (fun w => if mem w (dict_keys voc) then dict_get voc w
                   else dict_get voc "UNK") words ;;
  let curr_len := len out_list in
  padded <- pad_words_with_vocab out_list (Some {| itos := None |}) pad_len [1] ;;
  Ok (padded, curr_len).

(** What [get_srl_anns] has computed when it reaches the verb slot. *)
Record SrlHead : Type := {
  srl_args_visual_msk : list bool;
  tag_word_ind : list Z;
  head_verb_ind_in_srl : Z
}.

(** [AnetVerbDataset.get_srl_anns(srl_row, out)] from its first statement
    through the assignment of [verb_ind_in_srl]; the word, capture-span
    and box-link tensors built after that point are not represented. *)
Definition get_srl_anns (self : Anet_SRL) (srl_row : SrlRow) : result SrlHead :=
  let vis_set := include_srl_args self in
  '(srl_args, srl_words_inds) <-
    (match req_pat_ix srl_row with
     | [] => Raise ValueError
     | pats => Ok (map fst pats, map snd pats)
     end) ;;
  srl_args_visual_msk <-
    pad_words_with_vocab (map (fun s => mem s vis_set) srl_args) None
      (srl_arg_len self) [false] ;;
  srl_arg_words <-
    mapM (fun y => mapM (fun ix => py_index (srl_words srl_row) ix) y)
      srl_words_inds ;;
  tag_seq <-
    mapM (fun ix => py_index (srl_tags srl_row) ix) (concat srl_words_inds) ;;
  '(tag_word_ind, _) <-
    word_to_int_vocab tag_seq (arg_tag_vocab self) (seq_length self) ;;
  verb_ind <- verb_ind_in_srl (srl_arg_len self) srl_args ;;
  Ok {| srl_args_visual_msk := srl_args_visual_msk;
        tag_word_ind := tag_word_ind;
        head_verb_ind_in_srl := verb_ind |}.

(** ** Candidate selector *)

(** The random draws and the external candidate generators consulted
    during one access. *)
Record Draws : Type := {
  (* [np.random.choice(keys, size, replace=False)] for [0 <= size] *)
  choice : list string -> nat -> list string;
  (* [np.random.random() < 0.5] *)
  coin : bool;
  (* [torch.randperm(n)] *)
  randperm : nat -> list Z;
  (* [create_random_list(cfg, srl_annots, idx)[0]] *)
  create_random_list : Z -> result MoreIdxs;
  (* [create_similar_list(cfg, arg_dicts, srl_annots, idx)[0]] *)
  create_similar_list : Z -> result MoreIdxs
}.

(** [np.random.choice(a, size, replace=False)] *)
Definition np_random_choice (rnd : Draws) (a : list string) (size : Z)
  : result (list string) :=
  if (size <? 0) || (len a <? size) then Raise ValueError
  else Ok (choice rnd a (Z.to_nat size)).

(** [{k: more_idxs[k] for k in keys}] *)
Definition dict_restrict (more_idxs : MoreIdxs) (keys : list string)
  : result MoreIdxs :=
  mapM (fun k => v <- dict_get more_idxs k ;; Ok (k, v)) keys.

(** The truncation applied to a mapping on the train split. *)
Definition truncate_train (self : Anet_SRL) (rnd : Draws) (more_idxs : MoreIdxs)
  : result MoreIdxs :=
  if len more_idxs >? cs_nvids_sample self - 1 then
    more_idxs_new_keys <-
      np_random_choice rnd (dict_keys more_idxs)
        (Z.min (len more_idxs) (cs_nvids_sample self - 1)) ;;
    dict_restrict more_idxs more_idxs_new_keys
  else Ok more_idxs.

(** The truncation applied to a mapping on the valid and test splits. *)
Definition truncate_eval (self : Anet_SRL) (more_idxs : MoreIdxs)
  : result MoreIdxs :=
  if len more_idxs >? cs_nvids_sample self - 1 then
    let more_idxs_new_keys :=
      py_prefix (dict_keys more_idxs)
        (Z.min (len more_idxs) (cs_nvids_sample self - 1)) in
    dict_restrict more_idxs more_idxs_new_keys
  else Ok more_idxs.

(** [AV_CS.get_random_more_idx(idx)] *)
Definition get_random_more_idx (self : Anet_SRL) (rnd : Draws) (idx : Z)
  : result MoreIdxs :=
  match split_type self with
  | Train =>
      more_idxs <- create_random_list rnd idx ;;
      truncate_train self rnd more_idxs
  | Valid | Test =>
      more_idxs <- loc (RandDS4_Inds self) idx ;;
      truncate_eval self more_idxs
  end.

(** [AV_CS.get_cs_more_idxs(idx)] *)
Definition get_cs_more_idxs (self : Anet_SRL) (rnd : Draws) (idx : Z)
  : result MoreIdxs :=
  match split_type self with
  | Train =>
      more_idxs <- create_similar_list rnd idx ;;
      truncate_train self rnd more_idxs
  | Valid | Test =>
      more_idxs <- loc (DS4_Inds self) idx ;;
      truncate_eval self more_idxs
  end.

(** [AV_CS.get_cs_and_random_more_idx(idx)] *)
Definition get_cs_and_random_more_idx (self : Anet_SRL) (rnd : Draws) (idx : Z)
  : result MoreIdxs :=
  if coin rnd then get_random_more_idx self rnd idx
  else get_cs_more_idxs self rnd idx.

(** [self.more_idx_collector], chosen from [sample_type] in [after_init]. *)
Definition more_idx_collector (self : Anet_SRL) (rnd : Draws) (idx : Z)
  : result MoreIdxs :=
  match sample_type self with
  | Random => get_random_more_idx self rnd idx
  | Ds4 => get_cs_more_idxs self rnd idx
  | Ds4Random => get_cs_and_random_more_idx self rnd idx
  end.

(** ** Multi-video composer *)

(** The lists grown by the candidate-gathering loop. *)
Record Gathered : Type := {
  new_idxs : list Z;
  verb_cmp : list Z;
  verb_list : list string
}.

(** [srl_annots.lemma_verb.loc[ix]] *)
Definition lemma_verbs (self : Anet_SRL) (ix : Z) : result string :=
  row <- loc (srl_annots self) ix ;; Ok (lemma_verb row).

(** One run of [for arg_name, arg_ids in more_idxs.items(): ...] with the
    current value of [cons]. *)
Fixpoint gather_pass (self : Anet_SRL) (curr_verb : string) (cons : Z)
    (items : MoreIdxs) (g : Gathered) : result Gathered :=
  match items with
  | [] => Ok g
  | (arg_name, arg_ids) :: items' =>
      if len (new_idxs g) <? cs_nvids_sample self then
        arg_id_to_append <- py_index arg_ids cons ;;
        if negb (arg_id_to_append =? -1) then
          new_verb <- lemma_verbs self arg_id_to_append ;;
          gather_pass self curr_verb cons items'
            {| new_idxs := new_idxs g ++ [arg_id_to_append];
               verb_cmp :=
                 verb_cmp g ++ [Z.b2z (String.eqb new_verb curr_verb)];
               verb_list := verb_list g ++ [new_verb] |}
        else gather_pass self curr_verb cons items' g
      else gather_pass self curr_verb cons items' g
  end.

(** The train-split loop
    [while len(new_idxs) < self.cs_nvids_sample: <for>; cons += 1],
    run for at most [fuel] iterations; [None] when the loop is still
    running after them. *)
Fixpoint gather_train (fuel : nat) (self : Anet_SRL) (curr_verb : string)
    (more_idxs : MoreIdxs) (cons : Z) (g : Gathered)
  : option (result Gathered) :=
  if len (new_idxs g) <? cs_nvids_sample self then
    match fuel with
    | O => None
    | S fuel' =>
        match gather_pass self curr_verb cons more_idxs g with
        | Ok g' => gather_train fuel' self curr_verb more_idxs (cons + 1) g'
        | Raise e => Some (Raise e)
        end
    end
  else Some (Ok g).

(** The candidate gathering of [verb_item_getter_nvid]: the loop on the
    train split, a single pass on the other splits. *)
Definition gather (fuel : nat) (self : Anet_SRL) (curr_verb : string)
    (more_idxs : MoreIdxs) (g : Gathered) : option (result Gathered) :=
  match split_type self with
  | Train => gather_train fuel self curr_verb more_idxs 0 g
  | Valid | Test => Some (gather_pass self curr_verb 0 more_idxs g)
  end.

Fixpoint insert_by (p : Z * Z) (l : list (Z * Z)) : list (Z * Z) :=
  match l with
  | [] => [p]
  | q :: l' => if fst p <=? fst q then p :: l else q :: insert_by p l'
  end.

Definition arange (n : nat) : list Z := map Z.of_nat (seq 0 n).

(** [t.argsort()]: the positions of [t] in increasing order of their
    values. *)
Definition argsort (t : list Z) : list Z :=
  map snd (fold_right insert_by [] (combine t (arange (length t)))).

(** [shuffle_list_from_perm(lst, perm)] *)
Definition shuffle_list_from_perm {A : Type} (lst : list A) (perm : list Z)
  : result (list A) :=
  mapM (fun ix => py_index lst ix) perm.

(** [collate_dict_list(dict_list, pad_len)]: the per-slot items padded
    with copies of the first one, and their number. *)
Definition collate_dict_list {A : Type} (dict_list : list A) (pad_len : Z)
  : result (list A * Z) :=
  match dict_list with
  | [] => Raise IndexError
  | d0 :: _ =>
      dl_list_pad <- pad_words_with_vocab dict_list None pad_len [d0] ;;
      Ok (dl_list_pad, len dict_list)
  end.

(** [np.pad(m, (0, k), mode='constant', constant_values=0)] on a matrix
    with [cols] columns: [k] zeros after each row, [k] zero rows after the
    last. *)
Definition np_pad_after (cols : nat) (m : list (list Z)) (k : Z)
  : result (list (list Z)) :=
  if k <? 0 then Raise ValueError
  else
    Ok (map (fun r => r ++ repeat 0 (Z.to_nat k)) m
          ++ repeat (repeat 0 (cols + Z.to_nat k)) (Z.to_nat k)).

(** [np.eye(n, n)] *)
Definition np_eye (n : nat) : list (list Z) :=
  map (fun i => map (fun j => Z.b2z (Nat.eqb i j)) (seq 0 n)) (seq 0 n).

Definition sum_list (l : list Z) : Z := fold_right Z.add 0 l.

(** The dictionary returned by [verb_item_getter_nvid]: the collated
    per-slot items, the head of the SRL encoding of the target, and the
    bookkeeping entries of [out_dict_verb]. *)
Record NvidOut : Type := {
  collated : list Item;
  srl_head : SrlHead;
  permute : list Z;
  permute_inv : list Z;
  target_cmp : Z;
  new_srl_idxs : list Z;
  sent_idx : Z;
  num_cmp : Z;
  num_cmp_msk : list Z;
  num_cross_cmp_msk : list (list Z);
  out_verb_cmp : list Z;
  verb_cross_cmp : list (list Z);
  verb_cross_cmp_msk : list (list Z)
}.

(** [verb_item_getter_nvid] after the candidates are gathered. *)
Definition compose (self : Anet_SRL) (rnd : Draws) (idx : Z) (g : Gathered)
  : result NvidOut :=
  let new_idxs := new_idxs g in
  let simple_permute :=
    if cs_shuffle self then randperm rnd (length new_idxs)
    else arange (length new_idxs) in
  let simple_permute_inv := argsort simple_permute in
  targ_cmp <- py_index simple_permute_inv 0 ;;
  new_idxs <- shuffle_list_from_perm new_idxs simple_permute ;;
  verb_cmp <- shuffle_list_from_perm (verb_cmp g) simple_permute ;;
  verb_list <- shuffle_list_from_perm (verb_list g) simple_permute ;;
  ann_id_list <-
    mapM (fun ix => row <- loc (srl_annots self) ix ;; Ok (ann_ind row))
      new_idxs ;;
  new_out_dicts <- mapM (simple_item_getter (ent self)) ann_id_list ;;
  srl_row <- loc (srl_annots self) idx ;;
  out_dict_verb_for_idx <- get_srl_anns self srl_row ;;
  '(collated_out_dicts, num_cmp) <-
    collate_dict_list new_out_dicts (cs_nvids_sample self) ;;
  new_srl_idxs_pad <-
    pad_words_with_vocab new_idxs None (cs_nvids_sample self) [1] ;;
  verb_cmp_pad <-
    pad_words_with_vocab verb_cmp None (cs_nvids_sample self) [0] ;;
  let verb_list :=
    if len verb_list >? cs_nvids_sample self
    then py_prefix verb_list (cs_nvids_sample self)
    else verb_list in
  let verb_cross_cmp :=
    map (fun a => map (fun b => Z.b2z (String.eqb a b)) verb_list)
      verb_list in
  let verb_cross_cmp_msk :=
    repeat (repeat 1 (length verb_list)) (length verb_list) in
  verb_cross_cmp <-
    np_pad_after (length verb_list) verb_cross_cmp
      (cs_nvids_sample self - len verb_list) ;;
  verb_cross_cmp_msk <-
    np_pad_after (length verb_list) verb_cross_cmp_msk
      (cs_nvids_sample self - len verb_list) ;;
  num_cmp_arr <-
    np_pad_after (Z.to_nat num_cmp) (np_eye (Z.to_nat num_cmp))
      (cs_nvids_sample self - num_cmp) ;;
  let sp_pad :=
    map (fun k => num_cmp + Z.of_nat k)
      (seq 0 (Z.to_nat (cs_nvids_sample self - num_cmp))) in
  let simple_permute := simple_permute ++ sp_pad in
  _ <- py_assert (len simple_permute =? cs_nvids_sample self) ;;
  let simple_permute_inv := simple_permute_inv ++ sp_pad in
  Ok {| collated := collated_out_dicts;
        srl_head := out_dict_verb_for_idx;
        permute := simple_permute;
        permute_inv := simple_permute_inv;
        target_cmp := targ_cmp;
        new_srl_idxs := new_srl_idxs_pad;
        sent_idx := idx;
        num_cmp := num_cmp;
        num_cmp_msk :=
          list_mul [1] num_cmp ++ list_mul [0] (cs_nvids_sample self - num_cmp);
        num_cross_cmp_msk := num_cmp_arr;
        out_verb_cmp := verb_cmp_pad;
        verb_cross_cmp := verb_cross_cmp;
        verb_cross_cmp_msk := verb_cross_cmp_msk |}.

(** [AV_CS.verb_item_getter_nvid(idx)].  [None] when the gathering loop
    is still running after [fuel] iterations. *)
Definition verb_item_getter_nvid (fuel : nat) (self : Anet_SRL) (rnd : Draws)
    (idx : Z) : option (result NvidOut) :=
  match more_idx_collector self rnd idx with
  | Raise e => Some (Raise e)
  | Ok more_idxs =>
      match lemma_verbs self idx with
      | Raise e => Some (Raise e)
      | Ok curr_verb =>
          let g0 := {| new_idxs := [idx];
                       verb_cmp := [1];
                       verb_list := [curr_verb] |} in
          match gather fuel self curr_verb more_idxs g0 with
          | None => None
          | Some (Raise e) => Some (Raise e)
          | Some (Ok g) => Some (compose self rnd idx g)
          end
      end
  end.

(** ** Notions used in the statements *)

(** The inclusion bit [get_props] computes for a detection row. *)
Definition included (self : AnetEntDataset) (row : list Q) : bool :=
  Qle_bool (prop_thresh self) (nth 6 row 0%Q)
  && (if exclude_bgd_det self then negb (Qeq_bool (nth 5 row 0%Q) 0) else true).

(** The boxes plus the masked per-video offset, as both [process_props]
    compute it. *)
Definition shifted (props : Tensor3) (shift : Z)
    (msk : list (list (list f32))) : list (list (list f32)) :=
  t3_map2 f32_add (entries props)
    (t3_map2 f32_mul
       (t3_map f32_of_Z
          (expand_delta (dim0 props) (dim1 props) (dim2 props) shift))
       msk).

(** A number or a zero, as opposed to an infinity or a NaN. *)
Definition f32_finite (x : f32) : bool :=
  match x with
  | S754_zero _ | S754_finite _ _ _ => true
  | _ => false
  end.

(** The representation is one a float32 tensor can hold: the mantissa
    has the number of bits its exponent asks for, and the exponent is in
    range. *)
Definition f32_valid (x : f32) : bool := valid_binary 24 128 x.

(** The value of a float32 number in units of [2^-149], the smallest
    positive float32; an integer.  (0 for infinities and NaN.) *)
Definition f32_units (x : f32) : Z :=
  match x with
  | S754_finite s m e => cond_Zopp s (Zpos m) * 2 ^ (e + 149)
  | _ => 0
  end.

(** Equal bit for bit, or two zeros, which differ by their sign at most
    and compare equal. *)
Definition f32_same (a b : f32) : Prop :=
  a = b \/ exists s s' : bool, a = S754_zero s /\ b = S754_zero s'.

(** What the draws of one access are known to satisfy:
    [np.random.choice(keys, k, replace=False)] returns [k] keys taken at
    distinct positions, and [torch.randperm(n)] a permutation of
    [0 .. n-1]. *)
Definition valid_draws (rnd : Draws) : Prop :=
  (forall (keys : list string) (k : nat),
      NoDup keys -> (k <= length keys)%nat ->
      length (choice rnd keys k) = k /\
      NoDup (choice rnd keys k) /\
      incl (choice rnd keys k) keys) /\
  (forall n : nat, Permutation (randperm rnd n) (arange n)).

(** [m'] keeps at most [cs_nvids_sample - 1] of the argument names of
    [m], each with its whole candidate list; on the valid and test splits
    the names kept are the first ones. *)
Definition truncated_mapping (self : Anet_SRL) (m m' : MoreIdxs) : Prop :=
  len m' = Z.min (len m) (cs_nvids_sample self - 1) /\
  NoDup (dict_keys m') /\
  (forall (k : string) (ids : list Z), In (k, ids) m' -> In (k, ids) m) /\
  (split_type self <> Train ->
   m' = firstn (Z.to_nat (cs_nvids_sample self - 1)) m).

(** The three lists of the gathering grow together, and the first slot,
    the target's, carries the verb flag 1. *)
Definition gathered_ok (g : Gathered) : Prop :=
  length (verb_cmp g) = length (new_idxs g) /\
  length (verb_list g) = length (new_idxs g) /\
  nth_error (verb_cmp g) 0 = Some 1.

(** [x] is a candidate the mapping supplies: a non-sentinel entry read
    at an in-range position [c >= 0] of one of its lists. *)
Definition supplied (items : MoreIdxs) (x : Z) : Prop :=
  x <> -1 /\
  exists (name : string) (ids : list Z) (c : Z),
    In (name, ids) items /\ 0 <= c /\ py_index ids c = Ok x.

(** The entries one pass of the gathering finds at position [c], list
    after list, up to the first list that has no entry [c]; the flag says
    whether every list had one. *)
Fixpoint pass_entries (items : MoreIdxs) (c : nat) : list Z * bool :=
  match items with
  | [] => ([], true)
  | (_, arg_ids) :: items' =>
      match nth_error arg_ids c with
      | Some x =>
          let (xs, full) := pass_entries items' c in (x :: xs, full)
      | None => ([], false)
      end
  end.

(** The entries the mapping holds before any per-argument list is
    exhausted: those of the passes at positions [c], [c + 1], ..., in the
    order the loop reads them, up to the first position that lies beyond
    the end of its list.  At most [passes] passes are looked at; the flag
    says whether an exhausted list was met within them. *)
Fixpoint entries_before_exhaustion (passes : nat) (items : MoreIdxs)
    (c : nat) : list Z * bool :=
  match passes with
  | O => ([], false)
  | S passes' =>
      let (xs, full) := pass_entries items c in
      if full then
        let (ys, exhausted) :=
          entries_before_exhaustion passes' items (S c) in
        (xs ++ ys, exhausted)
      else (xs, true)
  end.

(** The entries other than the sentinel -1. *)
Definition non_sentinel (xs : list Z) : list Z :=
  filter (fun x => negb (x =? -1)) xs.

(** ** Example data *)

(** A store with one segment: three stored detection rows of which two
    are counted, two proposals per frame on two frames, one annotated
    box. *)
Definition example_dataset : AnetEntDataset :=
  {| num_frms := 2;
     num_prop_per_frm := 2;
     prop_thresh := 1 # 2;
     exclude_bgd_det := false;
     max_gt_box := 3;
     ctx_for_seg_feats := 1;
     num_proposals := [2];
     label_proposals :=
       [[ [1; 2; 3; 4; 0; 1; 9 # 10];
          [1; 2; 3; 4; 1; 0; 1 # 10];
          [0; 0; 0; 0; 0; 0; 0] ]]%Q;
     annots :=
       [ {| vid_id := "v_a"; seg_id := "0";
            vid_seg_id := "v_a_segment_00"; Index := 0 |} ];
     anet_ent_captions :=
       [ ("v_a"%string,
          [ ("0"%string,
             {| bbox := [[1; 1; 2; 2]]%Q; frm_idx := [1%Q] |}) ]) ] |}.

(** The same store with room for a single ground-truth box. *)
Definition one_box_dataset : AnetEntDataset :=
  {| num_frms := 2;
     num_prop_per_frm := 2;
     prop_thresh := 1 # 2;
     exclude_bgd_det := false;
     max_gt_box := 1;
     ctx_for_seg_feats := 1;
     num_proposals := [2];
     label_proposals := label_proposals example_dataset;
     annots := annots example_dataset;
     anet_ent_captions := anet_ent_captions example_dataset |}.

(** A segment annotated with two boxes. *)
Definition two_box_caption : Caption :=
  {| bbox := [[1; 1; 2; 2]; [3; 3; 4; 4]]%Q; frm_idx := [1; 2]%Q |}.

(** Twelve feature rows of two channels, sampled at 2 fps. *)
Definition example_seg_feats : list (list Q) :=
  [ [1; 2]; [3; 4]; [5; 6]; [7; 8]; [1; 1]; [0; 0];
    [2; 2]; [3; 3]; [4; 4]; [5; 5]; [6; 6]; [7; 7] ]%Q.

(** Ground-truth boxes of two videos, two rows each: four coordinates and
    the frame index. *)
Definition example_boxes : Tensor3 :=
  {| dim0 := 2; dim1 := 2; dim2 := 5;
     entries :=
       t3_map f32_of_Z
         [ [ [1; 2; 3; 4; 0]; [5; 6; 7; 8; 1] ];
           [ [1; 2; 3; 4; 0]; [5; 6; 7; 8; 1] ] ] |}.

(** The float32 number [2^-20]. *)
Definition f32_tiny : f32 := S754_finite false 8388608 (-43).

(** One box per video, two videos, with a first x-coordinate of
    [2^-20]. *)
Definition tiny_boxes : Tensor3 :=
  {| dim0 := 2; dim1 := 1; dim2 := 5;
     entries :=
       [ [ [f32_tiny; f32_zero; f32_zero; f32_zero; f32_zero] ];
         [ [f32_tiny; f32_zero; f32_zero; f32_zero; f32_zero] ] ] |}.

(** "A child playing tennis": the verb is the second argument. *)
Definition tennis_row : SrlRow :=
  {| ann_ind := 0; lemma_verb := "play";
     req_pat_ix := [("ARG0"%string, [0; 1]); ("V"%string, [2]);
                    ("ARG1"%string, [3])];
     srl_words := ["A"; "child"; "playing"; "tennis"]%string;
     srl_tags := ["B-ARG0"; "I-ARG0"; "B-V"; "B-ARG1"]%string |}.

(** A row without an argument tagged [V]. *)
Definition verbless_row : SrlRow :=
  {| ann_ind := 0; lemma_verb := "sit";
     req_pat_ix := [("ARG0"%string, [0])];
     srl_words := ["child"]%string;
     srl_tags := ["B-ARG0"]%string |}.

(** An SRL table over the example store: row 7 has the verb of row 0,
    row 8 another one. *)
Definition example_srl_rows : list (Z * SrlRow) :=
  [ (0, tennis_row);
    (7, {| ann_ind := 0; lemma_verb := "play";
           req_pat_ix := [("V"%string, [0])];
           srl_words := ["playing"]%string;
           srl_tags := ["B-V"]%string |});
    (8, {| ann_ind := 0; lemma_verb := "run";
           req_pat_ix := [("V"%string, [0])];
           srl_words := ["running"]%string;
           srl_tags := ["B-V"]%string |});
    (9, verbless_row) ].

Definition example_srl (split : Split) (nvids : Z) (shuffle : bool)
  : Anet_SRL :=
  {| ent := example_dataset;
     split_type := split;
     sample_type := Random;
     cs_nvids_sample := nvids;
     cs_shuffle := shuffle;
     seq_length := 5;
     srl_arg_len := 2;
     include_srl_args := ["ARG1"; "ARG2"; "ARGM-LOC"]%string;
     arg_tag_vocab :=
       [("UNK"%string, 0); ("B-V"%string, 4); ("B-ARG0"%string, 5);
        ("I-ARG0"%string, 6); ("B-ARG1"%string, 7)];
     srl_annots := example_srl_rows;
     RandDS4_Inds :=
       [(0, [("ARG0"%string, [7; 8; 7]); ("ARG1"%string, [8; 7; 8])])];
     DS4_Inds :=
       [(0, [("ARG0"%string, [7; 8; 7]); ("ARG1"%string, [8; 7; 8])])] |}.

(** Draws that take the first keys and reverse the slots; the external
    generators propose the candidates of [example_srl]. *)
Definition example_draws : Draws :=
  {| choice := fun keys k => firstn k keys;
     coin := true;
     randperm := fun n => rev (arange n);
     create_random_list :=
       fun _ => Ok [("ARG0"%string, [7; 8; 7]); ("ARG1"%string, [8; 7; 8])];
     create_similar_list :=
       fun _ => Ok [("ARG0"%string, [7; 8; 7]); ("ARG1"%string, [8; 7; 8])] |}.

(** Draws whose generators propose no candidate at all. *)
Definition empty_draws : Draws :=
  {| choice := fun keys k => firstn k keys;
     coin := true;
     randperm := fun n => rev (arange n);
     create_random_list := fun _ => Ok [];
     create_similar_list := fun _ => Ok [] |}.

(** Draws whose generators propose a single candidate. *)
Definition short_draws : Draws :=
  {| choice := fun keys k => firstn k keys;
     coin := true;
     randperm := fun n => rev (arange n);
     create_random_list := fun _ => Ok [("ARG0"%string, [7])];
     create_similar_list := fun _ => Ok [("ARG0"%string, [7])] |}.

Definition example_gathered : Gathered :=
  {| new_idxs := [0]; verb_cmp := [1]; verb_list := ["play"%string] |}.

(** ** Further notions used in the statements *)

(** The dataset with another confidence threshold, all else equal. *)
Definition with_prop_thresh (self : AnetEntDataset) (t : Q) : AnetEntDataset :=
  {| num_frms := num_frms self;
     num_prop_per_frm := num_prop_per_frm self;
     prop_thresh := t;
     exclude_bgd_det := exclude_bgd_det self;
     max_gt_box := max_gt_box self;
     ctx_for_seg_feats := ctx_for_seg_feats self;
     num_proposals := num_proposals self;
     label_proposals := label_proposals self;
     annots := annots self;
     anet_ent_captions := anet_ent_captions self |}.

(** Entry [(i, j)] of a matrix. *)
Definition mat_get {A : Type} (m : list (list A)) (i j : nat) : option A :=
  match nth_error m i with
  | Some row => nth_error row j
  | None => None
  end.

(** Every gathered slot carries the lemma verb of its row and the flag
    of its equality with the target's verb. *)
Definition flags_ok (self : Anet_SRL) (curr_verb : string) (g : Gathered)
  : Prop :=
  length (verb_cmp g) = length (new_idxs g) /\
  length (verb_list g) = length (new_idxs g) /\
  forall (i : nat) (x : Z),
    nth_error (new_idxs g) i = Some x ->
    exists v,
      lemma_verbs self x = Ok v /\
      nth_error (verb_list g) i = Some v /\
      nth_error (verb_cmp g) i = Some (Z.b2z (String.eqb v curr_verb)).

(** The order [argsort] sorts the (value, position) pairs by. *)
Definition key_le (p q : Z * Z) : Prop := fst p <= fst q.

(** ** Nested index lists *)

(** A value of [process_idx2]: a word index or a list of such values. *)
#[warnings="-register-all"]
Inductive PyVal : Type :=
| PInt (z : Z)
| PList (l : list PyVal).

(** [p if isinstance(p, list) else [p]] *)
Definition as_list (p : PyVal) : list PyVal :=
  match p with
  | PList l => l
  | PInt _ => [p]
  end.

(** [AnetVerbDataset.pidx2list(pidx)]: the three nested loops, the
    innermost asserting that its item is not a list. *)
Definition pidx2list (pidx : list PyVal) : result (list Z) :=
  per_p1 <-
    mapM (fun p1 =>
            per_p2 <-
              mapM (fun p2 =>
                      mapM (fun p3 =>
                              match p3 with
                              | PInt z => Ok z
                              | PList _ => Raise AssertionError
                              end)
                        (as_list p2))
                (as_list p1) ;;
            Ok (concat per_p2))
      pidx ;;
  Ok (concat per_p1).

(** The integers of a value, left to right. *)
Fixpoint leaves (p : PyVal) : list Z :=
  match p with
  | PInt z => [z]
  | PList l => flat_map leaves l
  end.

(** Number of list levels around the deepest integer of a value. *)
Fixpoint depth (p : PyVal) : nat :=
  match p with
  | PInt _ => 0%nat
  | PList l => S (fold_right (fun q m => Nat.max (depth q) m) 0%nat l)
  end.

(** ** Batch collation *)

(** A tensor: its shape and its entries in row-major order. *)
Record Tensor : Type := {
  t_shape : list nat;
  t_data : list Q
}.

Definition shape_eqb (a b : list nat) : bool :=
  if list_eq_dec Nat.eq_dec a b then true else false.

(** [torch.stack(ts)]: a new leading axis; the tensors must have one
    shape, and there must be one at least. *)
Definition torch_stack (ts : list Tensor) : result Tensor :=
  match ts with
  | [] => Raise RuntimeError
  | t0 :: _ =>
      if forallb (fun t => shape_eqb (t_shape t) (t_shape t0)) ts
      then Ok {| t_shape := length ts :: t_shape t0;
                 t_data := concat (map t_data ts) |}
      else Raise RuntimeError
  end.

(** [len(v)] of a tensor: its first dimension. *)
Definition tensor_len (t : Tensor) : result nat :=
  match t_shape t with
  | [] => Raise ValueError
  | d :: _ => Ok d
  end.

(** [BatchCollator.__call__(batch)].  On a shape mismatch the source
    stops in a debugger; that stop is not represented, the [torch.stack]
    that follows it raises. *)
Definition BatchCollator_call (batch : list (list (string * Tensor)))
  : result (list (string * Tensor)) :=
  b0 <- py_index batch 0 ;;
  let all_keys := dict_keys b0 in
  let batch_size := length batch in
  out_dict <-
    mapM (fun k =>
            t0 <- dict_get b0 k ;;
            let shape := t_shape t0 in
            _ <- mapM (fun b => t <- dict_get b k ;;
                                Ok (shape_eqb (t_shape t) shape)) batch ;;
            ts <- mapM (fun b => dict_get b k) batch ;;
            v <- torch_stack ts ;;
            Ok (k, v))
      all_keys ;;
  sizes <- mapM (fun kv => tensor_len (snd kv)) out_dict ;;
  _ <- py_assert (forallb (fun d => Nat.eqb d batch_size) sizes) ;;
  Ok out_dict.

(** ** Concatenating the ground-truth boxes of the videos *)

(** [F.pad(rows, (0, 0, 0, k), mode='constant', value=0)] on a matrix:
    [k] zero rows after the last when [k >= 0], the last [-k] rows
    removed when [k < 0]; the result cannot have a negative number of
    rows. *)
Definition F_pad_rows (rows : list (list Q)) (k : Z) : result (list (list Q)) :=
  if len rows + k <? 0 then Raise RuntimeError
  else if k <? 0 then Ok (firstn (Z.to_nat (len rows + k)) rows)
  else Ok (rows ++ repeat (repeat 0%Q (width rows)) (Z.to_nat k)).

(** [process_gt_boxs(gt_boxs, nums)] of [verb_item_getter_TEMP]: the
    first [nums[v]] boxes of every video, one video after the other, or
    the first box of the first video when there is none, padded to
    [max_gt_box] rows. *)
Definition process_gt_boxs (self : AnetEntDataset)
    (gt_boxs : list (list (list Q))) (nums : list Z)
  : result (list (list Q)) :=
  let gt_box1 := concat (map2 (fun gt_box n1 => py_prefix gt_box n1)
                           gt_boxs nums) in
  gt_box1 <-
    (if Nat.eqb (length gt_box1) 0
     then video0 <- py_index gt_boxs 0 ;;
          box0 <- py_index video0 0 ;;
          Ok [box0]
     else Ok gt_box1) ;;
  F_pad_rows gt_box1 (max_gt_box self - len gt_box1).

(** [t.cumsum(dim=0).tolist()] *)
Fixpoint cumsum_from (acc : Z) (l : list Z) : list Z :=
  match l with
  | [] => []
  | x :: l' => (acc + x) :: cumsum_from (acc + x) l'
  end.

(** The offset of the target's boxes in the concatenation:
<<
    nboxes = [0] + out_dict['num_box'].cumsum(dim=0).tolist()
    new_pos = nboxes[tcmp]
>> *)
Definition new_pos (num_box : list Z) (tcmp : Z) : result Z :=
  py_index (0 :: cumsum_from 0 num_box) tcmp.

(** [x1[x2 > 0] += new_pos] on the box links [x1] and their validity
    [x2]. *)
Definition shift_srl_boxes (x1 x2 : list (list Z)) (new_pos : Z)
  : list (list Z) :=
  map2 (map2 (fun b l => if l >? 0 then b + new_pos else b)) x1 x2.

(** ** Box links of the SRL arguments *)

(** [enumerate(l)] followed by a map. *)
Definition mapi {A B : Type} (f : nat -> A -> B) (l : list A) : list B :=
  map2 f (seq 0 (length l)) l.

(** The box-link part of [get_srl_anns], from the unzipping of
    [srl_row.req_cls_pats_mask] (argument name, validity flag, box
    indices) to the three padded outputs [srl_boxes], [srl_boxes_lens]
    and [srl_arg_boxes_mask]. *)
Definition srl_box_links (box_per_srl_arg srl_arg_len : Z)
    (req_cls_pats_mask : list (string * Z * list Z))
  : result (list (list Z) * list (list Z) * list Z) :=
  '(srl_arg_box_indicator, srl_arg_box_inds) <-
    (match req_cls_pats_mask with
     | [] => Raise ValueError
     | pats => Ok (map (fun p => snd (fst p)) pats, map snd pats)
     end) ;;
  per_arg <-
    mapM (fun p =>
            let s1_ind := fst p in
            let s1 := snd p in
            flag <- py_index srl_arg_box_indicator (Z.of_nat s1_ind) ;;
            let mult :=
              if flag =? 1 then Z.min (len s1) box_per_srl_arg else 0 in
            let s11 :=
              mapi (fun x_ix x =>
                      if Z.of_nat x_ix <? box_per_srl_arg then x else 0) s1 in
            boxes <- pad_words_with_vocab s11 None box_per_srl_arg [0] ;;
            lens <- pad_words_with_vocab (list_mul [1] mult) None
                      box_per_srl_arg [0] ;;
            Ok (boxes, lens))
      (combine (seq 0 (length srl_arg_box_inds)) srl_arg_box_inds) ;;
  let filler := list_mul [0] box_per_srl_arg in
  srl_boxes <-
    pad_words_with_vocab (map fst per_arg) None srl_arg_len [filler] ;;
  srl_boxes_lens <-
    pad_words_with_vocab (map snd per_arg) None srl_arg_len [filler] ;;
  srl_arg_boxes_indicator <-
    pad_words_with_vocab srl_arg_box_indicator None srl_arg_len [0] ;;
  Ok (srl_boxes, srl_boxes_lens, srl_arg_boxes_indicator).

(** ** Word positions of the SRL arguments *)

(** [range(0, stop, step)]: a zero step is refused; the items are the
    multiples of [step] from 0 that stay before [stop]. *)
Definition py_range0 (stop step : Z) : result (list Z) :=
  if step =? 0 then Raise ValueError
  else
    let count :=
      if 0 <? step
      then (if 0 <? stop then (stop - 1) / step + 1 else 0)
      else (if stop <? 0 then (- stop - 1) / (- step) + 1 else 0) in
    Ok (map (fun i => Z.of_nat i * step) (seq 0 (Z.to_nat count))).

(** [torch.arange(st, st + wlen)]: an upper bound below the lower one is
    refused. *)
Definition torch_arange (st wlen : Z) : result (list Z) :=
  if wlen <? 0 then Raise RuntimeError
  else Ok (map (fun i => st + Z.of_nat i) (seq 0 (Z.to_nat wlen))).

(** The index-selection map of [get_srl_anns]:
<<
    srl_arg_word_list = [torch.arange(0+st, 0+st+wlen) for st, wlen in
        zip(range(0, seq_length*srl_arg_len, seq_length),
            srl_arg_words_length)]
    srl_arg_words_list = torch.cat(srl_arg_word_list, dim=0).tolist()
    srl_arg_words_mask = pad_words_with_vocab(
        srl_arg_words_list, pad_len=seq_length, defm=[-1])
>> *)
Definition srl_arg_words_mask (seq_length srl_arg_len : Z)
    (srl_arg_words_length : list Z) : result (list Z) :=
  starts <- py_range0 (seq_length * srl_arg_len) seq_length ;;
  srl_arg_word_list <-
    mapM (fun p => torch_arange (fst p) (snd p))
      (combine starts srl_arg_words_length) ;;
  match srl_arg_word_list with
  | [] => Raise RuntimeError
  | _ =>
      pad_words_with_vocab (concat srl_arg_word_list) None seq_length [-1]
  end.

(** The capture spans of [get_srl_anns]:
<<
    srl_arg_word_list_tmp = [0] + torch.cumsum(
        torch.tensor(srl_arg_words_length), dim=0).tolist()
    srl_arg_words_capture = [
        (min(x, seq_length-1), min(y-1, seq_length-1))
        if wlen > 0 else (0, 0)
        for x, y, wlen in zip(tmp[:-1], tmp[1:], srl_arg_words_length)]
>> *)
Definition srl_arg_words_capture (seq_length : Z)
    (srl_arg_words_length : list Z) : list (Z * Z) :=
  let tmp := 0 :: cumsum_from 0 srl_arg_words_length in
  map2 (fun xy wlen =>
          if wlen >? 0
          then (Z.min (fst xy) (seq_length - 1),
                Z.min (snd xy - 1) (seq_length - 1))
          else (0, 0))
    (combine (removelast tmp) (tl tmp))
    srl_arg_words_length.

(** Every example of the batch has every key of the first one, with a
    tensor of the same shape. *)
Definition shapes_agree (b0 : list (string * Tensor))
    (batch : list (list (string * Tensor))) : Prop :=
  forall k : string,
    In k (dict_keys b0) ->
    forall b, In b batch ->
    exists t t0,
      dict_get b k = Ok t /\ dict_get b0 k = Ok t0 /\ t_shape t = t_shape t0.

(** Two examples with the keys [feat] and [num]. *)
Definition example_batch : list (list (string * Tensor)) :=
  [ [ ("feat"%string, {| t_shape := [2%nat]; t_data := [1; 2]%Q |});
      ("num"%string, {| t_shape := []; t_data := [7]%Q |}) ];
    [ ("num"%string, {| t_shape := []; t_data := [9]%Q |});
      ("feat"%string, {| t_shape := [2%nat]; t_data := [3; 4]%Q |});
      ("extra"%string, {| t_shape := []; t_data := [0]%Q |}) ] ].

(** * Properties *)

(** Inversion of a successful [bind]. *)
Ltac inv_bind H :=
  match type of H with
  | bind ?m _ = Ok _ =>
      let E := fresh "E" in
      destruct m eqn:E; [cbn [bind] in H | discriminate H]
  | (let (_, _) := ?p in _) = Ok _ => destruct p
  end.

(** ** Python sequences *)

Lemma len_nonneg {A : Type} (l : list A) : 0 <= len l.
Proof. unfold len. lia. Qed.

Lemma slice_bound_zero (n : nat) : slice_bound n 0 = 0%nat.
Proof. reflexivity. Qed.

Lemma slice_bound_nonneg (n : nat) (k : Z) :
  0 <= k -> slice_bound n k = Nat.min (Z.to_nat k) n.
Proof.
  intros Hk. unfold slice_bound.
  destruct (k <? 0) eqn:E; [apply Z.ltb_lt in E; lia | reflexivity].
Qed.

Lemma py_prefix_nonneg {A : Type} (l : list A) (k : Z) :
  0 <= k -> py_prefix l k = firstn (Z.to_nat k) l.
Proof.
  intros Hk. unfold py_prefix, py_slice.
  rewrite slice_bound_zero, slice_bound_nonneg by assumption.
  cbn [skipn]. rewrite Nat.sub_0_r.
  destruct (Nat.le_ge_cases (Z.to_nat k) (length l)) as [H | H].
  - now rewrite Nat.min_l.
  - rewrite Nat.min_r by assumption.
    now rewrite !firstn_all2 by lia.
Qed.

Lemma list_mul_single {A : Type} (d : A) (k : Z) :
  list_mul [d] k = repeat d (Z.to_nat k).
Proof.
  unfold list_mul. induction (Z.to_nat k) as [|n IH]; cbn; [reflexivity|].
  now rewrite IH.
Qed.

Lemma py_index_nth {A : Type} (l : list A) (i : nat) (a : A) :
  nth_error l i = Some a -> py_index l (Z.of_nat i) = Ok a.
Proof.
  intros H. unfold py_index.
  destruct (Z.of_nat i <? 0) eqn:E; [apply Z.ltb_lt in E; lia|].
  rewrite E, Nat2Z.id, H. reflexivity.
Qed.


Lemma py_index_nonneg_nth {A : Type} (l : list A) (i : Z) (a : A) :
  0 <= i -> py_index l i = Ok a -> nth_error l (Z.to_nat i) = Some a.
Proof.
  intros Hi. unfold py_index.
  destruct (i <? 0) eqn:E; [apply Z.ltb_lt in E; lia|].
  rewrite E. destruct (nth_error l (Z.to_nat i)); congruence.
Qed.

Lemma py_index_out_of_range {A : Type} (l : list A) (i : Z) :
  len l <= i -> py_index l i = Raise IndexError.
Proof.
  intros Hi. pose proof (len_nonneg l) as Hl. unfold py_index.
  destruct (i <? 0) eqn:E; [apply Z.ltb_lt in E; lia|].
  rewrite E.
  destruct (nth_error l (Z.to_nat i)) eqn:N; [|reflexivity].
  assert (Z.to_nat i < length l)%nat
    by (apply nth_error_Some; congruence).
  unfold len in Hi. lia.
Qed.

(** ** Padding utility *)

(** With a one-element filler and no vocabulary, padding to a length
    [k >= 0] keeps the first [k] items and appends the missing fillers. *)
Lemma pad_nonneg {A : Type} (l : list A) (d : A) (k : Z) :
  0 <= k ->
  pad_words_with_vocab l None k [d]
  = Ok (firstn (Z.to_nat k) l ++ repeat d (Z.to_nat k - length l)).
Proof.
  intros Hk. unfold pad_words_with_vocab, len.
  destruct (k =? -1) eqn:E1; [apply Z.eqb_eq in E1; lia|].
  cbn [orb].
  destruct (Z.of_nat (length l) =? k) eqn:E2.
  - apply Z.eqb_eq in E2.
    rewrite firstn_all2 by lia.
    replace (Z.to_nat k - length l)%nat with 0%nat by lia.
    cbn. now rewrite app_nil_r.
  - apply Z.eqb_neq in E2.
    destruct (Z.of_nat (length l) >? k) eqn:E3.
    + apply Z.gtb_lt in E3.
      rewrite py_prefix_nonneg by assumption.
      replace (Z.to_nat k - length l)%nat with 0%nat by lia.
      cbn. now rewrite app_nil_r.
    + assert (Z.of_nat (length l) < k).
      { destruct (Z.gtb_spec (Z.of_nat (length l)) k); [discriminate | lia]. }
      cbn. rewrite list_mul_single, firstn_all2 by lia.
      do 3 f_equal. lia.
Qed.


(** C2.  For every list [s], filler [d] and [pad_len >= 0],
    [pad_words_with_vocab(s, pad_len=pad_len)] (no vocabulary, one-element
    filler list, as by default) returns a list of length exactly [pad_len];
    when [len(s) >= pad_len] it is the prefix [s[:pad_len]], with no filler;
    when [len(s) < pad_len] it is [s] followed by copies of the filler; and
    with [pad_len = -1] the input comes back unchanged. *)
Theorem pad_words_with_vocab_spec :
  forall (A : Type) (s : list A) (d : A) (pad_len : Z),
    (0 <= pad_len ->
     exists r,
       pad_words_with_vocab s None pad_len [d] = Ok r /\
       len r = pad_len /\
       (pad_len <= len s -> r = firstn (Z.to_nat pad_len) s) /\
       (len s < pad_len ->
        r = s ++ repeat d (Z.to_nat (pad_len - len s)))) /\
    pad_words_with_vocab s None (-1) [d] = Ok s.
Proof.
  intros A s d pad_len. split; [|reflexivity].
  intros Hk. eexists. split; [apply pad_nonneg; assumption|].
  split; [|split].
  - unfold len. rewrite length_app, length_firstn, repeat_length. lia.
  - unfold len. intros Hle.
    replace (Z.to_nat pad_len - length s)%nat with 0%nat by lia.
    cbn. now rewrite app_nil_r.
  - unfold len. intros Hlt. rewrite firstn_all2 by lia.
    do 2 f_equal. lia.
Qed.

Lemma pad_words_with_vocab_spec_witness :
  0 <= 4 /\
  pad_words_with_vocab [7; 8] None 4 [1] = Ok [7; 8; 1; 1] /\
  pad_words_with_vocab [7; 8; 9] None 2 [1] = Ok [7; 8] /\
  pad_words_with_vocab [7; 8] None (-1) [1] = Ok [7; 8].
Proof.
  split; [lia|].
  destruct (pad_words_with_vocab_spec Z [7; 8] 1 4) as [H4 Hm].
  destruct (pad_words_with_vocab_spec Z [7; 8; 9] 1 2) as [H2 _].
  split; [|split].
  - destruct (H4 ltac:(lia)) as (r & Hr & _ & _ & Htail).
    rewrite Hr. f_equal. apply Htail. vm_compute. reflexivity.
  - destruct (H2 ltac:(lia)) as (r & Hr & _ & Hpre & _).
    rewrite Hr. f_equal. apply Hpre. vm_compute. discriminate.
  - exact Hm.
Defined.

(** ** Traversals *)

Lemma mapM_total {A B : Type} (f : A -> result B) (g : A -> B) (l : list A) :
  Forall (fun a => f a = Ok (g a)) l -> mapM f l = Ok (map g l).
Proof.
  induction 1 as [|a l Ha _ IH]; cbn; [reflexivity|].
  now rewrite Ha, IH.
Qed.

Lemma mapM_length {A B : Type} (f : A -> result B) (l : list A) (r : list B) :
  mapM f l = Ok r -> length r = length l.
Proof.
  revert r. induction l as [|a l IH]; cbn; intros r H.
  - now inversion H.
  - destruct (f a); [|discriminate]. cbn in H.
    destruct (mapM f l); [|discriminate]. cbn in H.
    inversion H; subst. cbn. f_equal. now apply IH.
Qed.

Lemma mapM_nth {A B : Type} (f : A -> result B) (l : list A) (r : list B)
    (i : nat) (a : A) :
  mapM f l = Ok r -> nth_error l i = Some a ->
  exists b, f a = Ok b /\ nth_error r i = Some b.
Proof.
  revert r i. induction l as [|x l IH]; cbn; intros r i H Hi.
  - destruct i; discriminate.
  - destruct (f x) eqn:Fx; [|discriminate]. cbn in H.
    destruct (mapM f l) eqn:M; [|discriminate]. cbn in H.
    inversion H; subst. destruct i; cbn in *.
    + inversion Hi; subst. eauto.
    + eapply IH; eauto.
Qed.

Lemma map2_map_same {A B C D : Type} (h : B -> C -> D) (f : A -> B)
    (g : A -> C) (l : list A) :
  map2 h (map f l) (map g l) = map (fun a => h (f a) (g a)) l.
Proof. induction l as [|a l IH]; cbn; [reflexivity | now rewrite IH]. Qed.

Lemma map2_length {A B C : Type} (f : A -> B -> C) (l : list A) (m : list B) :
  length (map2 f l m) = Nat.min (length l) (length m).
Proof.
  revert m. induction l as [|a l IH]; intros [|b m]; cbn; auto.
Qed.

Lemma map2_nth {A B C : Type} (f : A -> B -> C) (l : list A) (m : list B)
    (i : nat) (a : A) (b : B) :
  nth_error l i = Some a -> nth_error m i = Some b ->
  nth_error (map2 f l m) i = Some (f a b).
Proof.
  revert m i. induction l as [|x l IH]; intros [|y m] [|i]; cbn;
    try discriminate.
  - now intros [= ->] [= ->].
  - apply IH.
Qed.

Lemma Forall_prefix {A : Type} (P : A -> Prop) (n : nat) (l : list A) :
  Forall P l -> Forall P (firstn n l).
Proof.
  intros H. rewrite <- (firstn_skipn n l) in H.
  now apply Forall_app in H.
Qed.

Lemma Forall_repeat {A : Type} (P : A -> Prop) (a : A) (n : nat) :
  P a -> Forall P (repeat a n).
Proof. intros H. induction n; cbn; constructor; auto. Qed.

(** ** Proposal loader *)

Lemma row_column (r : list Q) (c : nat) :
  (c < length r)%nat -> py_index r (Z.of_nat c) = Ok (nth c r 0%Q).
Proof.
  intros H. apply py_index_nth. now apply nth_error_nth'.
Qed.

Lemma np_column_total (a : list (list Q)) (w c : nat) :
  Forall (fun r => length r = w) a -> (c < w)%nat ->
  np_column a (Z.of_nat c) = Ok (map (fun r => nth c r 0%Q) a).
Proof.
  intros Ha Hc. unfold np_column. apply mapM_total.
  eapply Forall_impl; [|exact Ha].
  cbn. intros r Hr. apply row_column. lia.
Qed.

Lemma included_iff (self : AnetEntDataset) (row : list Q) :
  included self row = true <->
  (prop_thresh self <= nth 6 row 0)%Q /\
  (exclude_bgd_det self = true -> ~ (nth 5 row 0 == 0)%Q).
Proof.
  unfold included. rewrite andb_true_iff, Qle_bool_iff.
  destruct (exclude_bgd_det self).
  - rewrite negb_true_iff. split.
    + intros [H1 H2]. split; [assumption|]. intros _ E.
      apply Qeq_bool_iff in E. congruence.
    + intros [H1 H2]. split; [assumption|].
      destruct (Qeq_bool (nth 5 row 0%Q) 0) eqn:E; [|reflexivity].
      apply Qeq_bool_iff in E. now destruct (H2 eq_refl).
  - split; intros [H1 _]; split; auto. discriminate.
Qed.

(** On a store whose rows have the seven channels, [get_props] returns
    the selected rows and their inclusion bits, each padded. *)
Lemma get_props_eq (self : AnetEntDataset) (index nd : Z)
    (dets : list (list Q)) :
  py_index (num_proposals self) index = Ok nd ->
  py_index (label_proposals self) index = Ok dets ->
  0 <= nd ->
  Forall (fun r => length r = 7%nat) dets ->
  0 <= max_proposals self ->
  let sel := firstn (Z.to_nat nd) dets in
  let k := Z.to_nat (max_proposals self) in
  get_props self index
  = Ok (firstn k sel ++ repeat (repeat 0%Q 7) (k - length sel),
        firstn k (map (included self) sel) ++ repeat false (k - length sel),
        Z.min (len sel) (max_proposals self)).
Proof.
  intros Hn Hl Hnd Hrows Hmax sel k.
  unfold get_props. rewrite Hn, Hl. cbn [bind].
  rewrite py_prefix_nonneg by assumption. fold sel.
  assert (Hsel : Forall (fun r => length r = 7%nat) sel)
    by (apply Forall_prefix; assumption).
  pose proof (np_column_total sel 7 6 Hsel ltac:(lia)) as C6.
  pose proof (np_column_total sel 7 5 Hsel ltac:(lia)) as C5.
  change (Z.of_nat 6) with 6 in C6. change (Z.of_nat 5) with 5 in C5.
  rewrite C6. cbn [bind].
  assert (Hmask :
    (if exclude_bgd_det self
     then cls <- np_column sel 5;;
          Ok (map2 andb
                (map (fun c => Qle_bool (prop_thresh self) c)
                   (map (fun r => nth 6 r 0%Q) sel))
                (map (fun c => negb (Qeq_bool c 0)) cls))
     else Ok (map (fun c => Qle_bool (prop_thresh self) c)
                (map (fun r => nth 6 r 0%Q) sel)))
    = Ok (map (included self) sel)).
  { unfold included. destruct (exclude_bgd_det self).
    - rewrite C5. cbn [bind].
      rewrite !map_map, map2_map_same. reflexivity.
    - rewrite map_map. f_equal. apply map_ext. intros r.
      now rewrite andb_true_r. }
  rewrite Hmask. cbn [bind].
  rewrite !pad_nonneg by assumption. cbn [bind].
  rewrite length_map. reflexivity.
Qed.

(** C1.  For a row index whose stored count [nd] and detections [dets]
    are consistent ([0 <= nd <= len dets], seven channels per row),
    [get_props] returns [num_props = min(nd, max_proposals)], padded
    proposals with exactly [max_proposals] rows and a mask of the same
    length; the first [num_props] rows are the stored detections, with
    mask bit 1 iff the confidence (column 6) is [>= prop_thresh] and, when
    background exclusion is on, the class (column 5) is nonzero; every
    later row is all zero with mask bit 0. *)
Theorem get_props_spec :
  forall (self : AnetEntDataset) (index nd : Z) (dets : list (list Q)),
    py_index (num_proposals self) index = Ok nd ->
    py_index (label_proposals self) index = Ok dets ->
    0 <= nd <= len dets ->
    Forall (fun r => length r = 7%nat) dets ->
    0 <= max_proposals self ->
    exists props mask,
      get_props self index = Ok (props, mask, Z.min nd (max_proposals self)) /\
      len props = max_proposals self /\
      len mask = max_proposals self /\
      (forall i : nat,
          Z.of_nat i < Z.min nd (max_proposals self) ->
          exists row b,
            nth_error dets i = Some row /\
            nth_error props i = Some row /\
            nth_error mask i = Some b /\
            (b = true <->
             (prop_thresh self <= nth 6 row 0)%Q /\
             (exclude_bgd_det self = true -> ~ (nth 5 row 0 == 0)%Q))) /\
      (forall i : nat,
          Z.min nd (max_proposals self) <= Z.of_nat i < max_proposals self ->
          nth_error props i = Some (repeat 0%Q 7) /\
          nth_error mask i = Some false).
Proof.
  intros self index nd dets Hn Hl [Hnd Hle] Hrows Hmax.
  pose proof (get_props_eq self index nd dets Hn Hl Hnd Hrows Hmax) as E.
  cbv zeta in E. unfold len in *.
  set (sel := firstn (Z.to_nat nd) dets) in *.
  set (k := Z.to_nat (max_proposals self)) in *.
  assert (Lsel : length sel = Z.to_nat nd)
    by (unfold sel; rewrite length_firstn; lia).
  do 2 eexists. split; [|split; [|split; [|split]]].
  - rewrite E. do 2 f_equal. lia.
  - rewrite length_app, length_firstn, repeat_length. lia.
  - rewrite length_app, length_firstn, length_map, repeat_length. lia.
  - intros i Hi.
    assert (Hik : (i < k)%nat) by lia.
    assert (His : (i < length sel)%nat) by lia.
    destruct (nth_error dets i) as [row|] eqn:Hrow.
    2:{ apply nth_error_None in Hrow. lia. }
    assert (Hsel : nth_error sel i = Some row).
    { unfold sel. rewrite nth_error_firstn.
      destruct (Nat.ltb_spec i (Z.to_nat nd)); [assumption | lia]. }
    exists row, (included self row). split; [reflexivity|].
    split; [|split].
    + rewrite nth_error_app1 by (rewrite length_firstn; lia).
      rewrite nth_error_firstn.
      destruct (Nat.ltb_spec i k); [assumption | lia].
    + rewrite nth_error_app1 by (rewrite length_firstn, length_map; lia).
      rewrite nth_error_firstn.
      destruct (Nat.ltb_spec i k); [|lia].
      now rewrite nth_error_map, Hsel.
    + apply included_iff.
  - intros i Hi. split.
    + rewrite nth_error_app2 by (rewrite length_firstn; lia).
      apply nth_error_repeat. rewrite length_firstn. lia.
    + rewrite nth_error_app2 by (rewrite length_firstn, length_map; lia).
      apply nth_error_repeat. rewrite length_firstn, length_map. lia.
Qed.

Lemma get_props_spec_witness :
  exists props mask,
    get_props example_dataset 0 = Ok (props, mask, 2) /\
    len props = 4 /\ len mask = 4.
Proof.
  destruct (get_props_spec example_dataset 0 2
              [ [1; 2; 3; 4; 0; 1; 9 # 10];
                [1; 2; 3; 4; 1; 0; 1 # 10];
                [0; 0; 0; 0; 0; 0; 0] ]%Q)
    as (props & mask & H1 & H2 & H3 & _).
  - reflexivity.
  - reflexivity.
  - unfold len. cbn. lia.
  - repeat constructor.
  - unfold max_proposals. cbn. lia.
  - exists props, mask. auto.
Defined.

(** ** Ground-truth loader *)

Lemma firstn_repeat_min {A : Type} (a : A) (n k : nat) :
  firstn k (repeat a n) = repeat a (Nat.min k n).
Proof.
  revert n. induction k as [|k IH]; intros [|n]; cbn; auto.
  now rewrite IH.
Qed.

Lemma skipn_repeat_sub {A : Type} (a : A) (n k : nat) :
  skipn k (repeat a n) = repeat a (n - k).
Proof.
  revert n. induction k as [|k IH]; intros [|n]; cbn; auto.
Qed.

Lemma torch_tensor_rows_total (rows : list (list Q)) (w : nat) :
  Forall (fun r => length r = w) rows -> torch_tensor_rows rows = Ok rows.
Proof.
  intros H. unfold torch_tensor_rows. destruct rows as [|r0 rows]; auto.
  assert (F : forallb (fun r => Nat.eqb (length r) (length r0)) (r0 :: rows)
              = true).
  { apply forallb_forall. intros r Hr. apply Nat.eqb_eq.
    rewrite Forall_forall in H.
    rewrite (H r Hr), (H r0 (or_introl eq_refl)). reflexivity. }
  now rewrite F.
Qed.


(** C5, as the code has it.  For a caption record with as many frame
    indices as boxes (four coordinates each) and [max_gt_box >= 0],
    [get_gt_annots] returns the number of boxes of the record as
    [num_box], unclipped; the padded box array has exactly [max_gt_box]
    rows and the padded mask exactly [max_gt_box] entries, ones for the
    boxes kept and zeros after them; and [num_box <= max_gt_box] holds
    when the record has at most [max_gt_box] boxes. *)
Theorem get_gt_annots_spec :
  forall (self : AnetEntDataset) (caption_dct : Caption) (idx : Z),
    0 <= max_gt_box self ->
    length (bbox caption_dct) = length (frm_idx caption_dct) ->
    Forall (fun r => length r = 4%nat) (bbox caption_dct) ->
    exists g,
      get_gt_annots self caption_dct idx = Ok g /\
      num_box g = len (bbox caption_dct) /\
      len (padded_gt_bboxs g) = max_gt_box self /\
      len (padded_gt_box_mask g) = max_gt_box self /\
      padded_gt_box_mask g
      = repeat 1 (Z.to_nat (Z.min (num_box g) (max_gt_box self)))
          ++ repeat 0 (Z.to_nat (max_gt_box self - num_box g)) /\
      (len (bbox caption_dct) <= max_gt_box self ->
       num_box g <= max_gt_box self).
Proof.
  intros self cap idx Hmax Hlen Hrows.
  unfold get_gt_annots.
  rewrite (torch_tensor_rows_total _ _ Hrows). cbn [bind].
  unfold len at 1 2. rewrite length_map, Hlen, Z.eqb_refl. cbn [py_assert bind].
  rewrite !pad_nonneg by assumption. cbn [bind].
  eexists. split; [reflexivity|].
  cbn [num_box padded_gt_bboxs padded_gt_box_mask].
  rewrite list_mul_single. unfold len.
  split; [reflexivity|]. split; [|split; [|split]].
  - rewrite length_app, length_firstn, repeat_length. lia.
  - rewrite length_app, length_firstn, !repeat_length. lia.
  - rewrite firstn_repeat_min, repeat_length, Nat2Z.id.
    f_equal; f_equal; lia.
  - intros H. exact H.
Qed.

Lemma get_gt_annots_spec_witness :
  exists g,
    get_gt_annots example_dataset two_box_caption 0 = Ok g /\
    num_box g = 2 /\
    len (padded_gt_bboxs g) = 3 /\
    len (padded_gt_box_mask g) = 3.
Proof.
  destruct (get_gt_annots_spec example_dataset two_box_caption 0)
    as (g & H1 & H2 & H3 & H4 & _).
  - cbn. lia.
  - reflexivity.
  - repeat constructor.
  - exists g. auto.
Defined.

(** C5, as stated, fails: with room for one box and a record of two,
    the returned [num_box] is 2, above [max_gt_box = 1]. *)
Lemma get_gt_annots_num_box_unclipped :
  exists g,
    get_gt_annots one_box_dataset two_box_caption 0 = Ok g /\
    ~ (num_box g <= max_gt_box one_box_dataset) /\
    len (padded_gt_bboxs g) = 1.
Proof.
  eexists. split; [reflexivity|]. split; [cbn; lia | reflexivity].
Qed.

(** Box and frame-index counts that differ stop [get_gt_annots] on its
    assertion. *)
Lemma get_gt_annots_mismatch (self : AnetEntDataset) (caption_dct : Caption)
    (idx : Z) :
  Forall (fun r => length r = 4%nat) (bbox caption_dct) ->
  length (bbox caption_dct) <> length (frm_idx caption_dct) ->
  get_gt_annots self caption_dct idx = Raise AssertionError.
Proof.
  intros Hrows Hne. unfold get_gt_annots.
  rewrite (torch_tensor_rows_total _ _ Hrows). cbn [bind].
  unfold len at 1 2. rewrite length_map.
  destruct (Z.eqb_spec (Z.of_nat (length (bbox caption_dct)))
              (Z.of_nat (length (frm_idx caption_dct)))); [lia|].
  reflexivity.
Qed.

(** ** Frame mask *)

Lemma map2_tile {A B C : Type} (f : A -> B -> C) (g : list B) (p : list A) :
  map2 (map2 f) (map (fun x => repeat x (length g)) p) (repeat g (length p))
  = map (fun a => map (f a) g) p.
Proof.
  induction p as [|a p IH]; cbn; [reflexivity|].
  rewrite IH. f_equal.
  clear. induction g as [|b g IH]; cbn; [reflexivity | now rewrite IH].
Qed.

(** The tiled comparison is the outer comparison of the two vectors. *)
Lemma get_frm_mask_outer (p g : list Q) :
  get_frm_mask p g
  = map (fun a => map (fun b => negb (Qeq_bool a b)) g) p.
Proof. unfold get_frm_mask, np_tile_cols, np_tile_rows. apply map2_tile. Qed.

Lemma assign_rows_length (m : list (list Z)) (blk : list (list bool)) :
  length (assign_rows m blk) = length m.
Proof.
  revert blk. induction m as [|row m IH]; intros [|b blk]; cbn; auto.
Qed.

Lemma assign_rows_nth (m : list (list Z)) (blk : list (list bool)) (i : nat) :
  nth_error (assign_rows m blk) i
  = match nth_error m i, nth_error blk i with
    | Some row, Some b => Some (map Z.b2z b ++ skipn (length b) row)
    | Some row, None => Some row
    | None, _ => None
    end.
Proof.
  revert blk i. induction m as [|row m IH]; intros [|b blk] [|i]; cbn; auto.
  destruct (nth_error m i); reflexivity.
Qed.

Lemma in_repeat_eq {A : Type} (a x : A) (n j : nat) :
  nth_error (repeat a n) j = Some x -> x = a.
Proof. intros H. apply nth_error_In in H. eapply repeat_spec; eassumption. Qed.

(** After [ones[:r, :c] = blk] the matrix keeps its shape, and every
    entry at a row [>= r] or a column [>= c] is still 1. *)
Lemma assign_block_outside (R C : nat) (r c : Z) (blk : list (list bool))
    (m' : list (list Z)) :
  0 <= r -> 0 <= c ->
  assign_block (repeat (repeat 1 C) R) r c blk = Ok m' ->
  length m' = R /\
  forall (i : nat) (row : list Z),
    nth_error m' i = Some row ->
    length row = C /\
    forall (j : nat) (x : Z),
      nth_error row j = Some x ->
      r <= Z.of_nat i \/ c <= Z.of_nat j -> x = 1.
Proof.
  intros Hr Hc. unfold assign_block.
  rewrite repeat_length, !slice_bound_nonneg by assumption.
  destruct (Nat.eqb (length blk) (Nat.min (Z.to_nat r) R)) eqn:E1;
    [|discriminate].
  destruct (forallb _ blk) eqn:E2; [|discriminate].
  cbn [andb]. intros [= <-].
  apply Nat.eqb_eq in E1. rewrite forallb_forall in E2.
  split; [now rewrite assign_rows_length, repeat_length|].
  intros i row Hrow. rewrite assign_rows_nth in Hrow.
  destruct (nth_error (repeat (repeat 1 C) R) i) as [row0|] eqn:H0;
    [|discriminate].
  assert (HiR : (i < R)%nat).
  { rewrite <- (repeat_length (repeat 1 C) R).
    apply nth_error_Some. congruence. }
  apply in_repeat_eq in H0. subst row0.
  destruct (nth_error blk i) as [b|] eqn:Hb.
  - assert (Hin : In b blk) by (eapply nth_error_In; eassumption).
    specialize (E2 b Hin). apply Nat.eqb_eq in E2.
    assert (Hw : width (repeat (repeat 1 C) R) = C).
    { destruct R; [lia|]. cbn. apply repeat_length. }
    rewrite Hw in E2.
    assert (Hib : (i < length blk)%nat)
      by (apply nth_error_Some; congruence).
    inversion Hrow; subst row; clear Hrow.
    rewrite skipn_repeat_sub. split.
    + rewrite length_app, length_map, repeat_length. lia.
    + intros j x Hx Hout.
      destruct (Nat.ltb_spec j (length b)) as [Hj | Hj].
      * lia.
      * rewrite nth_error_app2 in Hx by (rewrite length_map; lia).
        eapply in_repeat_eq; eassumption.
  - inversion Hrow; subst row; clear Hrow. split.
    + apply repeat_length.
    + intros j x Hx _. eapply in_repeat_eq; eassumption.
Qed.

Lemma np_ones_inv (r c : Z) (m : list (list Z)) :
  np_ones r c = Ok m ->
  0 <= r /\ 0 <= c /\ m = repeat (repeat 1 (Z.to_nat c)) (Z.to_nat r).
Proof.
  unfold np_ones.
  destruct (r <? 0) eqn:E1; [discriminate|].
  destruct (c <? 0) eqn:E2; [discriminate|].
  cbn. intros [= <-].
  apply Z.ltb_ge in E1. apply Z.ltb_ge in E2. auto.
Qed.

Lemma get_props_num_props (self : AnetEntDataset) (index : Z)
    (p : list (list Q)) (m : list bool) (n : Z) :
  get_props self index = Ok (p, m, n) ->
  exists k, 0 <= k /\ n = Z.min k (max_proposals self).
Proof.
  unfold get_props. intros H.
  repeat inv_bind H.
  inversion H; subst.
  eexists. split; [|reflexivity]. apply len_nonneg.
Qed.

Lemma get_gt_annots_num_box (self : AnetEntDataset) (caption_dct : Caption)
    (idx : Z) (g : GtAnnots) :
  get_gt_annots self caption_dct idx = Ok g -> 0 <= num_box g.
Proof.
  unfold get_gt_annots. intros H.
  repeat inv_bind H.
  inversion H; subst. cbn. apply len_nonneg.
Qed.

Lemma np_col_prefix_total (rows : list (list Q)) (w c : nat) (hi : Z) :
  rows <> [] -> Forall (fun r => length r = w) rows -> (c < w)%nat -> 0 <= hi ->
  np_col_prefix rows hi (Z.of_nat c)
  = Ok (map (fun r => nth c r 0%Q) (firstn (Z.to_nat hi) rows)).
Proof.
  intros Hne Hrows Hc Hhi. unfold np_col_prefix.
  destruct rows as [|r0 rows]; [congruence|].
  rewrite (row_column r0 c)
    by (inversion Hrows; subst; lia).
  cbn [bind]. rewrite py_prefix_nonneg by assumption.
  apply mapM_total. apply Forall_prefix.
  eapply Forall_impl; [|exact Hrows].
  cbn. intros r Hr. apply row_column. lia.
Qed.

Lemma map2_app_rows (b : list (list Q)) (f : list Q) :
  length b = length f -> Forall (fun r => length r = 4%nat) b ->
  Forall (fun r => length r = 5%nat) (map2 (@app Q) b (map (fun x => [x]) f)).
Proof.
  intros Hlen Hb. revert f Hlen.
  induction Hb as [|r b Hr _ IH]; intros [|x f] Hlen; cbn; try constructor.
  - rewrite length_app, Hr. reflexivity.
  - apply IH. cbn in Hlen. lia.
Qed.

(** On a consistent store with room for at least one proposal and one
    box, the embedded steps of [simple_item_getter] raise nothing: the
    frame mask always has the shape of the block it is assigned to.
    (The feature reads, which the embedding leaves out, can still make
    the source raise.) *)
Lemma simple_item_getter_total (self : AnetEntDataset) (idx nd : Z)
    (row : AnnotRow) (dets : list (list Q))
    (segments : list (string * Caption)) (caption_dct : Caption) :
  py_index (annots self) idx = Ok row ->
  py_index (num_proposals self) (Index row) = Ok nd ->
  py_index (label_proposals self) (Index row) = Ok dets ->
  0 <= nd ->
  Forall (fun r => length r = 7%nat) dets ->
  dict_get (anet_ent_captions self) (vid_id row) = Ok segments ->
  dict_get segments (seg_id row) = Ok caption_dct ->
  length (bbox caption_dct) = length (frm_idx caption_dct) ->
  Forall (fun r => length r = 4%nat) (bbox caption_dct) ->
  0 < max_proposals self ->
  0 < max_gt_box self ->
  exists item, simple_item_getter self idx = Ok item.
Proof.
  intros Hrow Hn Hl Hnd Hdets Hsegs Hcap Hlen Hbox Hmp Hmg.
  unfold simple_item_getter. rewrite Hrow. cbn [bind].
  rewrite (get_props_eq self (Index row) nd dets Hn Hl Hnd Hdets)
    by lia.
  cbn [bind]. rewrite Hsegs. cbn [bind]. rewrite Hcap. cbn [bind].
  unfold get_gt_annots.
  rewrite (torch_tensor_rows_total _ _ Hbox). cbn [bind].
  unfold len at 1 2. rewrite length_map, Hlen, Z.eqb_refl.
  cbn [py_assert bind].
  rewrite !pad_nonneg by lia. cbn [bind padded_gt_bboxs num_box].
  set (sel := firstn (Z.to_nat nd) dets).
  set (k := Z.to_nat (max_proposals self)).
  set (kg := Z.to_nat (max_gt_box self)).
  set (boxes := map2 (@app Q) (bbox caption_dct)
                 (map (fun f => [f]) (frm_idx caption_dct))).
  set (P := firstn k sel ++ repeat (repeat 0%Q 7) (k - length sel)).
  set (G := firstn kg boxes ++ repeat (repeat 0%Q 5) (kg - length boxes)).
  assert (HP : Forall (fun r => length r = 7%nat) P).
  { apply Forall_app. split.
    - apply Forall_prefix, Forall_prefix. exact Hdets.
    - apply Forall_repeat. reflexivity. }
  assert (HG : Forall (fun r => length r = 5%nat) G).
  { apply Forall_app. split.
    - apply Forall_prefix. now apply map2_app_rows.
    - apply Forall_repeat. reflexivity. }
  assert (LP : length P = k).
  { unfold P. rewrite length_app, length_firstn, repeat_length. lia. }
  assert (LG : length G = kg).
  { unfold G. rewrite length_app, length_firstn, repeat_length. lia. }
  assert (Hnp : 0 <= Z.min (len sel) (max_proposals self))
    by (pose proof (len_nonneg sel); lia).
  pose proof (np_col_prefix_total P 7 4 _
                ltac:(intros ->; cbn in LP; lia) HP ltac:(lia) Hnp) as CP.
  pose proof (np_col_prefix_total G 5 4 (len (bbox caption_dct))
                ltac:(intros ->; cbn in LG; lia) HG ltac:(lia)
                (len_nonneg _)) as CG.
  change (Z.of_nat 4) with 4 in CP, CG.
  rewrite CP. cbn [bind]. rewrite CG. cbn [bind].
  unfold np_ones.
  destruct (Z.ltb_spec (max_proposals self) 0); [lia|].
  destruct (Z.ltb_spec (max_gt_box self) 0); [lia|].
  cbn [orb bind]. fold k kg.
  unfold assign_block. rewrite get_frm_mask_outer, repeat_length.
  assert (Hw : width (repeat (repeat 1 kg) k) = kg).
  { assert (Hk : (0 < k)%nat) by (unfold k; lia).
    revert Hk. generalize k. intros [|k'] Hk; [lia|].
    cbn. apply repeat_length. }
  rewrite Hw, !slice_bound_nonneg by (assumption || apply len_nonneg).
  rewrite !length_map, length_firstn, LP, Nat.eqb_refl.
  cbn [andb].
  match goal with
  | |- context [forallb ?f ?l] =>
      assert (F : forallb f l = true)
  end.
  { apply forallb_forall. intros b Hb. apply in_map_iff in Hb.
    destruct Hb as (x & <- & _).
    rewrite !length_map, length_firstn, LG. apply Nat.eqb_refl. }
  rewrite F. cbn [bind]. eauto.
Qed.

(** C3.  [get_frm_mask(p, g)[i, j]] is [p[i] != g[j]] for every valid
    [(i, j)]; and the padded frame mask of an assembled example has
    [max_proposals] rows of [max_gt_box] entries, with every entry at a
    row [>= num_props] or a column [>= num_box] equal to 1. *)
Theorem frm_mask_spec :
  (forall (p g : list Q) (i j : nat) (pi gj : Q),
      nth_error p i = Some pi ->
      nth_error g j = Some gj ->
      exists row b,
        nth_error (get_frm_mask p g) i = Some row /\
        nth_error row j = Some b /\
        b = negb (Qeq_bool pi gj) /\
        (b = true <-> ~ (pi == gj)%Q)) /\
  (forall (self : AnetEntDataset) (idx : Z) (item : Item),
      simple_item_getter self idx = Ok item ->
      len (pad_frm_mask item) = max_proposals self /\
      forall (i : nat) (row : list Z),
        nth_error (pad_frm_mask item) i = Some row ->
        len row = max_gt_box self /\
        forall (j : nat) (x : Z),
          nth_error row j = Some x ->
          item_num_props item <= Z.of_nat i \/
          item_num_box item <= Z.of_nat j ->
          x = 1).
Proof.
  split.
  - intros p g i j pi gj Hp Hg.
    rewrite get_frm_mask_outer.
    exists (map (fun b => negb (Qeq_bool pi b)) g), (negb (Qeq_bool pi gj)).
    split; [now rewrite nth_error_map, Hp|].
    split; [now rewrite nth_error_map, Hg|].
    split; [reflexivity|].
    rewrite negb_true_iff. split.
    + intros E Heq. apply Qeq_bool_iff in Heq. congruence.
    + intros Hne. destruct (Qeq_bool pi gj) eqn:E; [|reflexivity].
      apply Qeq_bool_iff in E. contradiction.
  - intros self idx item H. unfold simple_item_getter in H.
    inv_bind H. inv_bind H. destruct a0 as [[padded_props mask] num_props].
    repeat inv_bind H.
    inversion H; subst item; clear H.
    cbn [pad_frm_mask item_num_props item_num_box].
    match goal with
    | E : np_ones _ _ = Ok _ |- _ =>
        apply np_ones_inv in E; destruct E as (Hmp & Hmg & ->)
    end.
    match goal with
    | E : get_props _ _ = Ok _ |- _ =>
        apply get_props_num_props in E; destruct E as (k & Hk & ->)
    end.
    match goal with
    | E : get_gt_annots _ _ _ = Ok _ |- _ =>
        apply get_gt_annots_num_box in E
    end.
    match goal with
    | E : assign_block _ _ _ _ = Ok _ |- _ =>
        apply assign_block_outside in E; [|lia|lia];
        destruct E as (Hrows & Hent)
    end.
    unfold len. split; [lia|].
    intros i row Hrow. destruct (Hent i row Hrow) as (Hlen & Hone).
    split; [lia|]. exact Hone.
Qed.

Lemma frm_mask_spec_witness :
  (exists row b,
      nth_error (get_frm_mask [0; 1]%Q [1]%Q) 1 = Some row /\
      nth_error row 0 = Some b /\ b = false) /\
  (exists item,
      simple_item_getter example_dataset 0 = Ok item /\
      len (pad_frm_mask item) = 4 /\
      forall (i : nat) (row : list Z),
        nth_error (pad_frm_mask item) i = Some row ->
        len row = 3 /\
        forall (j : nat) (x : Z),
          nth_error row j = Some x ->
          2 <= Z.of_nat i \/ 1 <= Z.of_nat j -> x = 1).
Proof.
  destruct frm_mask_spec as [Hmask Hpad]. split.
  - destruct (Hmask [0; 1]%Q [1]%Q 1%nat 0%nat 1%Q 1%Q eq_refl eq_refl)
      as (row & b & H1 & H2 & H3 & _).
    exists row, b. auto.
  - eexists. split; [reflexivity|].
    apply (Hpad example_dataset 0). reflexivity.
Defined.

(** ** Segment features *)

Lemma Qle_bool_false_of_lt (a b : Q) : (b < a)%Q -> Qle_bool a b = false.
Proof.
  intros H. destruct (Qle_bool a b) eqn:E; [|reflexivity].
  apply Qle_bool_iff in E. exfalso. eapply Qlt_not_le; eassumption.
Qed.

Lemma Qle_bool_true_of_lt (a b : Q) : (b < a)%Q -> Qle_bool b a = true.
Proof. intros H. apply Qle_bool_iff. now apply Qlt_le_weak. Qed.

(** C6.  For every feature array, duration and timestamps [(a, b)] with
    [a > b], [get_seg_feat_for_frms] on the inverted pair [(a, b)] gives
    the outcome (per-bin features and global feature, or the same
    exception) it gives on the ordered pair [(b, a)]; in particular
    [(5.0, 3.0)] behaves as [(3.0, 5.0)]. *)
Theorem get_seg_feat_for_frms_inverted :
  forall (self : AnetEntDataset) (seg_feats : list (list Q))
         (duration a b : Q),
    (b < a)%Q ->
    get_seg_feat_for_frms self seg_feats (a, b) duration
    = get_seg_feat_for_frms self seg_feats (b, a) duration.
Proof.
  intros self seg_feats duration a b Hlt.
  unfold get_seg_feat_for_frms. cbn [fst snd].
  rewrite (Qle_bool_false_of_lt a b Hlt), (Qle_bool_true_of_lt a b Hlt).
  cbn [negb fst snd]. reflexivity.
Qed.

Lemma get_seg_feat_for_frms_inverted_witness :
  (3 < 5)%Q /\
  get_seg_feat_for_frms example_dataset example_seg_feats (5, 3)%Q 10%Q
  = get_seg_feat_for_frms example_dataset example_seg_feats (3, 5)%Q 10%Q /\
  exists frms glob,
    get_seg_feat_for_frms example_dataset example_seg_feats (3, 5)%Q 10%Q
    = Ok (frms, Feat glob) /\ length frms = 10%nat.
Proof.
  split; [reflexivity|]. split.
  - apply (get_seg_feat_for_frms_inverted example_dataset example_seg_feats
             10%Q 5%Q 3%Q).
    reflexivity.
  - eexists. eexists. split; vm_compute; reflexivity.
Defined.

(** ** SPAT and TEMP box shifts *)

(** *** Float32 arithmetic *)

Lemma digits_bounds (m : positive) :
  2 ^ (Zpos (digits2_pos m) - 1) <= Zpos m < 2 ^ Zpos (digits2_pos m).
Proof.
  induction m as [m IH|m IH|]; cbn [digits2_pos].
  - rewrite Pos2Z.inj_succ.
    replace (Z.succ (Zpos (digits2_pos m)) - 1)
      with (Z.succ (Zpos (digits2_pos m) - 1)) by lia.
    rewrite !Z.pow_succ_r by lia. lia.
  - rewrite Pos2Z.inj_succ.
    replace (Z.succ (Zpos (digits2_pos m)) - 1)
      with (Z.succ (Zpos (digits2_pos m) - 1)) by lia.
    rewrite !Z.pow_succ_r by lia. lia.
  - cbn. lia.
Qed.

Lemma digits_unique (m : positive) (k : Z) :
  2 ^ (k - 1) <= Zpos m < 2 ^ k -> Zpos (digits2_pos m) = k.
Proof.
  intros [Hlo Hhi]. pose proof (digits_bounds m) as [Dlo Dhi].
  set (d := Zpos (digits2_pos m)) in *.
  assert (0 < k).
  { destruct (Z.le_gt_cases k 0) as [Hk|]; [|assumption].
    destruct (Z.eq_dec k 0) as [->|]; [cbn in Hhi; lia|].
    rewrite Z.pow_neg_r in Hhi by lia. lia. }
  destruct (Z.lt_trichotomy d k) as [Hlt | [Heq | Hgt]]; [|assumption|].
  - assert (2 ^ d <= 2 ^ (k - 1)) by (apply Z.pow_le_mono_r; lia). lia.
  - assert (2 ^ k <= 2 ^ (d - 1)) by (apply Z.pow_le_mono_r; lia). lia.
Qed.

Lemma digits_shift (m m' : positive) (k : Z) :
  0 <= k -> Zpos m' = Zpos m * 2 ^ k ->
  Zpos (digits2_pos m') = Zpos (digits2_pos m) + k.
Proof.
  intros Hk H. apply digits_unique. rewrite H.
  pose proof (digits_bounds m) as [Dlo Dhi].
  replace (Zpos (digits2_pos m) + k - 1)
    with (Zpos (digits2_pos m) - 1 + k) by lia.
  rewrite !Z.pow_add_r by lia.
  assert (0 < 2 ^ k) by (apply Z.pow_pos_nonneg; lia).
  split; nia.
Qed.

Lemma iter_xO_pow (m p : positive) :
  Zpos (Pos.iter xO m p) = Zpos m * 2 ^ Zpos p.
Proof.
  rewrite (Pos.iter_swap_gen _ _ Zpos xO (Z.mul 2)) by reflexivity.
  change (Pos.iter (Z.mul 2) (Zpos m) p) with (Z.shiftl (Zpos m) (Zpos p)).
  apply Z.shiftl_mul_pow2. lia.
Qed.

Lemma shl_align_down (m : positive) (e ez : Z) :
  ez <= e ->
  Zpos (fst (shl_align m e ez)) = Zpos m * 2 ^ (e - ez) /\
  snd (shl_align m e ez) = ez.
Proof.
  intros H. unfold shl_align.
  destruct (ez - e) as [|d|d] eqn:E; try lia.
  - cbn [fst snd]. replace (e - ez) with 0 by lia. split; lia.
  - cbn [fst snd]. rewrite iter_xO_pow.
    replace (e - ez) with (Zpos d) by lia. auto.
Qed.

Lemma shl_align_up (m : positive) (e ez : Z) :
  e <= ez -> shl_align m e ez = (m, e).
Proof.
  intros H. unfold shl_align. destruct (ez - e) eqn:E; try reflexivity. lia.
Qed.

Lemma shr_exact (p m : positive) :
  iter_pos shr_1 p
    {| shr_m := Zpos (Pos.iter xO m p); shr_r := false; shr_s := false |}
  = {| shr_m := Zpos m; shr_r := false; shr_s := false |}.
Proof.
  revert m. induction p as [p IH|p IH|]; intros m; cbn [iter_pos Pos.iter].
  - cbn [shr_1 orb]. now rewrite !IH.
  - now rewrite !IH.
  - reflexivity.
Qed.

Lemma bounded_inv (m : positive) (e : Z) :
  bounded 24 128 m e = true ->
  fexp 24 128 (Zpos (digits2_pos m) + e) = e /\ e <= 104 /\ -149 <= e.
Proof.
  unfold bounded, canonical_mantissa. intros H.
  apply andb_prop in H. destruct H as [H1 H2].
  apply Z.eqb_eq in H1. apply Z.leb_le in H2.
  split; [assumption|]. split; [exact H2|].
  unfold fexp, emin in H1. lia.
Qed.

Lemma shr_fexp_exact (m mx : positive) (e ex : Z) :
  bounded 24 128 mx ex = true ->
  e <= ex -> Zpos m = Zpos mx * 2 ^ (ex - e) ->
  shr_fexp 24 128 (Zpos m) e loc_Exact
  = ({| shr_m := Zpos mx; shr_r := false; shr_s := false |}, ex).
Proof.
  intros Hb He Hm. destruct (bounded_inv mx ex Hb) as (Hf & _ & _).
  unfold shr_fexp. cbn [Zdigits2 shr_record_of_loc].
  rewrite (digits_shift mx m (ex - e)) by (lia || assumption).
  replace (Zpos (digits2_pos mx) + (ex - e) + e)
    with (Zpos (digits2_pos mx) + ex) by lia.
  rewrite Hf. unfold shr.
  destruct (ex - e) as [|p|p] eqn:E; try lia.
  - rewrite Z.pow_0_r, Z.mul_1_r in Hm. inversion Hm; subst.
    f_equal. lia.
  - rewrite <- iter_xO_pow in Hm. inversion Hm; subst.
    rewrite shr_exact. f_equal. lia.
Qed.

Lemma round_aux_exact (s : bool) (m mx : positive) (e ex : Z) :
  bounded 24 128 mx ex = true ->
  e <= ex -> Zpos m = Zpos mx * 2 ^ (ex - e) ->
  binary_round_aux 24 128 s (Zpos m) e loc_Exact = S754_finite s mx ex.
Proof.
  intros Hb He Hm. unfold binary_round_aux.
  rewrite (shr_fexp_exact m mx e ex Hb He Hm).
  cbn [shr_m loc_of_shr_record round_nearest_even].
  rewrite (shr_fexp_exact mx mx ex ex Hb (Z.le_refl ex))
    by (rewrite Z.sub_diag; lia).
  cbn [shr_m].
  destruct (bounded_inv mx ex Hb) as (_ & Hle & _).
  destruct (Z.leb_spec ex (128 - 24)); [reflexivity|lia].
Qed.

Lemma round_exact (s : bool) (m mx : positive) (e ex : Z) :
  bounded 24 128 mx ex = true ->
  (e <= ex /\ Zpos m = Zpos mx * 2 ^ (ex - e)) \/
  (ex <= e /\ Zpos mx = Zpos m * 2 ^ (e - ex)) ->
  binary_round 24 128 s m e = S754_finite s mx ex.
Proof.
  intros Hb H. destruct (bounded_inv mx ex Hb) as (Hf & _ & _).
  unfold binary_round. destruct H as [[He Hm] | [He Hm]].
  - rewrite (digits_shift mx m (ex - e)) by (lia || assumption).
    replace (Zpos (digits2_pos mx) + (ex - e) + e)
      with (Zpos (digits2_pos mx) + ex) by lia.
    rewrite Hf, shl_align_up by assumption.
    now apply round_aux_exact.
  - rewrite (digits_shift m mx (e - ex)) in Hf by (lia || assumption).
    replace (Zpos (digits2_pos m) + (e - ex) + ex)
      with (Zpos (digits2_pos m) + e) in Hf by lia.
    rewrite Hf.
    destruct (shl_align_down m e ex He) as [Hv Hx].
    destruct (shl_align m e ex) as [mz ez]. cbn [fst snd] in Hv, Hx.
    subst ez. apply round_aux_exact; [assumption|lia|].
    rewrite Z.sub_diag, Z.pow_0_r, Z.mul_1_r. lia.
Qed.

Lemma pow2_cancel (a b p q : Z) :
  0 <= p -> p <= q -> a * 2 ^ p = b * 2 ^ q -> a = b * 2 ^ (q - p).
Proof.
  intros Hp Hq H.
  replace q with (q - p + p) in H by lia.
  rewrite Z.pow_add_r in H by lia.
  assert (0 < 2 ^ p) by (apply Z.pow_pos_nonneg; lia).
  nia.
Qed.

Lemma canonical_unique (m1 m2 : positive) (e1 e2 : Z) :
  bounded 24 128 m1 e1 = true -> bounded 24 128 m2 e2 = true ->
  Zpos m1 * 2 ^ (e1 + 149) = Zpos m2 * 2 ^ (e2 + 149) ->
  m1 = m2 /\ e1 = e2.
Proof.
  intros H1 H2 H.
  destruct (bounded_inv m1 e1 H1) as (F1 & _ & L1).
  destruct (bounded_inv m2 e2 H2) as (F2 & _ & L2).
  assert (G : forall ma mb ea eb,
            fexp 24 128 (Zpos (digits2_pos ma) + ea) = ea ->
            fexp 24 128 (Zpos (digits2_pos mb) + eb) = eb ->
            -149 <= ea -> ea <= eb ->
            Zpos ma * 2 ^ (ea + 149) = Zpos mb * 2 ^ (eb + 149) ->
            ma = mb /\ ea = eb).
  { intros ma mb ea eb Fa Fb La Le Hv.
    apply pow2_cancel in Hv; [|lia|lia].
    replace (eb + 149 - (ea + 149)) with (eb - ea) in Hv by lia.
    pose proof (digits_shift mb ma (eb - ea) ltac:(lia) Hv) as Hd.
    rewrite Hd in Fa.
    replace (Zpos (digits2_pos mb) + (eb - ea) + ea)
      with (Zpos (digits2_pos mb) + eb) in Fa by lia.
    assert (ea = eb) by congruence. subst eb.
    rewrite Z.sub_diag, Z.pow_0_r, Z.mul_1_r in Hv.
    inversion Hv. auto. }
  destruct (Z.le_gt_cases e1 e2).
  - now apply G.
  - destruct (G m2 m1 e2 e1) as [-> ->]; auto; lia.
Qed.

(** Rounding a number that a float32 holds gives that float32. *)
Lemma normalize_exact (M : Z) (e : Z) (sx : bool) (mx : positive) (ex : Z) :
  bounded 24 128 mx ex = true ->
  -149 <= e ->
  M * 2 ^ (e + 149) = cond_Zopp sx (Zpos mx) * 2 ^ (ex + 149) ->
  binary_normalize 24 128 M e false = S754_finite sx mx ex.
Proof.
  intros Hb He H. destruct (bounded_inv mx ex Hb) as (_ & _ & Lx).
  assert (P1 : 0 < 2 ^ (e + 149)) by (apply Z.pow_pos_nonneg; lia).
  assert (P2 : 0 < 2 ^ (ex + 149)) by (apply Z.pow_pos_nonneg; lia).
  assert (Hrel : forall m : positive,
            Zpos m * 2 ^ (e + 149) = Zpos mx * 2 ^ (ex + 149) ->
            (e <= ex /\ Zpos m = Zpos mx * 2 ^ (ex - e)) \/
            (ex <= e /\ Zpos mx = Zpos m * 2 ^ (e - ex))).
  { intros m Hm. destruct (Z.le_gt_cases e ex).
    - left. split; [assumption|].
      apply pow2_cancel in Hm; [|lia|lia].
      now replace (ex + 149 - (e + 149)) with (ex - e) in Hm by lia.
    - right. split; [lia|]. symmetry in Hm.
      apply pow2_cancel in Hm; [|lia|lia].
      now replace (e + 149 - (ex + 149)) with (e - ex) in Hm by lia. }
  destruct M as [|m|m]; destruct sx; cbn [cond_Zopp binary_normalize] in *;
    try nia.
  - apply round_exact; [assumption|]. apply Hrel. exact H.
  - apply round_exact; [assumption|]. apply Hrel. lia.
Qed.

Lemma shr_fexp_exp (m e : Z) (l : location) :
  e <= snd (shr_fexp 24 128 m e l).
Proof.
  unfold shr_fexp, shr.
  destruct (fexp 24 128 (Zdigits2 m + e) - e); cbn [snd]; lia.
Qed.

Lemma round_aux_exp (s s' : bool) (m e e' : Z) (m' : positive)
    (l : location) :
  binary_round_aux 24 128 s m e l = S754_finite s' m' e' -> e <= e'.
Proof.
  unfold binary_round_aux.
  pose proof (shr_fexp_exp m e l) as H1.
  destruct (shr_fexp 24 128 m e l) as [mrs1 e1]. cbn [snd] in H1.
  pose proof (shr_fexp_exp
                (round_nearest_even (shr_m mrs1) (loc_of_shr_record mrs1))
                e1 loc_Exact) as H2.
  destruct (shr_fexp 24 128 _ e1 loc_Exact) as [mrs2 e2]. cbn [snd] in H2.
  destruct (shr_m mrs2); try discriminate.
  destruct (e2 <=? 128 - 24); [|discriminate].
  intros [= _ _ <-]. lia.
Qed.

Lemma normalize_exp (M e e' : Z) (sz s' : bool) (m' : positive) :
  binary_normalize 24 128 M e sz = S754_finite s' m' e' ->
  -149 <= e -> -149 <= e'.
Proof.
  intros H He.
  assert (G : forall s m, binary_round 24 128 s m e = S754_finite s' m' e' ->
                          -149 <= e').
  { intros s m. unfold binary_round.
    set (t := fexp 24 128 (Zpos (digits2_pos m) + e)).
    assert (Ht : -149 <= t) by (unfold t, fexp, emin; lia).
    assert (Hs : -149 <= snd (shl_align m e t)).
    { unfold shl_align. destruct (t - e) eqn:E; cbn [snd]; lia. }
    destruct (shl_align m e t) as [mz ez]. cbn [snd] in Hs.
    intros Hr. apply round_aux_exp in Hr. lia. }
  destruct M; cbn [binary_normalize] in H; [discriminate| |]; eauto.
Qed.

Lemma align_units (s : bool) (m : positive) (e ez : Z) :
  -149 <= ez -> ez <= e ->
  cond_Zopp s (Zpos (fst (shl_align m e ez))) * 2 ^ (ez + 149)
  = cond_Zopp s (Zpos m) * 2 ^ (e + 149).
Proof.
  intros Hz He. destruct (shl_align_down m e ez He) as [Hv _].
  rewrite Hv.
  replace (e + 149) with (e - ez + (ez + 149)) by lia.
  rewrite (Z.pow_add_r 2 (e - ez) (ez + 149)) by lia.
  destruct s; cbn [cond_Zopp]; ring.
Qed.

(** Subtracting the offset after an addition that did not round gives
    back the number the offset was added to. *)
Lemma f32_sub_add_exact (x d : f32) :
  f32_valid x = true -> f32_valid d = true ->
  f32_finite x = true -> f32_finite d = true ->
  f32_finite (f32_add x d) = true ->
  f32_units (f32_add x d) = f32_units x + f32_units d ->
  f32_same (f32_sub (f32_add x d) d) x.
Proof.
  intros Vx Vd Fx Fd Fy Hy.
  destruct x as [sx|sx| |sx mx ex]; try discriminate Fx;
    destruct d as [sd|sd| |sd md ed]; try discriminate Fd.
  - right. destruct sx, sd; cbn; eauto.
  - right. unfold f32_add, f32_sub. cbn [SFadd SFsub].
    rewrite Z.sub_diag. cbn [binary_normalize]. eauto.
  - left. reflexivity.
  - left. cbn [f32_valid valid_binary] in Vx, Vd.
    destruct (bounded_inv mx ex Vx) as (_ & _ & Lx).
    destruct (bounded_inv md ed Vd) as (_ & _ & Ld).
    unfold f32_add in *. cbn [SFadd] in *.
    set (ez := Z.min ex ed) in *.
    set (A := cond_Zopp sx (Zpos (fst (shl_align mx ex ez)))) in *.
    set (B := cond_Zopp sd (Zpos (fst (shl_align md ed ez)))) in *.
    destruct (binary_normalize 24 128 (A + B) ez false)
      as [sy|sy| |sy my ey] eqn:Ey; try discriminate Fy.
    + (* the sum is zero: the number is the opposite of the offset *)
      unfold f32_sub. cbn [SFsub]. cbn [f32_units] in Hy.
      assert (P1 : 0 < 2 ^ (ex + 149)) by (apply Z.pow_pos_nonneg; lia).
      assert (P2 : 0 < 2 ^ (ed + 149)) by (apply Z.pow_pos_nonneg; lia).
      assert (Hs : sx = negb sd).
      { destruct sx, sd; cbn [cond_Zopp negb] in *; try reflexivity; nia. }
      assert (Hv : Zpos mx * 2 ^ (ex + 149) = Zpos md * 2 ^ (ed + 149)).
      { destruct sx, sd; cbn [cond_Zopp negb] in *; try discriminate; nia. }
      destruct (canonical_unique mx md ex ed Vx Vd Hv) as [-> ->].
      now rewrite Hs.
    + (* the sum is a number: the difference is computed exactly *)
      pose proof (normalize_exp _ _ _ _ _ _ Ey ltac:(unfold ez; lia)) as Ly.
      unfold f32_sub. cbn [SFsub].
      apply normalize_exact; [assumption | lia |].
      rewrite Z.mul_sub_distr_r.
      rewrite !align_units by lia.
      cbn [f32_units] in Hy. lia.
Qed.

(** An integer of at most 24 bits is a float32 number. *)
Lemma small_canonical (m : positive) :
  Zpos m < 2 ^ 24 ->
  exists (mx : positive) (ex : Z),
    bounded 24 128 mx ex = true /\ ex <= 0 /\
    Zpos mx = Zpos m * 2 ^ (0 - ex).
Proof.
  intros Hm. pose proof (digits_bounds m) as [Dlo Dhi].
  set (d := Zpos (digits2_pos m)) in *.
  assert (Hd : 1 <= d <= 24).
  { split; [unfold d; lia|].
    destruct (Z.le_gt_cases d 24) as [|Hgt]; [assumption|].
    assert (2 ^ 24 <= 2 ^ (d - 1)) by (apply Z.pow_le_mono_r; lia). lia. }
  assert (P : 0 < 2 ^ (24 - d)) by (apply Z.pow_pos_nonneg; lia).
  exists (Z.to_pos (Zpos m * 2 ^ (24 - d))), (d - 24).
  assert (Hv : Zpos (Z.to_pos (Zpos m * 2 ^ (24 - d)))
               = Zpos m * 2 ^ (24 - d)) by (rewrite Z2Pos.id; lia).
  split; [|split; [lia|]].
  - unfold bounded, canonical_mantissa.
    rewrite (digits_shift m _ (24 - d) ltac:(lia) Hv). fold d.
    apply andb_true_intro. split.
    + apply Z.eqb_eq. unfold fexp, emin. lia.
    + apply Z.leb_le. lia.
  - rewrite Hv. f_equal. f_equal. lia.
Qed.

Lemma small_units (m mx : positive) (ex : Z) :
  -149 <= ex -> ex <= 0 -> Zpos mx = Zpos m * 2 ^ (0 - ex) ->
  Zpos mx * 2 ^ (ex + 149) = Zpos m * 2 ^ 149.
Proof.
  intros L He Hv. rewrite Hv, <- Z.mul_assoc, <- Z.pow_add_r by lia.
  f_equal. f_equal. lia.
Qed.

Lemma f32_of_Z_small (z : Z) :
  Z.abs z < 2 ^ 24 ->
  f32_valid (f32_of_Z z) = true /\
  f32_finite (f32_of_Z z) = true /\
  f32_units (f32_of_Z z) = z * 2 ^ 149.
Proof.
  intros Hz. unfold f32_of_Z.
  destruct z as [|m|m]; [cbn; auto| |].
  - destruct (small_canonical m ltac:(lia)) as (mx & ex & Hb & He & Hv).
    cbn [binary_normalize].
    rewrite (round_exact false m mx 0 ex Hb) by (right; auto).
    cbn [f32_valid valid_binary f32_finite f32_units cond_Zopp].
    split; [assumption|]. split; [reflexivity|].
    destruct (bounded_inv mx ex Hb) as (_ & _ & L).
    rewrite (small_units m mx ex) by assumption. reflexivity.
  - destruct (small_canonical m ltac:(lia)) as (mx & ex & Hb & He & Hv).
    cbn [binary_normalize].
    rewrite (round_exact true m mx 0 ex Hb) by (right; auto).
    cbn [f32_valid valid_binary f32_finite f32_units cond_Zopp].
    split; [assumption|]. split; [reflexivity|].
    destruct (bounded_inv mx ex Hb) as (_ & _ & L).
    rewrite Z.mul_opp_l, (small_units m mx ex) by assumption.
    change (Z.neg m) with (- Z.pos m). ring.
Qed.

Lemma shr_1_div2 (r : shr_record) :
  0 <= shr_m r -> shr_m (shr_1 r) = shr_m r / 2.
Proof.
  destruct r as [m r s]. cbn [shr_m]. intros H.
  rewrite <- Z.div2_div.
  destruct m as [|[p|p|]|p]; try reflexivity. lia.
Qed.

Lemma shr_iter_div (p : positive) :
  forall r : shr_record,
    0 <= shr_m r ->
    shr_m (iter_pos shr_1 p r) = shr_m r / 2 ^ Zpos p.
Proof.
  induction p as [p IH|p IH|]; intros r Hr; cbn [iter_pos].
  - assert (H1 : 0 <= shr_m (shr_1 r))
      by (rewrite shr_1_div2 by assumption; apply Z.div_pos; lia).
    assert (H2 : 0 <= shr_m (iter_pos shr_1 p (shr_1 r)))
      by (rewrite IH by assumption; apply Z.div_pos; [|apply Z.pow_pos_nonneg]; lia).
    rewrite IH, IH, shr_1_div2 by assumption.
    assert (P : 0 < 2 ^ Zpos p) by (apply Z.pow_pos_nonneg; lia).
    rewrite !Z.div_div by lia.
    f_equal.
    replace (Zpos p~1) with (1 + Zpos p + Zpos p) by lia.
    rewrite !Z.pow_add_r by lia. lia.
  - assert (H2 : 0 <= shr_m (iter_pos shr_1 p r))
      by (rewrite IH by assumption; apply Z.div_pos; [|apply Z.pow_pos_nonneg]; lia).
    rewrite IH, IH by assumption.
    assert (P : 0 < 2 ^ Zpos p) by (apply Z.pow_pos_nonneg; lia).
    rewrite !Z.div_div by lia.
    f_equal.
    replace (Zpos p~0) with (Zpos p + Zpos p) by lia.
    rewrite !Z.pow_add_r by lia. lia.
  - now apply shr_1_div2.
Qed.

Lemma round_nearest_even_cases (m : Z) (l : location) :
  round_nearest_even m l = m \/ round_nearest_even m l = m + 1.
Proof.
  destruct l as [|[]]; cbn [round_nearest_even]; auto.
  destruct (Z.even m); auto.
Qed.

(** An integer of more than 24 and at most 100 bits is rounded to a
    float32 number. *)
Lemma round_large (s : bool) (m : positive) :
  24 < Zpos (digits2_pos m) <= 100 ->
  exists (m' : positive) (e' : Z),
    binary_round 24 128 s m 0 = S754_finite s m' e' /\
    bounded 24 128 m' e' = true.
Proof.
  intros Hd. pose proof (digits_bounds m) as [Dlo Dhi].
  set (d := Zpos (digits2_pos m)) in *.
  unfold binary_round. fold d. rewrite Z.add_0_r.
  assert (Hf : fexp 24 128 d = d - 24) by (unfold fexp, emin; lia).
  rewrite Hf, shl_align_up by lia.
  unfold binary_round_aux, shr_fexp at 1.
  cbn [Zdigits2 shr_record_of_loc]. fold d. rewrite Z.add_0_r, Hf, Z.sub_0_r.
  unfold shr at 1.
  destruct (d - 24) as [|p|p] eqn:Ep; try lia.
  set (r1 := iter_pos shr_1 p
               {| shr_m := Zpos m; shr_r := false; shr_s := false |}).
  assert (Hm1 : shr_m r1 = Zpos m / 2 ^ Zpos p)
    by (unfold r1; rewrite shr_iter_div; cbn [shr_m]; lia).
  assert (P : 0 < 2 ^ Zpos p) by (apply Z.pow_pos_nonneg; lia).
  assert (Hb1 : 2 ^ 23 <= shr_m r1 < 2 ^ 24).
  { rewrite Hm1. split.
    - apply Z.div_le_lower_bound; [lia|].
      rewrite <- Z.pow_add_r by lia.
      replace (Zpos p + 23) with (d - 1) by lia. exact Dlo.
    - apply Z.div_lt_upper_bound; [lia|].
      rewrite <- Z.pow_add_r by lia.
      replace (Zpos p + 24) with d by lia. exact Dhi. }
  cbn [fst snd].
  set (m2 := round_nearest_even (shr_m r1) (loc_of_shr_record r1)).
  assert (Hb2 : 2 ^ 23 <= m2 <= 2 ^ 24).
  { destruct (round_nearest_even_cases (shr_m r1) (loc_of_shr_record r1))
      as [H | H]; fold m2 in H; lia. }
  destruct m2 as [|q|q] eqn:Em2; try lia.
  unfold shr_fexp. cbn [Zdigits2 shr_record_of_loc].
  destruct (Z.eq_dec (Zpos q) (2 ^ 24)) as [Hq | Hq].
  - (* the rounding carried into a 25th bit *)
    assert (Hdq : Zpos (digits2_pos q) = 25)
      by (apply digits_unique; rewrite Hq; cbn; lia).
    rewrite Hdq.
    assert (Hf2 : fexp 24 128 (25 + (0 + Zpos p)) - (0 + Zpos p) = 1)
      by (unfold fexp, emin; lia).
    rewrite Hf2. unfold shr. cbn [iter_pos].
    assert (q = 16777216%positive) by (cbn in Hq; lia). subst q.
    cbn [shr_1 shr_m orb].
    destruct (Z.leb_spec (0 + Zpos p + 1) (128 - 24)); [|lia].
    eexists. eexists. split; [reflexivity|].
    unfold bounded, canonical_mantissa. apply andb_true_intro. split.
    + apply Z.eqb_eq. cbn [digits2_pos Pos.succ]. unfold fexp, emin. lia.
    + apply Z.leb_le. lia.
  - assert (Hdq : Zpos (digits2_pos q) = 24)
      by (apply digits_unique; cbn in *; lia).
    rewrite Hdq.
    assert (Hf2 : fexp 24 128 (24 + (0 + Zpos p)) - (0 + Zpos p) = 0)
      by (unfold fexp, emin; lia).
    rewrite Hf2. unfold shr. cbn [shr_m].
    destruct (Z.leb_spec (0 + Zpos p) (128 - 24)); [|lia].
    eexists. eexists. split; [reflexivity|].
    unfold bounded, canonical_mantissa. apply andb_true_intro. split.
    + apply Z.eqb_eq. rewrite Hdq. unfold fexp, emin. lia.
    + apply Z.leb_le. lia.
Qed.

(** What [t.float()] makes of a 64-bit integer: zero, or a float32 number
    of the sign of the integer. *)
Lemma f32_of_Z_class (z : Z) :
  Z.abs z <= 2 ^ 64 ->
  f32_valid (f32_of_Z z) = true /\
  ((z = 0 /\ f32_of_Z z = S754_zero false) \/
   exists (m : positive) (e : Z), f32_of_Z z = S754_finite (z <? 0) m e).
Proof.
  intros Hz.
  assert (G : forall (s : bool) (m : positive),
            Zpos m <= 2 ^ 64 ->
            exists m' e',
              binary_round 24 128 s m 0 = S754_finite s m' e' /\
              bounded 24 128 m' e' = true).
  { intros s m Hm.
    destruct (Z.le_gt_cases (Zpos (digits2_pos m)) 24) as [Hd | Hd].
    - assert (Hs : Zpos m < 2 ^ 24).
      { pose proof (digits_bounds m) as [_ Dhi].
        assert (2 ^ Zpos (digits2_pos m) <= 2 ^ 24)
          by (apply Z.pow_le_mono_r; lia). lia. }
      destruct (small_canonical m Hs) as (mx & ex & Hb & He & Hv).
      exists mx, ex. split; [|assumption].
      apply round_exact; [assumption|]. right. auto.
    - apply round_large. split; [lia|].
      pose proof (digits_bounds m) as [Dlo _].
      destruct (Z.le_gt_cases (Zpos (digits2_pos m)) 100) as [|Hgt];
        [assumption|].
      assert (2 ^ 100 <= 2 ^ (Zpos (digits2_pos m) - 1))
        by (apply Z.pow_le_mono_r; lia).
      assert (2 ^ 64 < 2 ^ 100) by (apply Z.pow_lt_mono_r; lia). lia. }
  unfold f32_of_Z. destruct z as [|m|m]; cbn [binary_normalize].
  - split; [reflexivity|]. left. auto.
  - destruct (G false m ltac:(lia)) as (m' & e' & Hr & Hb).
    rewrite Hr. split; [exact Hb|]. right. exists m', e'. reflexivity.
  - destruct (G true m ltac:(lia)) as (m' & e' & Hr & Hb).
    rewrite Hr. split; [exact Hb|]. right. exists m', e'. reflexivity.
Qed.

Lemma int64_range (z : Z) : Z.abs (int64 z) <= 2 ^ 64.
Proof.
  unfold int64.
  pose proof (Z.mod_pos_bound (z + 2 ^ 63) (2 ^ 64) ltac:(lia)). lia.
Qed.

Lemma int64_small (z : Z) : - 2 ^ 63 <= z < 2 ^ 63 -> int64 z = z.
Proof.
  intros H. unfold int64. rewrite Z.mod_small by lia. lia.
Qed.

(** Multiplying by the 1 of the channel mask changes nothing. *)
Lemma f32_mul_one (d : f32) :
  f32_valid d = true -> f32_finite d = true -> f32_mul d f32_one = d.
Proof.
  intros Vd Fd. destruct d as [s|s| |s m e]; try discriminate Fd.
  - cbn. now rewrite xorb_false_r.
  - unfold f32_mul, f32_one. cbn [SFmul]. rewrite xorb_false_r.
    cbn [f32_valid valid_binary] in Vd.
    apply round_aux_exact; [assumption|lia|].
    rewrite Pos2Z.inj_mul. f_equal.
    replace (e - (e + -23)) with 23 by lia. reflexivity.
Qed.

(** Multiplying by the 0 of the channel mask gives a zero. *)
Lemma f32_mul_zero (d : f32) :
  f32_finite d = true -> exists s : bool, f32_mul d f32_zero = S754_zero s.
Proof.
  intros Fd. destruct d as [s|s| |s m e]; try discriminate Fd;
    cbn; eauto.
Qed.

(** Adding a zero changes nothing, but for the sign of a zero. *)
Lemma f32_add_zero (x : f32) (s : bool) : f32_same (f32_add x (S754_zero s)) x.
Proof.
  destruct x as [sx|sx| |sx mx ex]; try (left; reflexivity).
  right. destruct sx, s; cbn; eauto.
Qed.

(** The offset of a video as the code computes it, on a shifted channel
    and on the others. *)
Lemma offset_on (z : Z) :
  f32_mul (f32_of_Z (int64 z)) f32_one = f32_of_Z (int64 z) /\
  f32_valid (f32_of_Z (int64 z)) = true /\
  f32_finite (f32_of_Z (int64 z)) = true.
Proof.
  destruct (f32_of_Z_class (int64 z) (int64_range z)) as [V C].
  assert (F : f32_finite (f32_of_Z (int64 z)) = true).
  { destruct C as [[_ ->] | (m & e & ->)]; reflexivity. }
  split; [now apply f32_mul_one|]. auto.
Qed.

Lemma offset_off (z : Z) :
  exists s : bool, f32_mul (f32_of_Z (int64 z)) f32_zero = S754_zero s.
Proof. apply f32_mul_zero. apply offset_on. Qed.

Lemma f32_of_Z_repr (z : Z) :
  Z.abs z < 2 ^ 24 -> z <> 0 ->
  exists (mx : positive) (ex : Z),
    f32_of_Z z = S754_finite (z <? 0) mx ex /\
    bounded 24 128 mx ex = true /\
    cond_Zopp (z <? 0) (Zpos mx) * 2 ^ (ex + 149) = z * 2 ^ 149.
Proof.
  intros Hz Hnz.
  destruct (f32_of_Z_small z Hz) as (V & _ & U).
  assert (P : 2 ^ 24 < 2 ^ 64) by (apply Z.pow_lt_mono_r; lia).
  destruct (f32_of_Z_class z ltac:(lia)) as [_ [[H0 _] | (m & e & E)]];
    [contradiction|].
  exists m, e. rewrite E in V, U. split; [exact E|].
  split; [exact V | exact U].
Qed.

(** Integers add without rounding as long as the sum has at most 24
    bits. *)
Lemma f32_add_small (a b : Z) :
  Z.abs a < 2 ^ 24 -> Z.abs b < 2 ^ 24 -> Z.abs (a + b) < 2 ^ 24 ->
  f32_add (f32_of_Z a) (f32_of_Z b) = f32_of_Z (a + b).
Proof.
  intros Ha Hb Hab.
  destruct (Z.eq_dec a 0) as [-> | Na].
  { rewrite Z.add_0_l. destruct (Z.eq_dec b 0) as [-> | Nb];
      [reflexivity|].
    destruct (f32_of_Z_repr b Hb Nb) as (mb & eb & -> & _). reflexivity. }
  destruct (f32_of_Z_repr a Ha Na) as (ma & ea & Ea & Ba & Ua).
  destruct (Z.eq_dec b 0) as [-> | Nb].
  { rewrite Z.add_0_r, Ea. reflexivity. }
  destruct (f32_of_Z_repr b Hb Nb) as (mb & eb & Eb & Bb & Ub).
  rewrite Ea, Eb. unfold f32_add. cbn [SFadd].
  destruct (bounded_inv ma ea Ba) as (_ & _ & La).
  destruct (bounded_inv mb eb Bb) as (_ & _ & Lb).
  set (ez := Z.min ea eb).
  assert (Hsum :
    (cond_Zopp (a <? 0) (Zpos (fst (shl_align ma ea ez)))
     + cond_Zopp (b <? 0) (Zpos (fst (shl_align mb eb ez))))
    * 2 ^ (ez + 149) = (a + b) * 2 ^ 149).
  { rewrite Z.mul_add_distr_r, !align_units by (unfold ez; lia). lia. }
  assert (P : 0 < 2 ^ (ez + 149))
    by (apply Z.pow_pos_nonneg; unfold ez; lia).
  destruct (Z.eq_dec (a + b) 0) as [E0 | Nab].
  - rewrite E0 in *.
    assert (Hz : cond_Zopp (a <? 0) (Zpos (fst (shl_align ma ea ez)))
                 + cond_Zopp (b <? 0) (Zpos (fst (shl_align mb eb ez)))
                 = 0) by nia.
    rewrite Hz. reflexivity.
  - destruct (f32_of_Z_repr (a + b) Hab Nab) as (mx & ex & -> & Bx & Ux).
    apply normalize_exact; [assumption | unfold ez; lia |].
    rewrite Hsum, Ux. reflexivity.
Qed.

(** *** The shifted tensors *)

Lemma t3_get_map2 {A B C : Type} (f : A -> B -> C)
    (a : list (list (list A))) (b : list (list (list B)))
    (v r c : nat) (x : A) (y : B) :
  t3_get a v r c = Some x -> t3_get b v r c = Some y ->
  t3_get (t3_map2 f a b) v r c = Some (f x y).
Proof.
  unfold t3_get, t3_map2. intros Ha Hb.
  destruct (nth_error a v) as [va|] eqn:Va; [|discriminate].
  destruct (nth_error b v) as [vb|] eqn:Vb; [|discriminate].
  rewrite (map2_nth _ _ _ _ _ _ Va Vb).
  destruct (nth_error va r) as [ra|] eqn:Ra; [|discriminate].
  destruct (nth_error vb r) as [rb|] eqn:Rb; [|discriminate].
  rewrite (map2_nth _ _ _ _ _ _ Ra Rb).
  now apply map2_nth.
Qed.

Lemma t3_get_map {A B : Type} (f : A -> B) (a : list (list (list A)))
    (v r c : nat) (x : A) :
  t3_get a v r c = Some x -> t3_get (t3_map f a) v r c = Some (f x).
Proof.
  unfold t3_get, t3_map. intros Ha. rewrite nth_error_map.
  destruct (nth_error a v) as [va|]; [|discriminate]. cbn [option_map].
  rewrite nth_error_map.
  destruct (nth_error va r) as [ra|]; [|discriminate]. cbn [option_map].
  rewrite nth_error_map, Ha. reflexivity.
Qed.

Lemma nth_error_seq0 (n i : nat) :
  (i < n)%nat -> nth_error (seq 0 n) i = Some i.
Proof.
  intros H. rewrite nth_error_seq.
  destruct (Nat.ltb_spec i n); [reflexivity | lia].
Qed.

Lemma t3_get_repeat {A : Type} (x : list A) (n p v r c : nat) (q : A) :
  (v < n)%nat -> (r < p)%nat -> nth_error x c = Some q ->
  t3_get (repeat (repeat x p) n) v r c = Some q.
Proof.
  intros Hv Hr Hc. unfold t3_get.
  now rewrite !nth_error_repeat by assumption.
Qed.

Lemma t3_get_expand_delta (n p d : nat) (shift : Z) (v r c : nat) :
  (v < n)%nat -> (r < p)%nat -> (c < d)%nat ->
  t3_get (expand_delta n p d shift) v r c
  = Some (int64 (Z.of_nat v * shift)).
Proof.
  intros Hv Hr Hc. unfold t3_get, expand_delta.
  rewrite nth_error_map, (nth_error_seq0 n v Hv). cbn [option_map].
  now rewrite !nth_error_repeat by assumption.
Qed.

Lemma t3_get_delta_msk (n p d : nat) (cols : list nat)
    (msk : list (list (list f32))) (v r c : nat) :
  delta_msk n p d cols = Ok msk ->
  (v < n)%nat -> (r < p)%nat -> (c < d)%nat ->
  t3_get msk v r c
  = Some (if existsb (Nat.eqb c) cols then f32_one else f32_zero).
Proof.
  unfold delta_msk. destruct (forallb _ cols); [|discriminate].
  intros [= <-] Hv Hr Hc. apply t3_get_repeat; try assumption.
  now rewrite nth_error_map, (nth_error_seq0 d c Hc).
Qed.

Lemma t3_get_bounds (t : Tensor3) (v r c : nat) (x : f32) :
  well_shaped t -> t3_get (entries t) v r c = Some x ->
  (v < dim0 t)%nat /\ (r < dim1 t)%nat /\ (c < dim2 t)%nat.
Proof.
  intros [Hn Hv] H. unfold t3_get in H. rewrite Forall_forall in Hv.
  destruct (nth_error (entries t) v) as [video|] eqn:V; [|discriminate].
  destruct (nth_error video r) as [row|] eqn:R; [|discriminate].
  destruct (Hv video (nth_error_In _ _ V)) as [Hp Hrows].
  rewrite Forall_forall in Hrows.
  pose proof (Hrows row (nth_error_In _ _ R)) as Hd.
  assert (v < length (entries t))%nat by (apply nth_error_Some; congruence).
  assert (r < length video)%nat by (apply nth_error_Some; congruence).
  assert (c < length row)%nat by (apply nth_error_Some; congruence).
  lia.
Qed.

Lemma map2_rows_length {A B C : Type} (f : A -> B -> C) (p : nat)
    (a : list (list A)) (b : list (list B)) :
  Forall (fun v => length v = p) a ->
  Forall (fun v => length v = p) b ->
  Forall (fun v => length v = p) (map2 (map2 f) a b).
Proof.
  intros Ha. revert b. induction Ha as [|va a Hva _ IH]; intros b Hb.
  - constructor.
  - destruct Hb as [|vb b Hvb Hb]; cbn; constructor.
    + rewrite map2_length. lia.
    + now apply IH.
Qed.

(** Cutting the concatenation of [n] blocks of [p] rows back into blocks
    of [p] rows gives the blocks. *)
Lemma chunk_concat {A : Type} (p : nat) (l : list (list A)) :
  Forall (fun v => length v = p) l ->
  map (fun v => chunk p v (concat l)) (seq 0 (length l)) = l.
Proof.
  induction 1 as [|x l Hx _ IH]; [reflexivity|].
  cbn [length seq map concat]. f_equal.
  - unfold chunk. cbn [Nat.mul skipn].
    rewrite firstn_app, firstn_all2 by lia.
    replace (p - length x)%nat with 0%nat by lia.
    cbn. apply app_nil_r.
  - rewrite <- seq_shift, map_map. rewrite <- IH at 2.
    apply map_ext. intros v. unfold chunk. f_equal.
    cbn [Nat.mul concat]. rewrite skipn_app, skipn_all2 by lia.
    cbn [app]. f_equal. lia.
Qed.

Lemma shifted_blocks (props : Tensor3) (shift : Z) (cols : list nat)
    (msk : list (list (list f32))) :
  well_shaped props ->
  delta_msk (dim0 props) (dim1 props) (dim2 props) cols = Ok msk ->
  map (fun v => chunk (dim1 props) v (concat (shifted props shift msk)))
    (seq 0 (dim0 props))
  = shifted props shift msk.
Proof.
  intros [Hn Hv] Hm.
  assert (Hrows : Forall (fun v => length v = dim1 props)
                    (shifted props shift msk)).
  { unfold shifted, t3_map2. apply map2_rows_length.
    - eapply Forall_impl; [|exact Hv]. cbn. tauto.
    - apply map2_rows_length.
      + unfold t3_map, expand_delta. rewrite map_map.
        apply Forall_map, Forall_forall.
        intros v _. rewrite length_map. apply repeat_length.
      + unfold delta_msk in Hm.
        destruct (forallb _ cols); [|discriminate].
        inversion Hm; subst. apply Forall_repeat, repeat_length. }
  assert (Hlen : length (shifted props shift msk) = dim0 props).
  { unfold shifted, t3_map2. rewrite !map2_length.
    unfold t3_map, expand_delta. rewrite !length_map, length_seq.
    unfold delta_msk in Hm. destruct (forallb _ cols); [|discriminate].
    inversion Hm; subst. rewrite repeat_length. lia. }
  rewrite <- Hlen at 1. now apply chunk_concat.
Qed.

Lemma shifted_entry (props : Tensor3) (shift : Z) (cols : list nat)
    (msk : list (list (list f32))) (v r c : nat) (x : f32) :
  well_shaped props ->
  delta_msk (dim0 props) (dim1 props) (dim2 props) cols = Ok msk ->
  t3_get (entries props) v r c = Some x ->
  t3_get (shifted props shift msk) v r c
  = Some (f32_add x
            (f32_mul (f32_of_Z (int64 (Z.of_nat v * shift)))
               (if existsb (Nat.eqb c) cols then f32_one else f32_zero))).
Proof.
  intros Hw Hm Hx.
  destruct (t3_get_bounds props v r c x Hw Hx) as (Hv & Hr & Hc).
  unfold shifted. apply t3_get_map2; [assumption|].
  apply t3_get_map2.
  - apply t3_get_map. now apply t3_get_expand_delta.
  - eapply t3_get_delta_msk; eassumption.
Qed.

Lemma delta_msk_total (n p d : nat) (cols : list nat) :
  Forall (fun c => (c < d)%nat) cols ->
  exists msk, delta_msk n p d cols = Ok msk.
Proof.
  intros H. unfold delta_msk.
  assert (F : forallb (fun c => Nat.ltb c d) cols = true).
  { apply forallb_forall. rewrite Forall_forall in H.
    intros c Hc. apply Nat.ltb_lt. auto. }
  rewrite F. eauto.
Qed.

(** On a shifted channel the entry is the float32 sum with the offset,
    and the offset comes off again when that sum was exact. *)
Lemma shift_on_channel (x : f32) (z : Z) :
  let offset := f32_of_Z (int64 z) in
  let y := f32_add x (f32_mul offset f32_one) in
  y = f32_add x offset /\
  (f32_valid x = true -> f32_finite x = true -> f32_finite y = true ->
   f32_units y = f32_units x + f32_units offset ->
   f32_same (f32_sub y offset) x).
Proof.
  cbv zeta. destruct (offset_on z) as (-> & V & F).
  split; [reflexivity|]. intros Vx Fx Fy Hy.
  now apply f32_sub_add_exact.
Qed.

Lemma shift_off_channel (x : f32) (z : Z) :
  f32_same (f32_add x (f32_mul (f32_of_Z (int64 z)) f32_zero)) x.
Proof.
  destruct (offset_off z) as [s ->]. apply f32_add_zero.
Qed.

(** C7.  On a stack of [n] videos' float32 boxes, the SPAT shift
    replaces each entry [x] of the x-coordinate channels 0 and 2 of
    video [v] by the float32 sum of [x] and the offset [720 * v]
    (converted to float32), and the TEMP shift each entry of the
    frame-index channel 4 by the float32 sum of [x] and [10 * v]; the
    other channels keep their values.  Subtracting the offset from a
    shifted entry gives back the value before the shift whenever the
    float32 sum was exact, that is, had nothing to round; it is exact
    for integer entries, as frame indices are, while the sum stays below
    [2^24] in magnitude.  The flat view is the concatenation of the
    per-video view, and an offset below [2^24] in magnitude is converted
    to float32 without rounding. *)
Theorem box_shift_spec :
  (forall (self : AnetEntDataset) (props : Tensor3),
      well_shaped props -> (3 <= dim2 props)%nat ->
      exists out,
        SPAT.process_props self props 720 true false = Ok (View3 out) /\
        SPAT.process_props self props 720 false false
        = Ok (View2 (concat out)) /\
        forall (v r c : nat) (x : f32),
          t3_get (entries props) v r c = Some x ->
          let offset := f32_of_Z (int64 (Z.of_nat v * 720)) in
          exists y,
            t3_get out v r c = Some y /\
            (c = 0%nat \/ c = 2%nat ->
             y = f32_add x offset /\
             (f32_valid x = true -> f32_finite x = true ->
              f32_finite y = true ->
              f32_units y = f32_units x + f32_units offset ->
              f32_same (f32_sub y offset) x)) /\
            (c <> 0%nat -> c <> 2%nat -> f32_same y x)) /\
  (forall (props : Tensor3) (reshuffle_box : bool),
      well_shaped props -> (5 <= dim2 props)%nat ->
      exists out,
        TEMP.process_props props 10 true reshuffle_box = Ok (View3 out) /\
        TEMP.process_props props 10 false reshuffle_box
        = Ok (View2 (concat out)) /\
        forall (v r c : nat) (x : f32),
          t3_get (entries props) v r c = Some x ->
          let offset := f32_of_Z (int64 (Z.of_nat v * 10)) in
          exists y,
            t3_get out v r c = Some y /\
            (c = 4%nat ->
             y = f32_add x offset /\
             (f32_valid x = true -> f32_finite x = true ->
              f32_finite y = true ->
              f32_units y = f32_units x + f32_units offset ->
              f32_same (f32_sub y offset) x)) /\
            (c <> 4%nat -> f32_same y x)) /\
  (forall z : Z,
      Z.abs z < 2 ^ 24 ->
      f32_units (f32_of_Z (int64 z)) = z * 2 ^ 149) /\
  (forall a b : Z,
      Z.abs a < 2 ^ 24 -> Z.abs b < 2 ^ 24 -> Z.abs (a + b) < 2 ^ 24 ->
      let x := f32_of_Z a in
      let offset := f32_of_Z (int64 b) in
      f32_add x offset = f32_of_Z (a + b) /\
      f32_same (f32_sub (f32_add x offset) offset) x).
Proof.
  split; [|split; [|split]].
  - intros self props Hw Hd.
    destruct (delta_msk_total (dim0 props) (dim1 props) (dim2 props)
                [0%nat; 2%nat]) as [msk Hm].
    { repeat constructor; lia. }
    exists (shifted props 720 msk).
    unfold SPAT.process_props. rewrite Hm. cbn [bind].
    fold (shifted props 720 msk).
    rewrite (shifted_blocks props 720 _ msk Hw Hm).
    split; [reflexivity|]. split; [reflexivity|].
    intros v r c x Hx. eexists.
    split; [eapply shifted_entry; eassumption|].
    split.
    + intros [-> | ->]; cbn [existsb Nat.eqb orb];
        apply (shift_on_channel x (Z.of_nat v * 720)).
    + intros H0 H2.
      destruct c as [|[|[|c]]]; try congruence; cbn [existsb Nat.eqb orb];
        apply shift_off_channel.
  - intros props rb Hw Hd.
    destruct (delta_msk_total (dim0 props) (dim1 props) (dim2 props)
                [4%nat]) as [msk Hm].
    { repeat constructor; lia. }
    exists (shifted props 10 msk).
    unfold TEMP.process_props. rewrite Hm. cbn [bind].
    fold (shifted props 10 msk).
    rewrite (shifted_blocks props 10 _ msk Hw Hm).
    split; [reflexivity|]. split; [reflexivity|].
    intros v r c x Hx. eexists.
    split; [eapply shifted_entry; eassumption|].
    split.
    + intros ->. cbn [existsb Nat.eqb orb].
      apply (shift_on_channel x (Z.of_nat v * 10)).
    + intros H4.
      destruct c as [|[|[|[|[|c]]]]]; try congruence;
        cbn [existsb Nat.eqb orb]; apply shift_off_channel.
  - intros z Hz.
    assert (P : 2 ^ 24 < 2 ^ 63) by (apply Z.pow_lt_mono_r; lia).
    rewrite int64_small by lia.
    now apply f32_of_Z_small.
  - intros a b Ha Hb Hab. cbv zeta.
    assert (P : 2 ^ 24 < 2 ^ 63) by (apply Z.pow_lt_mono_r; lia).
    rewrite int64_small by lia.
    destruct (f32_of_Z_small a Ha) as (Va & Fa & Ua).
    destruct (f32_of_Z_small b Hb) as (Vb & Fb & Ub).
    destruct (f32_of_Z_small (a + b) Hab) as (_ & Fs & Us).
    pose proof (f32_add_small a b Ha Hb Hab) as Hsum.
    split; [exact Hsum|].
    apply f32_sub_add_exact; try assumption; rewrite Hsum; [exact Fs|].
    rewrite Us, Ua, Ub. ring.
Qed.

(** With [reshuffle_box], the SPAT shift is followed by a reordering of
    the rows only: frame by frame, then video by video. *)
Lemma process_props_reshuffled (self : AnetEntDataset) (props : Tensor3) :
  well_shaped props -> (3 <= dim2 props)%nat ->
  0 <= num_frms self -> 0 <= num_prop_per_frm self ->
  Z.of_nat (dim1 props) = num_frms self * num_prop_per_frm self ->
  exists out,
    SPAT.process_props self props 720 true false = Ok (View3 out) /\
    SPAT.process_props self props 720 false true
    = Ok (View2
            (concat
               (map (fun f =>
                       concat
                         (map (chunk (Z.to_nat (num_prop_per_frm self)) f)
                            out))
                  (seq 0 (Z.to_nat (num_frms self)))))).
Proof.
  intros Hw Hd Hf Hp Hshape.
  destruct (delta_msk_total (dim0 props) (dim1 props) (dim2 props)
              [0%nat; 2%nat]) as [msk Hm].
  { repeat constructor; lia. }
  exists (shifted props 720 msk).
  unfold SPAT.process_props, SPAT.reshuffle_boxes. rewrite Hm. cbn [bind].
  fold (shifted props 720 msk).
  rewrite (shifted_blocks props 720 _ msk Hw Hm).
  split; [reflexivity|].
  destruct (Z.ltb_spec (num_frms self) 0); [lia|].
  destruct (Z.ltb_spec (num_prop_per_frm self) 0); [lia|].
  rewrite Hshape, Z.eqb_refl. reflexivity.
Qed.

Lemma example_boxes_well_shaped : well_shaped example_boxes.
Proof. split; [reflexivity|]. repeat constructor. Qed.

Lemma box_shift_spec_witness :
  (exists out,
      SPAT.process_props example_dataset example_boxes 720 true false
      = Ok (View3 out) /\
      exists y,
        t3_get out 1 0 2 = Some y /\
        y = f32_of_Z 723 /\
        f32_same (f32_sub y (f32_of_Z 720)) (f32_of_Z 3)) /\
  (exists out,
      TEMP.process_props example_boxes 10 true false = Ok (View3 out) /\
      exists y,
        t3_get out 1 1 4 = Some y /\
        y = f32_of_Z 11 /\
        f32_same (f32_sub y (f32_of_Z 10)) (f32_of_Z 1)) /\
  f32_units (f32_of_Z (int64 720)) = 720 * 2 ^ 149 /\
  f32_add (f32_of_Z 405) (f32_of_Z (int64 720)) = f32_of_Z (405 + 720).
Proof.
  destruct box_shift_spec as (Hspat & Htemp & Hoffset & Hints).
  split; [|split; [|split]];
    [| | apply (Hoffset 720); vm_compute; reflexivity
       | apply (Hints 405 720); vm_compute; reflexivity].
  - destruct (Hspat example_dataset example_boxes example_boxes_well_shaped)
      as (out & H3 & _ & Hent); [cbn; lia|].
    exists out. split; [exact H3|].
    destruct (Hent 1%nat 0%nat 2%nat (f32_of_Z 3) eq_refl)
      as (y & Hy & Hon & _).
    exists y. split; [exact Hy|].
    destruct (Hon (or_intror eq_refl)) as [Hsum Hback].
    split; [rewrite Hsum; reflexivity|].
    apply Hback; try reflexivity; rewrite Hsum; reflexivity.
  - destruct (Htemp example_boxes false example_boxes_well_shaped)
      as (out & H3 & _ & Hent); [cbn; lia|].
    exists out. split; [exact H3|].
    destruct (Hent 1%nat 1%nat 4%nat (f32_of_Z 1) eq_refl)
      as (y & Hy & Hon & _).
    exists y. split; [exact Hy|].
    destruct (Hon eq_refl) as [Hsum Hback].
    split; [rewrite Hsum; reflexivity|].
    apply Hback; try reflexivity; rewrite Hsum; reflexivity.
Defined.

(** The shift rounds: an x-coordinate of [2^-20] in the second video
    becomes exactly 720, the offset itself, and subtracting the offset
    gives 0 and not the coordinate. *)
Lemma box_shift_not_exact :
  exists out y,
    SPAT.process_props example_dataset tiny_boxes 720 true false
    = Ok (View3 out) /\
    t3_get (entries tiny_boxes) 1 0 0 = Some f32_tiny /\
    t3_get out 1 0 0 = Some y /\
    y = f32_of_Z 720 /\
    f32_units y <> f32_units f32_tiny + 720 * 2 ^ 149 /\
    f32_sub y (f32_of_Z 720) = f32_zero /\
    ~ f32_same (f32_sub y (f32_of_Z 720)) f32_tiny.
Proof.
  eexists. eexists. split; [vm_compute; reflexivity|].
  split; [reflexivity|]. split; [reflexivity|].
  split; [reflexivity|]. split; [vm_compute; discriminate|].
  split; [reflexivity|].
  intros [H | (s & s' & _ & H)]; vm_compute in H; discriminate H.
Qed.

(** ** The verb slot of the SRL encoder *)

Lemma mem_In (x : string) (l : list string) : mem x l = true <-> In x l.
Proof.
  unfold mem. rewrite existsb_exists. split.
  - intros (y & Hy & E). apply String.eqb_eq in E. now subst.
  - intros H. exists x. split; [assumption | apply String.eqb_refl].
Qed.

(** [index_of] finds the first occurrence. *)
Lemma index_of_first (x : string) (l : list string) (i : nat) :
  index_of x l = Some i ->
  nth_error l i = Some x /\
  forall j : nat, (j < i)%nat -> nth_error l j <> Some x.
Proof.
  revert i. induction l as [|y l IH]; cbn; intros i H; [discriminate|].
  destruct (String.eqb_spec x y) as [-> | Hne].
  - inversion H; subst. split; [reflexivity | intros j Hj; lia].
  - destruct (index_of x l) as [k|]; [|discriminate].
    inversion H; subst. destruct (IH k eq_refl) as [Hk Hfirst].
    split; [exact Hk|].
    intros [|j] Hj; cbn; [congruence | apply Hfirst; lia].
Qed.

Lemma index_of_mem (x : string) (l : list string) :
  mem x l = true -> exists i, index_of x l = Some i.
Proof.
  unfold mem. induction l as [|y l IH]; cbn; [discriminate|].
  destruct (String.eqb x y); [eauto|]. cbn. intros H.
  destruct (IH H) as [i ->]. cbn. eauto.
Qed.

Lemma verb_ind_in_srl_inv (srl_arg_len v : Z) (srl_args : list string) :
  verb_ind_in_srl srl_arg_len srl_args = Ok v ->
  exists i : nat,
    nth_error srl_args i = Some "V"%string /\
    (forall j : nat, (j < i)%nat -> nth_error srl_args j <> Some "V"%string) /\
    (Z.of_nat i <= srl_arg_len - 1 -> v = Z.of_nat i) /\
    (srl_arg_len - 1 < Z.of_nat i -> v = 0).
Proof.
  unfold verb_ind_in_srl. intros H.
  destruct (mem "V" srl_args); [|discriminate]. cbn in H.
  destruct (index_of "V" srl_args) as [i|] eqn:E; [|discriminate].
  destruct (index_of_first _ _ _ E) as [Hi Hfirst].
  exists i. split; [exact Hi|]. split; [exact Hfirst|].
  destruct (Z.leb_spec (Z.of_nat i) (srl_arg_len - 1));
    cbn in H; inversion H; subst; split; intros; lia.
Qed.

(** C8, as the code has it.  When ['V'] is among the argument names, the
    verb slot is the index of its first occurrence, or 0 when that index
    exceeds [srl_arg_len - 1]; a call of [get_srl_anns] that returns has
    computed the slot that way.  When no argument is tagged ['V'], the
    slot is not defaulted: the assertion fails and [get_srl_anns]
    raises. *)
Theorem verb_ind_in_srl_spec :
  (forall (srl_arg_len : Z) (srl_args : list string),
      In "V"%string srl_args ->
      exists i : nat,
        nth_error srl_args i = Some "V"%string /\
        (forall j : nat,
            (j < i)%nat -> nth_error srl_args j <> Some "V"%string) /\
        verb_ind_in_srl srl_arg_len srl_args
        = Ok (if Z.of_nat i <=? srl_arg_len - 1 then Z.of_nat i else 0)) /\
  (forall (self : Anet_SRL) (srl_row : SrlRow) (h : SrlHead),
      get_srl_anns self srl_row = Ok h ->
      let srl_args := map fst (req_pat_ix srl_row) in
      exists i : nat,
        nth_error srl_args i = Some "V"%string /\
        (forall j : nat,
            (j < i)%nat -> nth_error srl_args j <> Some "V"%string) /\
        (Z.of_nat i <= srl_arg_len self - 1 ->
         head_verb_ind_in_srl h = Z.of_nat i) /\
        (srl_arg_len self - 1 < Z.of_nat i -> head_verb_ind_in_srl h = 0)) /\
  (forall (srl_arg_len : Z) (srl_args : list string),
      ~ In "V"%string srl_args ->
      verb_ind_in_srl srl_arg_len srl_args = Raise AssertionError) /\
  (forall (self : Anet_SRL) (srl_row : SrlRow),
      ~ In "V"%string (map fst (req_pat_ix srl_row)) ->
      exists e, get_srl_anns self srl_row = Raise e).
Proof.
  split; [|split; [|split]].
  - intros L args Hin. apply mem_In in Hin.
    destruct (index_of_mem _ _ Hin) as [i Hi].
    destruct (index_of_first _ _ _ Hi) as [Hnth Hfirst].
    exists i. split; [exact Hnth|]. split; [exact Hfirst|].
    unfold verb_ind_in_srl. rewrite Hin, Hi. cbn.
    now destruct (Z.of_nat i <=? L - 1).
  - intros self row h H. cbv zeta. unfold get_srl_anns in H.
    inv_bind H. destruct a as [srl_args srl_words_inds].
    assert (Hargs : srl_args = map fst (req_pat_ix row)).
    { destruct (req_pat_ix row); [discriminate|]. now inversion E. }
    repeat inv_bind H.
    match goal with
    | Ev : verb_ind_in_srl _ _ = Ok _ |- _ =>
        apply verb_ind_in_srl_inv in Ev; destruct Ev as (i & Hv)
    end.
    inversion H; subst. cbn [head_verb_ind_in_srl]. exists i. exact Hv.
  - intros L args Hnot. unfold verb_ind_in_srl.
    destruct (mem "V" args) eqn:E; [|reflexivity].
    apply mem_In in E. contradiction.
  - intros self row Hnot.
    destruct (get_srl_anns self row) as [h|e] eqn:E; [|eauto].
    exfalso. apply Hnot. unfold get_srl_anns in E.
    inv_bind E. destruct a as [srl_args srl_words_inds].
    assert (Hargs : srl_args = map fst (req_pat_ix row)).
    { destruct (req_pat_ix row); [discriminate|]. now inversion E0. }
    repeat inv_bind E.
    match goal with
    | Ev : verb_ind_in_srl _ _ = Ok _ |- _ =>
        apply verb_ind_in_srl_inv in Ev; destruct Ev as (i & Hi & _)
    end.
    subst srl_args. eapply nth_error_In; eassumption.
Qed.

Lemma verb_ind_in_srl_spec_witness :
  verb_ind_in_srl 2 ["ARG0"; "V"; "ARG1"]%string = Ok 1 /\
  verb_ind_in_srl 2 ["ARG0"; "ARG1"; "ARG2"; "V"]%string = Ok 0 /\
  verb_ind_in_srl 2 ["ARG0"; "ARG1"]%string = Raise AssertionError /\
  (exists h,
      get_srl_anns (example_srl Valid 2 false) tennis_row
      = Ok h /\ head_verb_ind_in_srl h = 1) /\
  (exists e, get_srl_anns (example_srl Valid 2 false) verbless_row = Raise e).
Proof.
  destruct verb_ind_in_srl_spec as (Hin & Hhead & Hout & Hrow).
  split; [|split; [|split; [|split]]].
  - destruct (Hin 2 ["ARG0"; "V"; "ARG1"]%string) as (i & _ & _ & Hv);
      [cbn; tauto|].
    reflexivity.
  - reflexivity.
  - apply (Hout 2 ["ARG0"; "ARG1"]%string).
    cbn. intros [H | [H | []]]; discriminate.
  - destruct (get_srl_anns (example_srl Valid 2 false) tennis_row)
      as [h|e] eqn:E.
    + exists h. split; [reflexivity|].
      destruct (Hhead _ _ h E) as (i & Hnth & _ & Hle & _).
      cbn in Hnth. destruct i as [|[|[|[|i]]]]; try discriminate Hnth.
      apply Hle. cbn. lia.
    + vm_compute in E. discriminate E.
  - apply (Hrow (example_srl Valid 2 false) verbless_row).
    cbn. intros [H | []]; discriminate.
Defined.

(** C8, as stated, fails: a row without an argument tagged ['V'] does
    not get slot 0, the call raises on the assertion. *)
Lemma get_srl_anns_no_verb_raises :
  ~ In "V"%string (map fst (req_pat_ix verbless_row)) /\
  get_srl_anns (example_srl Valid 2 false) verbless_row
  = Raise AssertionError /\
  (forall h, get_srl_anns (example_srl Valid 2 false) verbless_row <> Ok h).
Proof.
  split; [|split].
  - cbn. intros [H | []]; discriminate.
  - reflexivity.
  - intros h H. discriminate H.
Qed.

(** ** Candidate selector *)

Lemma dict_get_In {V : Type} (d : list (string * V)) (k : string) (v : V) :
  dict_get d k = Ok v -> In (k, v) d.
Proof.
  induction d as [|[k' v'] d IH]; cbn; [discriminate|].
  destruct (String.eqb_spec k k') as [-> | Hne].
  - intros [= ->]. now left.
  - intros H. right. auto.
Qed.

Lemma dict_get_unique {V : Type} (d : list (string * V)) (k : string) (v : V) :
  NoDup (dict_keys d) -> In (k, v) d -> dict_get d k = Ok v.
Proof.
  unfold dict_keys.
  induction d as [|[k' v'] d IH]; cbn; intros Hnd Hin; [contradiction|].
  inversion Hnd as [|? ? Hnotin Hnd']; subst.
  destruct Hin as [[= -> ->] | Hin].
  - now rewrite String.eqb_refl.
  - destruct (String.eqb_spec k k') as [-> | Hne]; [|auto].
    exfalso. apply Hnotin. apply (in_map fst) in Hin. exact Hin.
Qed.

Lemma dict_get_key {V : Type} (d : list (string * V)) (k : string) :
  In k (dict_keys d) -> exists v, dict_get d k = Ok v.
Proof.
  unfold dict_keys. induction d as [|[k' v'] d IH]; cbn; [contradiction|].
  destruct (String.eqb_spec k k') as [-> | Hne]; [eauto|].
  intros [H | H]; [congruence | auto].
Qed.

Lemma dict_restrict_total (m : MoreIdxs) (keys : list string) :
  incl keys (dict_keys m) ->
  exists m',
    dict_restrict m keys = Ok m' /\
    dict_keys m' = keys /\
    forall (k : string) (ids : list Z), In (k, ids) m' -> In (k, ids) m.
Proof.
  unfold dict_restrict.
  induction keys as [|k keys IH]; intros Hincl.
  - exists []. cbn. repeat split. contradiction.
  - destruct (dict_get_key m k) as [v Hv]; [apply Hincl; now left|].
    destruct IH as (m' & Hm' & Hkeys & Hsub).
    { intros x Hx. apply Hincl. now right. }
    exists ((k, v) :: m'). cbn [mapM]. rewrite Hv. cbn [bind].
    rewrite Hm'. cbn [bind].
    split; [reflexivity|]. split; [unfold dict_keys in *; cbn; congruence|].
    intros k0 ids [[= <- <-] | Hin]; [now apply dict_get_In | auto].
Qed.

Lemma dict_restrict_prefix (m : MoreIdxs) (n : nat) :
  NoDup (dict_keys m) ->
  dict_restrict m (firstn n (dict_keys m)) = Ok (firstn n m).
Proof.
  intros Hnd. unfold dict_restrict, dict_keys. rewrite firstn_map.
  assert (H : Forall (fun kv => In kv m) (firstn n m)).
  { apply Forall_prefix, Forall_forall. auto. }
  induction H as [|[k v] l Hkv _ IH]; cbn; [reflexivity|].
  rewrite (dict_get_unique m k v Hnd Hkv). cbn. now rewrite IH.
Qed.

Lemma NoDup_prefix {A : Type} (n : nat) (l : list A) :
  NoDup l -> NoDup (firstn n l).
Proof.
  intros H. rewrite <- (firstn_skipn n l) in H.
  now apply NoDup_app_remove_r in H.
Qed.

Lemma truncate_train_spec (self : Anet_SRL) (rnd : Draws) (m : MoreIdxs) :
  1 <= cs_nvids_sample self -> NoDup (dict_keys m) -> valid_draws rnd ->
  split_type self = Train ->
  exists m', truncate_train self rnd m = Ok m' /\ truncated_mapping self m m'.
Proof.
  intros Hcs Hnd [Hchoice _] Hsplit. unfold truncate_train, truncated_mapping.
  assert (Hk : len (dict_keys m) = len m)
    by (unfold len, dict_keys; now rewrite length_map).
  destruct (Z.gtb_spec (len m) (cs_nvids_sample self - 1)) as [Hgt | Hle].
  - unfold np_random_choice. rewrite Hk, Z.min_r by lia.
    destruct (Z.ltb_spec (cs_nvids_sample self - 1) 0); [lia|].
    destruct (Z.ltb_spec (len m) (cs_nvids_sample self - 1)); [lia|].
    cbn [orb bind].
    destruct (Hchoice (dict_keys m) (Z.to_nat (cs_nvids_sample self - 1)) Hnd)
      as (Hlen & Hnodup & Hincl).
    { unfold len in Hk, Hgt. lia. }
    destruct (dict_restrict_total m _ Hincl) as (m' & Hm' & Hkeys & Hsub).
    exists m'. split; [exact Hm'|].
    split; [|split; [|split]].
    + unfold len. rewrite <- (length_map fst m'). fold (dict_keys m').
      rewrite Hkeys, Hlen. lia.
    + now rewrite Hkeys.
    + exact Hsub.
    + congruence.
  - exists m. split; [reflexivity|].
    split; [lia|]. split; [assumption|]. split; [auto | congruence].
Qed.

Lemma truncate_eval_spec (self : Anet_SRL) (m : MoreIdxs) :
  1 <= cs_nvids_sample self -> NoDup (dict_keys m) ->
  exists m', truncate_eval self m = Ok m' /\ truncated_mapping self m m'.
Proof.
  intros Hcs Hnd. unfold truncate_eval, truncated_mapping.
  destruct (Z.gtb_spec (len m) (cs_nvids_sample self - 1)) as [Hgt | Hle].
  - rewrite Z.min_r, py_prefix_nonneg by lia.
    rewrite (dict_restrict_prefix m _ Hnd).
    eexists. split; [reflexivity|].
    split; [|split; [|split]].
    + unfold len in *. rewrite length_firstn. lia.
    + unfold dict_keys in *. rewrite <- firstn_map. now apply NoDup_prefix.
    + intros k ids Hin. rewrite <- (firstn_skipn
        (Z.to_nat (cs_nvids_sample self - 1)) m).
      apply in_or_app. now left.
    + reflexivity.
  - exists m. split; [reflexivity|].
    split; [lia|]. split; [assumption|]. split; [auto|].
    intros _. unfold len in Hle. rewrite firstn_all2; [reflexivity | lia].
Qed.

(** C9, as the code has it.  With [cs_nvids_sample >= 1], both candidate
    selectors cut the mapping down to at most [cs_nvids_sample - 1]
    argument names, and every name kept still carries its whole candidate
    list: no list is shortened.  On the train split the names kept are
    drawn without replacement from those proposed by the generator; on
    the valid and test splits they are the first names of the stored
    mapping. *)
Theorem candidate_selector_spec :
  forall (self : Anet_SRL) (rnd : Draws) (idx : Z) (m : MoreIdxs),
    1 <= cs_nvids_sample self ->
    NoDup (dict_keys m) ->
    valid_draws rnd ->
    (match split_type self with
     | Train => create_random_list rnd idx = Ok m
     | Valid | Test => loc (RandDS4_Inds self) idx = Ok m
     end ->
     exists m',
       get_random_more_idx self rnd idx = Ok m' /\
       truncated_mapping self m m') /\
    (match split_type self with
     | Train => create_similar_list rnd idx = Ok m
     | Valid | Test => loc (DS4_Inds self) idx = Ok m
     end ->
     exists m',
       get_cs_more_idxs self rnd idx = Ok m' /\
       truncated_mapping self m m').
Proof.
  intros self rnd idx m Hcs Hnd Hrnd.
  pose proof (truncate_train_spec self rnd m Hcs Hnd Hrnd) as Htrain.
  pose proof (truncate_eval_spec self m Hcs Hnd) as Heval.
  unfold get_random_more_idx, get_cs_more_idxs.
  split; intros Hsrc; destruct (split_type self);
    rewrite Hsrc; cbn [bind]; auto.
Qed.

Lemma firstn_draws_valid (rnd : Draws) :
  choice rnd = (fun keys k => firstn k keys) ->
  randperm rnd = (fun n => rev (arange n)) ->
  valid_draws rnd.
Proof.
  intros Hc Hp. split.
  - intros keys k Hnd Hk. rewrite Hc. split; [|split].
    + rewrite length_firstn. lia.
    + now apply NoDup_prefix.
    + intros x Hx. rewrite <- (firstn_skipn k keys).
      apply in_or_app. now left.
  - intros n. rewrite Hp. symmetry. apply Permutation_rev.
Qed.

Lemma example_mapping_keys :
  NoDup (dict_keys [("ARG0"%string, [7; 8; 7]); ("ARG1"%string, [8; 7; 8])]).
Proof.
  cbn. repeat constructor; cbn; [|tauto].
  intros [H | []]. discriminate H.
Qed.

Lemma candidate_selector_spec_witness :
  (exists m',
      get_random_more_idx (example_srl Valid 2 false) example_draws 0 = Ok m' /\
      len m' = 1) /\
  (exists m',
      get_cs_more_idxs (example_srl Train 2 false) example_draws 0 = Ok m' /\
      len m' = 1).
Proof.
  split.
  - destruct (candidate_selector_spec (example_srl Valid 2 false)
                example_draws 0
                [("ARG0"%string, [7; 8; 7]); ("ARG1"%string, [8; 7; 8])])
      as [Hrand _].
    + cbn. lia.
    + exact example_mapping_keys.
    + apply firstn_draws_valid; reflexivity.
    + destruct (Hrand eq_refl) as (m' & Hm' & Hlen & _).
      exists m'. split; [exact Hm'|]. rewrite Hlen. reflexivity.
  - destruct (candidate_selector_spec (example_srl Train 2 false)
                example_draws 0
                [("ARG0"%string, [7; 8; 7]); ("ARG1"%string, [8; 7; 8])])
      as [_ Hcs].
    + cbn. lia.
    + exact example_mapping_keys.
    + apply firstn_draws_valid; reflexivity.
    + destruct (Hcs eq_refl) as (m' & Hm' & Hlen & _).
      exists m'. split; [exact Hm'|]. rewrite Hlen. reflexivity.
Defined.

(** C9, as stated, fails: with [cs_nvids_sample = 2] the mapping
    returned on the valid split keeps one argument name, and its
    candidate list still has three entries, more than
    [cs_nvids_sample - 1 = 1]. *)
Lemma candidate_lists_not_truncated :
  get_random_more_idx (example_srl Valid 2 false) example_draws 0
  = Ok [("ARG0"%string, [7; 8; 7])] /\
  get_cs_more_idxs (example_srl Train 2 false) example_draws 0
  = Ok [("ARG0"%string, [7; 8; 7])] /\
  ~ Forall (fun kv : string * list Z =>
              len (snd kv) <= cs_nvids_sample (example_srl Valid 2 false) - 1)
      [("ARG0"%string, [7; 8; 7])].
Proof.
  split; [reflexivity|]. split; [reflexivity|].
  intros H. inversion H as [|? ? Hhd _]; subst. cbn in Hhd. lia.
Qed.

(** ** Candidate gathering *)

Lemma supplied_incl (items items' : MoreIdxs) (x : Z) :
  incl items' items -> supplied items' x -> supplied items x.
Proof.
  intros Hincl (Hx & name & ids & c & Hin & Hc & Hidx).
  split; [assumption|]. exists name, ids, c. auto.
Qed.

(** One pass appends to the three lists, only candidates the mapping
    supplies, and never beyond [cs_nvids_sample] slots. *)
Lemma gather_pass_inv (self : Anet_SRL) (curr_verb : string) (cons : Z)
    (items : MoreIdxs) (g g' : Gathered) :
  0 <= cons ->
  gather_pass self curr_verb cons items g = Ok g' ->
  gathered_ok g ->
  gathered_ok g' /\
  exists extra,
    new_idxs g' = new_idxs g ++ extra /\
    Forall (supplied items) extra /\
    (len (new_idxs g) <= cs_nvids_sample self ->
     len (new_idxs g') <= cs_nvids_sample self).
Proof.
  intros Hcons. revert g.
  induction items as [|[name ids] items IH]; intros g H Hok.
  - cbn in H. inversion H; subst. split; [assumption|].
    exists []. rewrite app_nil_r. auto.
  - cbn [gather_pass] in H.
    assert (Hrest : forall g1,
      gather_pass self curr_verb cons items g1 = Ok g' ->
      gathered_ok g1 ->
      gathered_ok g' /\
      exists extra,
        new_idxs g' = new_idxs g1 ++ extra /\
        Forall (supplied ((name, ids) :: items)) extra /\
        (len (new_idxs g1) <= cs_nvids_sample self ->
         len (new_idxs g') <= cs_nvids_sample self)).
    { intros g1 H1 Hok1.
      destruct (IH g1 H1 Hok1) as (Hok' & extra & He & Hs & Hb).
      split; [assumption|]. exists extra. split; [assumption|].
      split; [|assumption].
      eapply Forall_impl; [|exact Hs].
      intros x. apply supplied_incl. intros y Hy. now right. }
    destruct (Z.ltb_spec (len (new_idxs g)) (cs_nvids_sample self))
      as [Hlt | Hge]; [|auto].
    inv_bind H.
    destruct (Z.eqb_spec a (-1)) as [-> | Hne]; cbn [negb] in H; [auto|].
    inv_bind H.
    destruct Hok as (Hc & Hl & Hhd).
    apply Hrest in H.
    + destruct H as (Hok' & extra & He & Hs & Hb). cbn [new_idxs] in *.
      split; [assumption|]. exists (a :: extra).
      split; [now rewrite He, <- app_assoc|]. split.
      * constructor; [|assumption]. split; [assumption|].
        exists name, ids, cons. split; [now left | auto].
      * intros _. apply Hb. unfold len in *.
        rewrite length_app. cbn. lia.
    + unfold gathered_ok. cbn [new_idxs verb_cmp verb_list].
      rewrite !length_app. cbn [length].
      split; [lia|]. split; [lia|].
      rewrite nth_error_app1; [assumption|].
      apply nth_error_Some. congruence.
Qed.

(** A pass over an empty mapping changes nothing. *)
Lemma gather_train_empty (fuel : nat) (self : Anet_SRL) (curr_verb : string)
    (cons : Z) (g : Gathered) :
  len (new_idxs g) < cs_nvids_sample self ->
  gather_train fuel self curr_verb [] cons g = None.
Proof.
  intros Hlt. revert cons. induction fuel as [|fuel IH]; intros cons; cbn.
  - destruct (Z.ltb_spec (len (new_idxs g)) (cs_nvids_sample self));
      [reflexivity | lia].
  - destruct (Z.ltb_spec (len (new_idxs g)) (cs_nvids_sample self));
      [apply IH | lia].
Qed.

Lemma gather_train_inv (fuel : nat) (self : Anet_SRL) (curr_verb : string)
    (items : MoreIdxs) (cons : Z) (g g' : Gathered) :
  0 <= cons ->
  gather_train fuel self curr_verb items cons g = Some (Ok g') ->
  gathered_ok g ->
  gathered_ok g' /\
  exists extra,
    new_idxs g' = new_idxs g ++ extra /\
    Forall (supplied items) extra /\
    (len (new_idxs g) <= cs_nvids_sample self ->
     len (new_idxs g') = cs_nvids_sample self).
Proof.
  revert cons g. induction fuel as [|fuel IH]; intros cons g Hcons H Hok;
    cbn [gather_train] in H;
    destruct (Z.ltb_spec (len (new_idxs g)) (cs_nvids_sample self))
      as [Hlt | Hge]; try discriminate.
  - inversion H; subst. split; [assumption|].
    exists []. rewrite app_nil_r. split; [reflexivity|].
    split; [constructor | lia].
  - destruct (gather_pass self curr_verb cons items g) as [g1|e] eqn:P;
      [|discriminate].
    destruct (gather_pass_inv _ _ _ _ _ _ Hcons P Hok)
      as (Hok1 & extra1 & He1 & Hs1 & Hb1).
    destruct (IH (cons + 1) g1 ltac:(lia) H Hok1)
      as (Hok' & extra2 & He2 & Hs2 & Hb2).
    split; [assumption|]. exists (extra1 ++ extra2).
    split; [now rewrite He2, He1, <- app_assoc|].
    split; [now apply Forall_app|].
    intros _. apply Hb2, Hb1. lia.
  - inversion H; subst. split; [assumption|].
    exists []. rewrite app_nil_r. split; [reflexivity|].
    split; [constructor | lia].
Qed.

(** Once the slots are filled, a pass reads nothing. *)
Lemma gather_pass_full (self : Anet_SRL) (curr_verb : string) (cons : Z)
    (items : MoreIdxs) (g : Gathered) :
  cs_nvids_sample self <= len (new_idxs g) ->
  gather_pass self curr_verb cons items g = Ok g.
Proof.
  intros Hge. induction items as [|[name ids] items IH]; [reflexivity|].
  cbn [gather_pass].
  destruct (Z.ltb_spec (len (new_idxs g)) (cs_nvids_sample self)); [lia|].
  exact IH.
Qed.

Lemma non_sentinel_app (xs ys : list Z) :
  non_sentinel (xs ++ ys) = non_sentinel xs ++ non_sentinel ys.
Proof. apply filter_app. Qed.

(** What a pass that returns has read: the first missing number of
    non-sentinel entries at position [c], and all of them only if no list
    was exhausted on the way. *)
Lemma gather_pass_reads (self : Anet_SRL) (curr_verb : string) (c : nat)
    (items : MoreIdxs) :
  forall g g' : Gathered,
    gather_pass self curr_verb (Z.of_nat c) items g = Ok g' ->
    len (new_idxs g) <= cs_nvids_sample self ->
    let need := Z.to_nat (cs_nvids_sample self - len (new_idxs g)) in
    new_idxs g'
    = new_idxs g ++ firstn need (non_sentinel (fst (pass_entries items c))) /\
    ((length (non_sentinel (fst (pass_entries items c))) < need)%nat ->
     snd (pass_entries items c) = true).
Proof.
  induction items as [|[name ids] items IH]; intros g g' H Hle need.
  - cbn in H. inversion H; subst g'. cbn.
    rewrite firstn_nil, app_nil_r. auto.
  - cbn [gather_pass] in H.
    destruct (Z.ltb_spec (len (new_idxs g)) (cs_nvids_sample self))
      as [Hlt | Hge].
    + inv_bind H.
      match goal with
      | E : py_index ids _ = Ok ?a |- _ =>
          apply py_index_nonneg_nth in E; [|lia];
          rewrite Nat2Z.id in E; rename a into x; rename E into Hx
      end.
      cbn [pass_entries]. rewrite Hx.
      destruct (pass_entries items c) as [xs full] eqn:Ep.
      cbn [fst snd] in *.
      destruct (Z.eqb_spec x (-1)) as [-> | Hne]; cbn [negb] in H.
      * destruct (IH g g' H Hle) as [Hn Hf]. fold need in Hn, Hf.
        unfold non_sentinel in *. cbn [filter Z.eqb negb].
        change (-1 =? -1) with true. cbn [negb]. auto.
      * inv_bind H.
        apply IH in H; [|unfold len in *; cbn [new_idxs];
                          rewrite length_app; cbn [length]; lia].
        cbn [new_idxs] in H. destruct H as [Hn Hf].
        assert (Hneed : need
                        = S (Z.to_nat (cs_nvids_sample self
                                       - len (new_idxs g ++ [x])))).
        { unfold need, len in *. rewrite length_app. cbn [length]. lia. }
        unfold non_sentinel in *. cbn [filter].
        destruct (Z.eqb_spec x (-1)); [congruence|]. cbn [negb].
        rewrite Hneed. cbn [firstn length]. split.
        -- rewrite Hn, <- app_assoc. reflexivity.
        -- intros Hlt'. apply Hf. lia.
    + rewrite gather_pass_full in H by assumption.
      inversion H; subst g'.
      assert (need = 0%nat) by (unfold need; lia).
      rewrite H0. cbn [firstn]. rewrite app_nil_r. split; [reflexivity|lia].
Qed.

Lemma firstn_app_all {A : Type} (n : nat) (l m : list A) :
  (length l <= n)%nat -> firstn n (l ++ m) = l ++ firstn (n - length l) m.
Proof.
  intros H. rewrite firstn_app, firstn_all2 by assumption. reflexivity.
Qed.

Lemma firstn_app_short {A : Type} (n : nat) (l m : list A) :
  (n <= length l)%nat -> firstn n (l ++ m) = firstn n l.
Proof.
  intros H. rewrite firstn_app.
  replace (n - length l)%nat with 0%nat by lia.
  cbn [firstn]. apply app_nil_r.
Qed.

(** What a loop that stops has read: the first missing number of
    non-sentinel entries of the mapping, all of them met before any list
    was exhausted. *)
Lemma gather_train_reads (self : Anet_SRL) (curr_verb : string)
    (items : MoreIdxs) (fuel : nat) :
  forall (c : nat) (g g' : Gathered),
    gather_train fuel self curr_verb items (Z.of_nat c) g = Some (Ok g') ->
    len (new_idxs g) <= cs_nvids_sample self ->
    let need := Z.to_nat (cs_nvids_sample self - len (new_idxs g)) in
    exists passes : nat,
      (passes <= fuel)%nat /\
      let xs := fst (entries_before_exhaustion passes items c) in
      (need <= length (non_sentinel xs))%nat /\
      new_idxs g' = new_idxs g ++ firstn need (non_sentinel xs).
Proof.
  induction fuel as [|fuel IH]; intros c g g' H Hle need;
    cbn [gather_train] in H;
    destruct (Z.ltb_spec (len (new_idxs g)) (cs_nvids_sample self))
      as [Hlt | Hge]; try discriminate.
  - inversion H; subst g'. exists 0%nat. split; [lia|]. cbn.
    assert (need = 0%nat) by (unfold need; lia).
    rewrite H0. cbn. rewrite app_nil_r. split; [lia|reflexivity].
  - destruct (gather_pass self curr_verb (Z.of_nat c) items g)
      as [g1|e] eqn:P; [|discriminate].
    destruct (gather_pass_reads self curr_verb c items g g1 P Hle)
      as [Hn Hf]. fold need in Hn, Hf.
    assert (Hle1 : len (new_idxs g1) <= cs_nvids_sample self).
    { rewrite Hn. unfold len in *. rewrite length_app, length_firstn.
      unfold need. lia. }
    replace (Z.of_nat c + 1) with (Z.of_nat (S c)) in H by lia.
    destruct (IH (S c) g1 g' H Hle1) as (passes & Hp & Hcount & Hg').
    destruct (pass_entries items c) as [xs1 full] eqn:Ep.
    cbn [fst snd] in *.
    destruct (Nat.le_gt_cases need (length (non_sentinel xs1)))
      as [Henough | Hshort].
    + (* the pass filled the slots *)
      exists 1%nat. split; [lia|]. cbn [entries_before_exhaustion].
      rewrite Ep.
      assert (Hz : Z.to_nat (cs_nvids_sample self - len (new_idxs g1))
                   = 0%nat).
      { rewrite Hn. unfold len in *. rewrite length_app, length_firstn.
        unfold need in *. lia. }
      rewrite Hz in Hg'. cbn [firstn] in Hg'. rewrite app_nil_r in Hg'.
      destruct full; cbn [fst].
      * rewrite app_nil_r. split; [assumption|]. now rewrite Hg'.
      * split; [assumption|]. now rewrite Hg'.
    + (* the pass read a whole column and slots are still missing *)
      rewrite (Hf Hshort) in *.
      rewrite firstn_all2 in Hn by lia.
      exists (S passes). split; [lia|]. cbn [entries_before_exhaustion].
      rewrite Ep.
      destruct (entries_before_exhaustion passes items (S c))
        as [ys ex] eqn:Ee. cbn [fst] in *.
      assert (Hneed1 : Z.to_nat (cs_nvids_sample self - len (new_idxs g1))
                       = (need - length (non_sentinel xs1))%nat).
      { rewrite Hn. unfold len in *. rewrite length_app.
        unfold need in *. lia. }
      rewrite Hneed1 in *.
      rewrite non_sentinel_app, length_app. split; [lia|].
      rewrite firstn_app_all by lia.
      rewrite Hg', Hn, <- app_assoc. reflexivity.
  - inversion H; subst g'. exists 0%nat. split; [lia|]. cbn.
    assert (need = 0%nat) by (unfold need; lia).
    rewrite H0. cbn. rewrite app_nil_r. split; [lia|reflexivity].
Qed.

(** What a pass does when the rows of the candidates can be looked up:
    it returns after the missing number of non-sentinel entries or at
    the end of a complete column, and raises [IndexError] at the first
    exhausted list otherwise. *)
Lemma gather_pass_run (self : Anet_SRL) (curr_verb : string) (c : nat)
    (items : MoreIdxs) :
  forall g : Gathered,
    len (new_idxs g) <= cs_nvids_sample self ->
    let need := Z.to_nat (cs_nvids_sample self - len (new_idxs g)) in
    Forall (fun x => exists v, lemma_verbs self x = Ok v)
      (firstn need (non_sentinel (fst (pass_entries items c)))) ->
    if snd (pass_entries items c)
       || (need <=? length (non_sentinel (fst (pass_entries items c))))%nat
    then exists g', gather_pass self curr_verb (Z.of_nat c) items g = Ok g'
    else gather_pass self curr_verb (Z.of_nat c) items g = Raise IndexError.
Proof.
  induction items as [|[name ids] items IH]; intros g Hle need Hrows.
  - cbn. eauto.
  - cbn [gather_pass pass_entries] in *.
    destruct (Z.ltb_spec (len (new_idxs g)) (cs_nvids_sample self))
      as [Hlt | Hge].
    + destruct (nth_error ids c) as [x|] eqn:Hx.
      * rewrite (py_index_nth _ _ _ Hx). cbn [bind].
        destruct (pass_entries items c) as [xs full] eqn:Ep.
        cbn [fst snd] in *. unfold non_sentinel in *. cbn [filter] in *.
        destruct (Z.eqb_spec x (-1)) as [-> | Hne]; cbn [negb] in *.
        -- apply (IH g Hle). exact Hrows.
        -- assert (Hneed : need
                           = S (Z.to_nat (cs_nvids_sample self
                                          - len (new_idxs g ++ [x])))).
           { unfold need, len in *. rewrite length_app. cbn [length]. lia. }
           rewrite Hneed in Hrows |- *. cbn [firstn length] in Hrows |- *.
           inversion Hrows as [|? ? [v Hv] Hrest]; subst.
           rewrite Hv. cbn [bind].
           match goal with
           | |- context [gather_pass _ _ _ _ ?g1] =>
               specialize (IH g1); cbn [new_idxs] in IH
           end.
           change (S ?a <=? S ?b)%nat with (a <=? b)%nat.
           apply IH; [|exact Hrest].
           unfold len in *. rewrite length_app. cbn [length]. lia.
      * rewrite py_index_out_of_range by
          (apply nth_error_None in Hx; unfold len; lia).
        cbn [fst snd non_sentinel filter length orb].
        destruct (Nat.leb_spec need 0); [unfold need in *; lia|reflexivity].
    + rewrite gather_pass_full by assumption.
      assert (Hz : need = 0%nat) by (unfold need; lia).
      rewrite Hz. cbn [Nat.leb]. rewrite orb_true_r. eauto.
Qed.

(** The same for the loop, pass after pass: with the rows of the
    candidates at hand, it returns as soon as the mapping has supplied
    the missing number of non-sentinel entries, and raises [IndexError]
    if a list is exhausted before. *)
Lemma gather_train_run (self : Anet_SRL) (curr_verb : string)
    (items : MoreIdxs) (passes : nat) :
  forall (c : nat) (g : Gathered),
    len (new_idxs g) <= cs_nvids_sample self ->
    let need := Z.to_nat (cs_nvids_sample self - len (new_idxs g)) in
    let xs := fst (entries_before_exhaustion passes items c) in
    let exhausted := snd (entries_before_exhaustion passes items c) in
    Forall (fun x => exists v, lemma_verbs self x = Ok v)
      (firstn need (non_sentinel xs)) ->
    forall fuel : nat,
      (passes <= fuel)%nat ->
      ((need <= length (non_sentinel xs))%nat ->
       exists g',
         gather_train fuel self curr_verb items (Z.of_nat c) g
         = Some (Ok g')) /\
      ((length (non_sentinel xs) < need)%nat -> exhausted = true ->
       gather_train fuel self curr_verb items (Z.of_nat c) g
       = Some (Raise IndexError)).
Proof.
  induction passes as [|passes IH]; intros c g Hle need xs exhausted Hrows
    fuel Hfuel.
  - subst xs exhausted. cbn in *. split.
    + intros Hneed. assert (need = 0%nat) by lia.
      exists g. destruct fuel; cbn [gather_train];
        destruct (Z.ltb_spec (len (new_idxs g)) (cs_nvids_sample self));
        (reflexivity || (unfold need in *; lia)).
    + discriminate.
  - subst xs exhausted. cbn [entries_before_exhaustion] in *.
    destruct fuel as [|fuel]; [lia|]. cbn [gather_train].
    destruct (Z.ltb_spec (len (new_idxs g)) (cs_nvids_sample self))
      as [Hlt | Hge].
    2:{ split; [eauto|]. intros Hshort. unfold need in *. lia. }
    pose proof (gather_pass_run self curr_verb c items g Hle) as Hpass.
    pose proof (gather_pass_reads self curr_verb c items g) as Hreads.
    fold need in Hpass, Hreads.
    destruct (pass_entries items c) as [xs1 full] eqn:Ep.
    cbn [fst snd] in *.
    destruct full.
    + (* a complete column *)
      destruct (entries_before_exhaustion passes items (S c))
        as [ys ex] eqn:Ee. cbn [fst snd] in *.
      rewrite non_sentinel_app in *. rewrite length_app.
      assert (Hrows1 : Forall (fun x => exists v, lemma_verbs self x = Ok v)
                         (firstn need (non_sentinel xs1))).
      { destruct (Nat.le_gt_cases need (length (non_sentinel xs1))).
        - now rewrite firstn_app_short in Hrows by assumption.
        - rewrite firstn_app_all in Hrows by lia.
          apply Forall_app in Hrows. destruct Hrows as [Hr _].
          now rewrite firstn_all2 by lia. }
      cbn [orb] in Hpass. destruct (Hpass Hrows1) as [g1 P]. rewrite P.
      destruct (Hreads g1 P Hle) as [Hn _].
      replace (Z.of_nat c + 1) with (Z.of_nat (S c)) by lia.
      assert (Hle1 : len (new_idxs g1) <= cs_nvids_sample self).
      { rewrite Hn. unfold len in *. rewrite length_app, length_firstn.
        unfold need. lia. }
      specialize (IH (S c) g1 Hle1). rewrite Ee in IH. cbn [fst snd] in IH.
      assert (Hneed1 : Z.to_nat (cs_nvids_sample self - len (new_idxs g1))
                       = (need - length (non_sentinel xs1))%nat).
      { rewrite Hn. unfold len in *. rewrite length_app, length_firstn.
        unfold need in *. lia. }
      rewrite Hneed1 in IH.
      assert (Hrows2 : Forall (fun x => exists v, lemma_verbs self x = Ok v)
                         (firstn (need - length (non_sentinel xs1))
                            (non_sentinel ys))).
      { destruct (Nat.le_gt_cases need (length (non_sentinel xs1))).
        - replace (need - length (non_sentinel xs1))%nat with 0%nat by lia.
          constructor.
        - rewrite firstn_app_all in Hrows by lia.
          apply Forall_app in Hrows. tauto. }
      destruct (IH Hrows2 fuel ltac:(lia)) as [Hok Hraise].
      split.
      * intros Hneed. apply Hok. lia.
      * intros Hshort Hex. apply Hraise; [lia|assumption].
    + (* a list is exhausted in this pass *)
      cbn [orb] in Hpass. cbn [fst snd] in *.
      destruct (Nat.leb_spec need (length (non_sentinel xs1)))
        as [Henough | Hshort].
      * destruct (Hpass Hrows) as [g1 P]. rewrite P.
        destruct (Hreads g1 P Hle) as [Hn _].
        split; [|intros; lia]. intros _.
        replace (Z.of_nat c + 1) with (Z.of_nat (S c)) by lia.
        exists g1. destruct fuel; cbn [gather_train];
          destruct (Z.ltb_spec (len (new_idxs g1)) (cs_nvids_sample self));
          try reflexivity;
          rewrite Hn in *; unfold len in *;
          rewrite length_app, length_firstn in *; unfold need in *; lia.
      * rewrite (Hpass Hrows). split; [intros; lia|reflexivity].
Qed.

(** C10.  On the train split the gathering loop stops only when the
    mapping supplies the missing candidates before any per-argument list
    is exhausted.  If the loop stops, the entries it appended are exactly
    the first [cs_nvids_sample - len(new_idxs)] non-sentinel entries of
    the mapping in reading order (pass by pass, list by list), every one
    of them met before any list ran out.  With an empty mapping and
    [cs_nvids_sample > 1] the loop never stops, whatever the number of
    iterations allowed, and neither does [verb_item_getter_nvid].  When
    a list is exhausted, wherever it stands in the mapping, before that
    many non-sentinel entries were met, the loop raises an out-of-range
    [IndexError] instead of ending the gathering; and when the mapping
    does supply them, the loop returns (the rows of the candidates being
    in the table). *)
Theorem gather_train_termination :
  (forall (fuel : nat) (self : Anet_SRL) (curr_verb : string)
          (items : MoreIdxs) (g g' : Gathered),
      gather_train fuel self curr_verb items 0 g = Some (Ok g') ->
      let need := Z.to_nat (cs_nvids_sample self - len (new_idxs g)) in
      exists passes : nat,
        (passes <= fuel)%nat /\
        let xs := fst (entries_before_exhaustion passes items 0) in
        (need <= length (non_sentinel xs))%nat /\
        new_idxs g' = new_idxs g ++ firstn need (non_sentinel xs)) /\
  (forall (fuel : nat) (self : Anet_SRL) (curr_verb : string) (cons : Z)
          (g : Gathered),
      len (new_idxs g) < cs_nvids_sample self ->
      gather_train fuel self curr_verb [] cons g = None) /\
  (forall (fuel : nat) (self : Anet_SRL) (rnd : Draws) (idx : Z)
          (curr_verb : string),
      split_type self = Train ->
      1 < cs_nvids_sample self ->
      more_idx_collector self rnd idx = Ok [] ->
      lemma_verbs self idx = Ok curr_verb ->
      verb_item_getter_nvid fuel self rnd idx = None) /\
  (forall (self : Anet_SRL) (curr_verb : string) (items : MoreIdxs)
          (g : Gathered) (passes : nat),
      let need := Z.to_nat (cs_nvids_sample self - len (new_idxs g)) in
      let xs := fst (entries_before_exhaustion passes items 0) in
      snd (entries_before_exhaustion passes items 0) = true ->
      (length (non_sentinel xs) < need)%nat ->
      Forall (fun x => exists v, lemma_verbs self x = Ok v)
        (non_sentinel xs) ->
      forall fuel : nat,
        (passes <= fuel)%nat ->
        gather_train fuel self curr_verb items 0 g
        = Some (Raise IndexError)) /\
  (forall (self : Anet_SRL) (curr_verb : string) (items : MoreIdxs)
          (g : Gathered) (passes : nat),
      let need := Z.to_nat (cs_nvids_sample self - len (new_idxs g)) in
      let xs := fst (entries_before_exhaustion passes items 0) in
      (need <= length (non_sentinel xs))%nat ->
      Forall (fun x => exists v, lemma_verbs self x = Ok v)
        (firstn need (non_sentinel xs)) ->
      forall fuel : nat,
        (passes <= fuel)%nat ->
        exists g',
          gather_train fuel self curr_verb items 0 g = Some (Ok g')) /\
  (forall (fuel : nat) (self : Anet_SRL) (curr_verb : string) (cons : Z)
          (name : string) (ids : list Z) (items : MoreIdxs) (g : Gathered),
      len (new_idxs g) < cs_nvids_sample self ->
      0 <= cons ->
      len ids <= cons ->
      gather_train (S fuel) self curr_verb ((name, ids) :: items) cons g
      = Some (Raise IndexError)).
Proof.
  split; [|split; [|split; [|split; [|split]]]].
  - intros fuel self cv items g g' H need.
    destruct (Z.le_gt_cases (len (new_idxs g)) (cs_nvids_sample self))
      as [Hle | Hgt].
    + exact (gather_train_reads self cv items fuel 0%nat g g' H Hle).
    + exists 0%nat. split; [lia|]. cbn.
      assert (Hz : need = 0%nat) by (unfold need; lia).
      rewrite Hz. cbn. rewrite app_nil_r. split; [lia|].
      destruct fuel; cbn [gather_train] in H;
        destruct (Z.ltb_spec (len (new_idxs g)) (cs_nvids_sample self));
        try lia; now inversion H.
  - intros fuel self cv cons g Hlt. now apply gather_train_empty.
  - intros fuel self rnd idx cv Hsplit Hcs Hmore Hverb.
    unfold verb_item_getter_nvid, gather.
    rewrite Hmore, Hverb, Hsplit, gather_train_empty; [reflexivity|].
    cbn. lia.
  - intros self cv items g passes need xs Hex Hshort Hrows fuel Hfuel.
    assert (Hle : len (new_idxs g) <= cs_nvids_sample self)
      by (unfold need in Hshort; lia).
    apply (gather_train_run self cv items passes 0%nat g Hle);
      try assumption.
    fold need xs. rewrite firstn_all2 by lia. exact Hrows.
  - intros self cv items g passes need xs Hneed Hrows fuel Hfuel.
    destruct (Z.le_gt_cases (len (new_idxs g)) (cs_nvids_sample self))
      as [Hle | Hgt].
    + apply (gather_train_run self cv items passes 0%nat g Hle);
        assumption.
    + exists g. destruct fuel; cbn [gather_train];
        destruct (Z.ltb_spec (len (new_idxs g)) (cs_nvids_sample self));
        (reflexivity || lia).
  - intros fuel self cv cons name ids items g Hlt Hcons Hlen.
    cbn [gather_train gather_pass].
    destruct (Z.ltb_spec (len (new_idxs g)) (cs_nvids_sample self)); [|lia].
    now rewrite py_index_out_of_range.
Qed.

Lemma example_gathered_ok : gathered_ok example_gathered.
Proof. repeat split. Qed.

Lemma gather_train_termination_witness :
  (exists g',
      gather_train 5 (example_srl Train 2 false) "play"
        [("ARG0"%string, [7; 8; 7])] 0 example_gathered = Some (Ok g') /\
      new_idxs g' = [0; 7]) /\
  verb_item_getter_nvid 1000 (example_srl Train 3 false) empty_draws 0 = None /\
  gather_train 1 (example_srl Train 3 false) "play"
    [("ARG0"%string, [7; 8]); ("ARG1"%string, [])] 0 example_gathered
  = Some (Raise IndexError) /\
  (exists g',
      gather_train 2 (example_srl Train 3 false) "play"
        [("ARG0"%string, [-1; 8]); ("ARG1"%string, [7])] 0 example_gathered
      = Some (Ok g')) /\
  gather_train 4 (example_srl Train 3 false) "play"
    [("ARG0"%string, [7])] 1
    {| new_idxs := [0; 7]; verb_cmp := [1; 1];
       verb_list := ["play"; "play"]%string |}
  = Some (Raise IndexError).
Proof.
  destruct gather_train_termination
    as (Hstop & _ & Hloop & Hexhausted & Hsupplied & Hraise).
  split; [|split; [|split; [|split]]].
  - destruct (gather_train 5 (example_srl Train 2 false) "play"
                [("ARG0"%string, [7; 8; 7])] 0 example_gathered)
      as [[g'|e]|] eqn:E; try (vm_compute in E; discriminate E).
    exists g'. split; [reflexivity|].
    destruct (Hstop 5%nat (example_srl Train 2 false) "play"%string
                [("ARG0"%string, [7; 8; 7])] example_gathered g' E)
      as (passes & Hp & Hcount & Hg').
    vm_compute in E. inversion E. reflexivity.
  - apply (Hloop 1000%nat (example_srl Train 3 false) empty_draws 0
             "play"%string); try reflexivity.
  - apply (Hexhausted (example_srl Train 3 false) "play"%string
             [("ARG0"%string, [7; 8]); ("ARG1"%string, [])]
             example_gathered 1%nat).
    + reflexivity.
    + cbn. lia.
    + repeat constructor. exists "play"%string. reflexivity.
    + lia.
  - apply (Hsupplied (example_srl Train 3 false) "play"%string
             [("ARG0"%string, [-1; 8]); ("ARG1"%string, [7])]
             example_gathered 2%nat).
    + cbn. lia.
    + repeat constructor; eexists; reflexivity.
    + lia.
  - apply (Hraise 3%nat (example_srl Train 3 false) "play"%string 1
             "ARG0"%string [7] []); cbn; lia.
Defined.

(** ** Permutations and [argsort] *)

Lemma combine_arange_nth {A : Type} (l : list A) (s i : nat) :
  nth_error (combine l (map Z.of_nat (seq s (length l)))) i
  = match nth_error l i with
    | Some a => Some (a, Z.of_nat (s + i))
    | None => None
    end.
Proof.
  revert s i. induction l as [|a l IH]; intros s [|i]; cbn; auto.
  - now rewrite Nat.add_0_r.
  - rewrite IH. destruct (nth_error l i); [|reflexivity].
    do 3 f_equal. lia.
Qed.

(** The head of an insertion-sorted list has the least key. *)
Lemma insert_by_head (l : list (Z * Z)) :
  l <> [] ->
  exists p rest,
    fold_right insert_by [] l = p :: rest /\
    In p l /\
    forall q, In q l -> fst p <= fst q.
Proof.
  induction l as [|x l IH]; [congruence|]. intros _.
  destruct l as [|y l].
  - exists x, []. cbn [fold_right insert_by]. split; [reflexivity|].
    split; [now left|].
    intros q [<- | []]. apply Z.le_refl.
  - destruct IH as (p & rest & Hs & Hin & Hmin); [discriminate|].
    cbn [fold_right] in *. rewrite Hs. cbn [insert_by].
    destruct (Z.leb_spec (fst x) (fst p)) as [Hle | Hgt].
    + exists x, (p :: rest). split; [reflexivity|]. split; [now left|].
      intros q [<- | Hq]; [lia|]. specialize (Hmin q Hq). lia.
    + exists p, (insert_by x rest). split; [reflexivity|].
      split; [now right|].
      intros q [<- | Hq]; [lia | auto].
Qed.

(** On a permutation of [0 .. n-1], the first entry of [argsort] is the
    position of 0. *)
Lemma argsort_head (perm : list Z) (n : nat) (t : Z) :
  Permutation perm (arange n) ->
  py_index (argsort perm) 0 = Ok t ->
  exists i : nat,
    t = Z.of_nat i /\ nth_error perm i = Some 0.
Proof.
  intros Hperm Ht. unfold argsort in Ht.
  destruct perm as [|v0 perm'] eqn:Eperm.
  { cbn in Ht. discriminate. }
  rewrite <- Eperm in *.
  set (pairs := combine perm (arange (length perm))) in *.
  assert (Hne : pairs <> []).
  { unfold pairs. rewrite Eperm. cbn. discriminate. }
  destruct (insert_by_head pairs Hne) as (p & rest & Hs & Hin & Hmin).
  rewrite Hs in Ht. cbn in Ht. inversion Ht; subst t; clear Ht.
  apply In_nth_error in Hin. destruct Hin as [i Hi].
  unfold pairs, arange in Hi. rewrite combine_arange_nth in Hi.
  destruct (nth_error perm i) as [v|] eqn:Hv; [|discriminate].
  inversion Hi; subst p; clear Hi. cbn [fst snd] in *.
  exists i. split; [reflexivity|].
  assert (Hn : (0 < n)%nat).
  { apply Permutation_length in Hperm. rewrite Eperm in Hperm.
    unfold arange in Hperm. rewrite length_map, length_seq in Hperm.
    cbn in Hperm. lia. }
  assert (H0 : In 0 perm).
  { eapply Permutation_in; [symmetry; exact Hperm|].
    unfold arange. apply in_map_iff. exists 0%nat.
    split; [reflexivity|]. apply in_seq. lia. }
  apply In_nth_error in H0. destruct H0 as [j Hj].
  assert (Hq : In (0, Z.of_nat j) pairs).
  { apply nth_error_In with (n := j). unfold pairs, arange.
    rewrite combine_arange_nth, Hj. reflexivity. }
  specialize (Hmin _ Hq). cbn [fst] in Hmin.
  assert (Hv0 : 0 <= v).
  { assert (Hin : In v (arange n)).
    { eapply Permutation_in; [exact Hperm|].
      eapply nth_error_In; eassumption. }
    unfold arange in Hin. apply in_map_iff in Hin.
    destruct Hin as (k & <- & _). lia. }
  rewrite Hv. f_equal. lia.
Qed.

Lemma sum_list_app (l m : list Z) :
  sum_list (l ++ m) = sum_list l + sum_list m.
Proof. unfold sum_list. induction l; cbn; lia. Qed.

Lemma sum_list_repeat (x : Z) (n : nat) :
  sum_list (repeat x n) = x * Z.of_nat n.
Proof. unfold sum_list. induction n; cbn [repeat fold_right]; lia. Qed.

(** ** Multi-video composer *)

Lemma collate_dict_list_num {A : Type} (l p : list A) (pad_len n : Z) :
  collate_dict_list l pad_len = Ok (p, n) -> n = len l.
Proof.
  unfold collate_dict_list. destruct l as [|d0 l]; [discriminate|].
  intros H. inv_bind H. now inversion H.
Qed.

Lemma np_pad_after_inv (cols : nat) (m m' : list (list Z)) (k : Z) :
  np_pad_after cols m k = Ok m' -> 0 <= k.
Proof.
  unfold np_pad_after. destruct (Z.ltb_spec k 0); [discriminate | lia].
Qed.

Lemma arange_length (n : nat) : length (arange n) = n.
Proof. unfold arange. now rewrite length_map, length_seq. Qed.

(** The bookkeeping of an assembled multi-video example. *)
Lemma compose_invariant (self : Anet_SRL) (rnd : Draws) (idx : Z)
    (g : Gathered) (out : NvidOut) :
  valid_draws rnd ->
  gathered_ok g ->
  compose self rnd idx g = Ok out ->
  sum_list (num_cmp_msk out) = num_cmp out /\
  py_index (out_verb_cmp out) (target_cmp out) = Ok 1 /\
  0 <= target_cmp out < num_cmp out /\
  num_cmp out <= cs_nvids_sample self /\
  len (num_cmp_msk out) = cs_nvids_sample self.
Proof.
  intros [_ Hrand] (Hc & Hl & Hhd) H. unfold compose in H.
  set (n := length (new_idxs g)) in *.
  set (perm := if cs_shuffle self then randperm rnd n else arange n) in *.
  assert (Hperm : Permutation perm (arange n)).
  { unfold perm. destruct (cs_shuffle self); [apply Hrand | reflexivity]. }
  assert (Hplen : length perm = n).
  { rewrite (Permutation_length Hperm). apply arange_length. }
  repeat inv_bind H.
  inversion H; subst out; clear H.
  cbn [num_cmp_msk num_cmp out_verb_cmp target_cmp].
  match goal with
  | E : py_index (argsort perm) 0 = Ok ?t |- _ =>
      rename E into Etarg; rename t into targ
  end.
  match goal with
  | E : shuffle_list_from_perm (new_idxs g) perm = Ok _ |- _ =>
      rename E into Eidxs
  end.
  match goal with
  | E : shuffle_list_from_perm (verb_cmp g) perm = Ok ?v |- _ =>
      rename E into Evc; rename v into vc'
  end.
  match goal with
  | E : mapM (simple_item_getter _) _ = Ok _ |- _ => rename E into Edicts
  end.
  match goal with
  | E : mapM _ _ = Ok ?a, Ed : mapM (simple_item_getter _) ?a = Ok _ |- _ =>
      rename E into Eann
  end.
  match goal with
  | E : collate_dict_list _ _ = Ok (_, ?k) |- _ =>
      rename E into Ecoll; rename k into ncmp
  end.
  match goal with
  | E : pad_words_with_vocab vc' _ _ _ = Ok ?v |- _ =>
      rename E into Evpad; rename v into vpad
  end.
  match goal with
  | E : np_pad_after _ (np_eye _) _ = Ok _ |- _ => rename E into Earr
  end.
  apply collate_dict_list_num in Ecoll.
  apply np_pad_after_inv in Earr.
  assert (Hn : ncmp = Z.of_nat n).
  { subst ncmp. unfold len.
    rewrite (mapM_length _ _ _ Edicts), (mapM_length _ _ _ Eann).
    unfold shuffle_list_from_perm in Eidxs.
    now rewrite (mapM_length _ _ _ Eidxs), Hplen. }
  destruct (argsort_head perm n targ Hperm Etarg) as (i & -> & Hi).
  assert (Hin : (i < n)%nat).
  { rewrite <- Hplen. apply nth_error_Some. congruence. }
  unfold shuffle_list_from_perm in Evc.
  destruct (mapM_nth _ _ _ _ _ Evc Hi) as (y & Hy & Hvc).
  pose proof (py_index_nth _ 0%nat 1 Hhd) as Hfirst.
  change (Z.of_nat 0) with 0 in Hfirst.
  rewrite Hfirst in Hy. inversion Hy; subst y; clear Hy.
  assert (Hcs : 0 <= cs_nvids_sample self) by lia.
  rewrite pad_nonneg in Evpad by assumption.
  inversion Evpad; subst vpad; clear Evpad.
  assert (Hvlen : length vc' = n)
    by (rewrite (mapM_length _ _ _ Evc); exact Hplen).
  rewrite !list_mul_single.
  split; [|split; [|split; [|split]]].
  - rewrite sum_list_app, !sum_list_repeat. lia.
  - apply py_index_nth.
    rewrite nth_error_app1 by (rewrite length_firstn; lia).
    rewrite nth_error_firstn.
    destruct (Nat.ltb_spec i (Z.to_nat (cs_nvids_sample self)));
      [assumption | lia].
  - lia.
  - lia.
  - unfold len. rewrite length_app, !repeat_length. lia.
Qed.

Lemma gather_ok (fuel : nat) (self : Anet_SRL) (curr_verb : string)
    (more_idxs : MoreIdxs) (g g' : Gathered) :
  gather fuel self curr_verb more_idxs g = Some (Ok g') ->
  gathered_ok g -> gathered_ok g'.
Proof.
  unfold gather. intros H Hok. destruct (split_type self).
  - now destruct (gather_train_inv _ _ _ _ _ _ _ (Z.le_refl 0) H Hok).
  - inversion H as [H1].
    now destruct (gather_pass_inv _ _ _ _ _ _ (Z.le_refl 0) H1 Hok).
  - inversion H as [H1].
    now destruct (gather_pass_inv _ _ _ _ _ _ (Z.le_refl 0) H1 Hok).
Qed.

(** C4.  For every example produced by [verb_item_getter_nvid], on any
    split and for any permutation drawn when shuffling is on, the sum of
    [num_cmp_msk] is [num_cmp], and [verb_cmp[target_cmp] == 1]: the slot
    where the target index landed carries the verb flag 1.  Moreover
    [0 <= target_cmp < num_cmp <= cs_nvids_sample], the length of the
    mask. *)
Theorem verb_item_getter_nvid_invariant :
  forall (fuel : nat) (self : Anet_SRL) (rnd : Draws) (idx : Z)
         (out : NvidOut),
    valid_draws rnd ->
    verb_item_getter_nvid fuel self rnd idx = Some (Ok out) ->
    sum_list (num_cmp_msk out) = num_cmp out /\
    py_index (out_verb_cmp out) (target_cmp out) = Ok 1 /\
    0 <= target_cmp out < num_cmp out /\
    num_cmp out <= cs_nvids_sample self /\
    len (num_cmp_msk out) = cs_nvids_sample self.
Proof.
  intros fuel self rnd idx out Hrnd H. unfold verb_item_getter_nvid in H.
  destruct (more_idx_collector self rnd idx) as [more|e]; [|discriminate].
  destruct (lemma_verbs self idx) as [curr_verb|e]; [|discriminate].
  destruct (gather fuel self curr_verb more _) as [[g|e]|] eqn:G;
    try discriminate.
  inversion H as [Hc]; clear H.
  eapply compose_invariant; [exact Hrnd | | exact Hc].
  eapply gather_ok; [exact G|]. repeat split.
Qed.

Lemma verb_item_getter_nvid_invariant_witness :
  exists out,
    verb_item_getter_nvid 5 (example_srl Train 3 true) example_draws 0
    = Some (Ok out) /\
    permute out = [2; 1; 0] /\
    target_cmp out = 2 /\
    out_verb_cmp out = [0; 1; 1] /\
    sum_list (num_cmp_msk out) = num_cmp out /\
    py_index (out_verb_cmp out) (target_cmp out) = Ok 1.
Proof.
  destruct (verb_item_getter_nvid 5 (example_srl Train 3 true)
              example_draws 0) as [[out|e]|] eqn:E.
  - exists out. split; [reflexivity|].
    destruct (verb_item_getter_nvid_invariant 5 (example_srl Train 3 true)
                example_draws 0 out)
      as (Hsum & Htarg & _).
    + apply firstn_draws_valid; reflexivity.
    + exact E.
    + vm_compute in E. inversion E; subst out.
      repeat split; assumption.
  - vm_compute in E. discriminate E.
  - vm_compute in E. discriminate E.
Defined.

(** * Further properties of the loader *)

(** ** Proposals: unpadding and the threshold *)

(** X1.  Slicing the padded proposals and the padded mask of [get_props]
    to the returned [num_props] gives back the selected detections (the
    first [nd] stored rows, cut to [max_proposals]) and their inclusion
    bits: no filler row survives the slice, and when the selection fits
    [max_proposals] it is returned whole. *)
Theorem get_props_unpad :
  forall (self : AnetEntDataset) (index nd : Z) (dets : list (list Q)),
    py_index (num_proposals self) index = Ok nd ->
    py_index (label_proposals self) index = Ok dets ->
    0 <= nd ->
    Forall (fun r => length r = 7%nat) dets ->
    0 <= max_proposals self ->
    exists props mask n,
      get_props self index = Ok (props, mask, n) /\
      py_prefix props n = py_prefix (py_prefix dets nd) (max_proposals self) /\
      py_prefix mask n
      = map (included self)
          (py_prefix (py_prefix dets nd) (max_proposals self)) /\
      (len (py_prefix dets nd) <= max_proposals self ->
       py_prefix props n = py_prefix dets nd).
Proof.
  intros self index nd dets Hn Hl Hnd Hrows Hmax.
  rewrite (get_props_eq self index nd dets Hn Hl Hnd Hrows Hmax).
  do 3 eexists. split; [reflexivity|].
  set (sel := firstn (Z.to_nat nd) dets).
  set (k := Z.to_nat (max_proposals self)).
  pose proof (len_nonneg sel) as Hsel.
  rewrite !py_prefix_nonneg by lia. fold sel k.
  assert (Hk : Z.to_nat (Z.min (len sel) (max_proposals self))
               = Nat.min (length sel) k) by (unfold len, k; lia).
  rewrite Hk.
  assert (P1 : firstn (Nat.min (length sel) k)
                 (firstn k sel ++ repeat (repeat 0%Q 7) (k - length sel))
               = firstn k sel).
  { rewrite firstn_app, length_firstn.
    replace (Nat.min (length sel) k - Nat.min k (length sel))%nat
      with 0%nat by lia.
    cbn [firstn]. rewrite app_nil_r, firstn_firstn.
    destruct (Nat.le_ge_cases (length sel) k).
    - rewrite Nat.min_l by lia. now rewrite !firstn_all2 by lia.
    - f_equal. lia. }
  split; [exact P1|]. split.
  - rewrite firstn_app, length_firstn, length_map.
    replace (Nat.min (length sel) k - Nat.min k (length sel))%nat
      with 0%nat by lia.
    cbn [firstn]. rewrite app_nil_r, firstn_firstn, <- firstn_map.
    destruct (Nat.le_ge_cases (length sel) k).
    + rewrite Nat.min_l by lia.
      now rewrite !firstn_all2 by (rewrite ?length_map; lia).
    + f_equal. lia.
  - intros Hfit. rewrite P1. unfold len in Hfit.
    apply firstn_all2. unfold k. lia.
Qed.

Lemma get_props_unpad_witness :
  exists props mask n,
    get_props example_dataset 0 = Ok (props, mask, n) /\
    py_prefix props n
    = [ [1; 2; 3; 4; 0; 1; 9 # 10]; [1; 2; 3; 4; 1; 0; 1 # 10] ]%Q.
Proof.
  destruct (get_props_unpad example_dataset 0 2
              [ [1; 2; 3; 4; 0; 1; 9 # 10];
                [1; 2; 3; 4; 1; 0; 1 # 10];
                [0; 0; 0; 0; 0; 0; 0] ]%Q)
    as (props & mask & n & H1 & H2 & _).
  - reflexivity.
  - reflexivity.
  - lia.
  - repeat constructor.
  - unfold max_proposals. cbn. lia.
  - exists props, mask, n. split; [exact H1|]. rewrite H2. reflexivity.
Defined.

Lemma included_antitone (self : AnetEntDataset) (t : Q) (row : list Q) :
  (prop_thresh self <= t)%Q ->
  included (with_prop_thresh self t) row = true ->
  included self row = true.
Proof.
  intros Ht H. apply included_iff in H. apply included_iff.
  cbn [prop_thresh exclude_bgd_det with_prop_thresh] in H.
  destruct H as [H1 H2]. split; [|exact H2].
  eapply Qle_trans; eassumption.
Qed.

(** X2.  The proposal mask is monotone in the threshold: with a higher
    [prop_thresh] and everything else unchanged, [get_props] returns the
    same padded proposals and the same [num_props], and every mask bit
    that is 1 was already 1 under the lower threshold. *)
Theorem get_props_thresh_monotone :
  forall (self : AnetEntDataset) (t : Q) (index nd : Z)
         (dets : list (list Q)),
    py_index (num_proposals self) index = Ok nd ->
    py_index (label_proposals self) index = Ok dets ->
    0 <= nd ->
    Forall (fun r => length r = 7%nat) dets ->
    0 <= max_proposals self ->
    (prop_thresh self <= t)%Q ->
    exists props mask mask' n,
      get_props self index = Ok (props, mask, n) /\
      get_props (with_prop_thresh self t) index = Ok (props, mask', n) /\
      forall j : nat,
        nth_error mask' j = Some true -> nth_error mask j = Some true.
Proof.
  intros self t index nd dets Hn Hl Hnd Hrows Hmax Ht.
  rewrite (get_props_eq self index nd dets Hn Hl Hnd Hrows Hmax).
  rewrite (get_props_eq (with_prop_thresh self t) index nd dets Hn Hl Hnd
             Hrows Hmax).
  do 4 eexists. split; [reflexivity|]. split; [reflexivity|].
  set (sel := firstn (Z.to_nat nd) dets).
  change (max_proposals (with_prop_thresh self t)) with (max_proposals self).
  set (k := Z.to_nat (max_proposals self)).
  intros j Hj.
  destruct (Nat.ltb_spec j (length (firstn k sel))) as [Hlt | Hge].
  - rewrite nth_error_app1 in Hj by (rewrite length_firstn, length_map in *; lia).
    rewrite nth_error_app1 by (rewrite length_firstn, length_map in *; lia).
    rewrite nth_error_firstn in *.
    destruct (Nat.ltb j k); [|discriminate].
    rewrite nth_error_map in *.
    destruct (nth_error sel j) as [row|]; [|discriminate].
    cbn in *. inversion Hj as [Hinc].
    now rewrite Hinc, (included_antitone self t row Ht Hinc).
  - rewrite nth_error_app2 in Hj
      by (rewrite length_firstn, length_map in *; lia).
    apply in_repeat_eq in Hj. discriminate.
Qed.

Lemma get_props_thresh_monotone_witness :
  exists props mask mask' n,
    get_props example_dataset 0 = Ok (props, mask, n) /\
    get_props (with_prop_thresh example_dataset (95 # 100)) 0
    = Ok (props, mask', n) /\
    forall j : nat,
      nth_error mask' j = Some true -> nth_error mask j = Some true.
Proof.
  apply (get_props_thresh_monotone example_dataset (95 # 100) 0 2
           [ [1; 2; 3; 4; 0; 1; 9 # 10];
             [1; 2; 3; 4; 1; 0; 1 # 10];
             [0; 0; 0; 0; 0; 0; 0] ]%Q).
  - reflexivity.
  - reflexivity.
  - lia.
  - repeat constructor.
  - unfold max_proposals. cbn. lia.
  - cbn. unfold Qle. cbn. lia.
Defined.

(** ** Frame mask of an assembled example *)

Lemma np_col_prefix_nth (rows : list (list Q)) (hi : Z) (c i : nat)
    (col : list Q) (r : list Q) (x : Q) :
  0 <= hi ->
  np_col_prefix rows hi (Z.of_nat c) = Ok col ->
  (Z.of_nat i < hi) ->
  nth_error rows i = Some r ->
  nth_error r c = Some x ->
  nth_error col i = Some x /\ length col = Nat.min (Z.to_nat hi) (length rows).
Proof.
  intros Hhi H Hi Hr Hx. unfold np_col_prefix in H.
  destruct rows as [|r0 rows0] eqn:E; [discriminate|]. rewrite <- E in *.
  inv_bind H. rewrite py_prefix_nonneg in H by assumption.
  assert (Hf : nth_error (firstn (Z.to_nat hi) rows) i = Some r).
  { rewrite nth_error_firstn.
    destruct (Nat.ltb_spec i (Z.to_nat hi)); [assumption | lia]. }
  destruct (mapM_nth _ _ _ _ _ H Hf) as (y & Hy & Hcol).
  rewrite (py_index_nth _ _ _ Hx) in Hy. inversion Hy; subst y.
  split; [assumption|].
  now rewrite (mapM_length _ _ _ H), length_firstn.
Qed.

(** X3.  Inside the block of real proposals and real boxes, the padded
    frame mask of an assembled example is the frame comparison itself:
    for a proposal row [i < num_props] and a box row [j < num_box] that
    is among the rows kept, the entry is 1 when their frame indices
    (column 4) differ and 0 when they are equal. *)
Theorem simple_item_getter_frm_mask_block :
  forall (self : AnetEntDataset) (idx : Z) (item : Item) (i j : nat)
         (rp rg : list Q) (fp fg : Q),
    simple_item_getter self idx = Ok item ->
    Z.of_nat i < item_num_props item ->
    Z.of_nat j < item_num_box item ->
    nth_error (pad_proposals item) i = Some rp ->
    nth_error (pad_gt_bboxs item) j = Some rg ->
    nth_error rp 4 = Some fp ->
    nth_error rg 4 = Some fg ->
    exists row,
      nth_error (pad_frm_mask item) i = Some row /\
      nth_error row j = Some (Z.b2z (negb (Qeq_bool fp fg))).
Proof.
  intros self idx item i j rp rg fp fg H Hi Hj Hrp Hrg Hfp Hfg.
  unfold simple_item_getter in H.
  inv_bind H. inv_bind H. destruct a0 as [[padded_props mask] num_props].
  repeat inv_bind H.
  inversion H; subst item; clear H.
  cbn [pad_frm_mask item_num_props item_num_box pad_proposals pad_gt_bboxs]
    in *.
  match goal with
  | E : np_col_prefix padded_props _ _ = Ok ?c |- _ =>
      rename E into Ep; rename c into props_frm
  end.
  match goal with
  | E : np_col_prefix (padded_gt_bboxs _) _ _ = Ok ?c |- _ =>
      rename E into Eg; rename c into gt_frm
  end.
  match goal with
  | E : np_ones _ _ = Ok _ |- _ =>
      apply np_ones_inv in E; destruct E as (Hmp & Hmg & ->)
  end.
  match goal with
  | E : assign_block _ _ _ _ = Ok ?m |- _ =>
      rename E into Ea; rename m into padm
  end.
  change 4 with (Z.of_nat 4) in Ep, Eg.
  pose proof (Zle_0_nat i) as Hi0. pose proof (Zle_0_nat j) as Hj0.
  destruct (np_col_prefix_nth _ _ _ _ _ _ _
              (Z.lt_le_incl _ _ (Z.le_lt_trans _ _ _ Hi0 Hi)) Ep Hi Hrp Hfp)
    as [Hpi Hplen].
  destruct (np_col_prefix_nth _ _ _ _ _ _ _
              (Z.lt_le_incl _ _ (Z.le_lt_trans _ _ _ Hj0 Hj)) Eg Hj Hrg Hfg)
    as [Hgj Hglen].
  unfold assign_block in Ea. rewrite get_frm_mask_outer in Ea.
  destruct (Nat.eqb _ _ && forallb _ _) eqn:Hshape; [|discriminate].
  apply andb_true_iff in Hshape. destruct Hshape as [Hrows _].
  apply Nat.eqb_eq in Hrows. rewrite length_map, repeat_length in Hrows.
  inversion Ea; subst padm; clear Ea.
  assert (Hip : (i < length props_frm)%nat)
    by (apply nth_error_Some; congruence).
  rewrite assign_rows_nth, nth_error_repeat, nth_error_map, Hpi
    by (rewrite slice_bound_nonneg in Hrows by lia; lia).
  cbn [option_map]. eexists. split; [reflexivity|].
  rewrite nth_error_app1.
  - now rewrite !nth_error_map, Hgj.
  - rewrite !length_map. apply nth_error_Some. congruence.
Qed.

Lemma simple_item_getter_frm_mask_block_witness :
  exists item row,
    simple_item_getter example_dataset 0 = Ok item /\
    nth_error (pad_frm_mask item) 1 = Some row /\
    nth_error row 0 = Some 0.
Proof.
  destruct (simple_item_getter example_dataset 0) as [item|e] eqn:E.
  - destruct (simple_item_getter_frm_mask_block example_dataset 0 item
                1%nat 0%nat [1; 2; 3; 4; 1; 0; 1 # 10]%Q [1; 1; 2; 2; 1]%Q
                1%Q 1%Q E)
      as (row & Hrow & Hent);
      try (vm_compute in E; inversion E; subst item; reflexivity).
    exists item, row. auto.
  - vm_compute in E. discriminate E.
Defined.

(** ** Ground-truth loader: refused records *)

(** X5.  A caption record whose numbers of boxes and of frame indices
    differ is refused by [get_gt_annots] with an [AssertionError],
    whatever [max_gt_box] is: nothing is padded or truncated to make them
    agree. *)
Theorem get_gt_annots_count_mismatch :
  forall (self : AnetEntDataset) (caption_dct : Caption) (idx : Z),
    Forall (fun r => length r = 4%nat) (bbox caption_dct) ->
    length (bbox caption_dct) <> length (frm_idx caption_dct) ->
    get_gt_annots self caption_dct idx = Raise AssertionError.
Proof.
  intros self cap idx Hrows Hne. now apply get_gt_annots_mismatch.
Qed.

Lemma get_gt_annots_count_mismatch_witness :
  get_gt_annots example_dataset
    {| bbox := [[1; 1; 2; 2]; [3; 3; 4; 4]]%Q; frm_idx := [1%Q] |} 0
  = Raise AssertionError.
Proof.
  apply (get_gt_annots_count_mismatch example_dataset
           {| bbox := [[1; 1; 2; 2]; [3; 3; 4; 4]]%Q; frm_idx := [1%Q] |} 0).
  - repeat constructor.
  - cbn. lia.
Defined.

(** ** Segment features: when the call returns *)

Lemma combine_map_same {A B C : Type} (f : A -> B) (g : A -> C) (l : list A) :
  combine (map f l) (map g l) = map (fun x => (f x, g x)) l.
Proof. induction l as [|a l IH]; cbn; [reflexivity | now rewrite IH]. Qed.

Lemma py_index_in_range {A : Type} (l : list A) (i : Z) (d : A) :
  0 <= i < len l -> py_index l i = Ok (nth (Z.to_nat i) l d).
Proof.
  intros [H0 H1]. unfold len in H1.
  rewrite <- (Z2Nat.id i) at 1 by assumption.
  apply py_index_nth, nth_error_nth'. lia.
Qed.

Lemma py_slice_nonempty {A : Type} (l : list A) (a b : Z) :
  0 <= a -> a < b -> b <= len l -> py_slice l a b <> [].
Proof.
  intros Ha Hab Hb. unfold len in Hb. unfold py_slice.
  rewrite !slice_bound_nonneg by lia.
  intros E. apply (f_equal (@length A)) in E.
  rewrite length_firstn, length_skipn in E. cbn in E. lia.
Qed.

Lemma np_mean_axis0_feat (rows : list (list Q)) :
  rows <> [] -> exists v, np_mean_axis0 rows = Feat v.
Proof. destruct rows; [congruence | cbn; eauto]. Qed.

Lemma frm_ind_cons :
  frm_ind = 0 :: map Z.of_nat (seq 1 9).
Proof. reflexivity. Qed.

(** X6.  With a context [ctx >= 0], [get_seg_feat_for_frms] returns on
    every non-empty feature array, whatever the timestamps: the assertion
    on the bin windows cannot fail, there are exactly 10 per-bin features
    and none of them is a mean over an empty window.  On an empty feature
    array it raises an [IndexError]. *)
Theorem get_seg_feat_for_frms_returns :
  forall (self : AnetEntDataset) (seg_feats : list (list Q))
         (timestamps : Q * Q) (duration : Q),
    0 <= ctx_for_seg_feats self ->
    (seg_feats <> [] ->
     exists frms glob,
       get_seg_feat_for_frms self seg_feats timestamps duration
       = Ok (frms, glob) /\
       length frms = 10%nat /\
       Forall (fun f => exists v, f = Feat v) frms) /\
    (seg_feats = [] ->
     get_seg_feat_for_frms self seg_feats timestamps duration
     = Raise IndexError).
Proof.
  intros self seg_feats timestamps duration Hctx. split.
  - intros Hne. unfold get_seg_feat_for_frms. lazy zeta.
    set (ctx := ctx_for_seg_feats self) in *.
    set (n := len seg_feats).
    assert (Hn : 1 <= n).
    { unfold n, len. destruct seg_feats; [congruence | cbn; lia]. }
    match goal with
    | |- context [map (fun i => Z.max (i - ctx - 1) 0) ?l] => set (idxs := l)
    end.
    assert (Hlen : length idxs = 10%nat).
    { unfold idxs. rewrite !length_map. reflexivity. }
    assert (Hidx : Forall (fun i => 0 <= i <= n - 1) idxs).
    { unfold idxs. apply Forall_map, Forall_forall. intros t _. lia. }
    clearbody idxs.
    assert (Hglob : exists glob,
      (if negb (hd 0 (map (fun i => Z.max (i - ctx - 1) 0) idxs)
                =? last (map (fun i => Z.min (i + ctx + 1) n) idxs) 0)
       then Ok (np_mean_axis0
                  (py_slice seg_feats
                     (hd 0 (map (fun i => Z.max (i - ctx - 1) 0) idxs))
                     (last (map (fun i => Z.min (i + ctx + 1) n) idxs) 0)))
       else r <- py_index seg_feats
                   (hd 0 (map (fun i => Z.max (i - ctx - 1) 0) idxs)) ;;
            Ok (Feat r)) = Ok glob).
    { destruct idxs as [|i0 idxs']; [discriminate Hlen|].
      inversion Hidx; subst. cbn [map hd].
      rewrite (py_index_in_range seg_feats _ []) by (fold n; lia).
      cbn [bind]. destruct (negb _); eauto. }
    destruct Hglob as [glob ->]. cbn [bind].
    assert (Hassert :
      forallb (fun p => fst p - snd p >? 0)
        (combine (map (fun i => Z.min (i + ctx + 1) n) idxs)
                 (map (fun i => Z.max (i - ctx - 1) 0) idxs)) = true).
    { rewrite combine_map_same. apply forallb_forall.
      intros p Hp. apply in_map_iff in Hp. destruct Hp as (i & <- & Hi).
      rewrite Forall_forall in Hidx. specialize (Hidx i Hi).
      cbn [fst snd]. apply Z.gtb_lt. lia. }
    rewrite Hassert. cbn [py_assert bind].
    destruct (negb (ctx =? 0)).
    + cbn [bind]. do 2 eexists. split; [reflexivity|].
      rewrite combine_map_same, !length_map. split; [assumption|].
      rewrite map_map. apply Forall_map, Forall_forall. intros i Hi.
      rewrite Forall_forall in Hidx. specialize (Hidx i Hi).
      cbn [fst snd]. apply np_mean_axis0_feat, py_slice_nonempty; lia.
    + rewrite (mapM_total _ (fun i => Feat (nth (Z.to_nat i) seg_feats []))).
      * cbn [bind]. do 2 eexists. split; [reflexivity|].
        rewrite length_map. split; [assumption|].
        apply Forall_map, Forall_forall. eauto.
      * eapply Forall_impl; [|exact Hidx]. cbn. intros i Hi.
        now rewrite (py_index_in_range seg_feats i []) by (fold n; lia).
  - intros ->. unfold get_seg_feat_for_frms. lazy zeta.
    set (ctx := ctx_for_seg_feats self) in *.
    rewrite frm_ind_cons.
    change (len (@nil (list Q))) with 0.
    assert (Hst : forall x, Z.max (Z.min (Z.max x 0) (0 - 1) - ctx - 1) 0 = 0)
      by (intros; lia).
    assert (Hen : forall x, Z.min (Z.min (Z.max x 0) (0 - 1) + ctx + 1) 0 = 0)
      by (intros; lia).
    cbn [seq map hd]. rewrite Hst.
    match goal with
    | |- context [last ?l 0] =>
        assert (Hlast : last l 0 = 0)
    end.
    { cbn [last]. apply Hen. }
    rewrite Hlast. reflexivity.
Qed.

Lemma get_seg_feat_for_frms_returns_witness :
  (exists frms glob,
      get_seg_feat_for_frms example_dataset example_seg_feats (3, 5)%Q 10%Q
      = Ok (frms, glob) /\ length frms = 10%nat) /\
  get_seg_feat_for_frms example_dataset [] (3, 5)%Q 10%Q = Raise IndexError.
Proof.
  destruct (get_seg_feat_for_frms_returns example_dataset example_seg_feats
              (3, 5)%Q 10%Q) as [Hret _]; [cbn; lia|].
  destruct (get_seg_feat_for_frms_returns example_dataset []
              (3, 5)%Q 10%Q) as [_ Hraise]; [cbn; lia|].
  split.
  - destruct (Hret ltac:(discriminate)) as (frms & glob & H & Hl & _).
    exists frms, glob. auto.
  - apply Hraise. reflexivity.
Defined.

(** ** [argsort] inverts a permutation *)

Lemma insert_by_perm (p : Z * Z) (l : list (Z * Z)) :
  Permutation (insert_by p l) (p :: l).
Proof.
  induction l as [|q l IH]; cbn; [reflexivity|].
  destruct (fst p <=? fst q); [reflexivity|].
  rewrite IH. apply perm_swap.
Qed.

Lemma sort_pairs_perm (l : list (Z * Z)) :
  Permutation (fold_right insert_by [] l) l.
Proof.
  induction l as [|p l IH]; cbn; [reflexivity|].
  rewrite insert_by_perm. now constructor.
Qed.

Lemma insert_by_sorted (p : Z * Z) (l : list (Z * Z)) :
  StronglySorted key_le l -> StronglySorted key_le (insert_by p l).
Proof.
  induction 1 as [|q l Hs IH Hq]; cbn.
  - repeat constructor.
  - destruct (Z.leb_spec (fst p) (fst q)) as [Hle | Hgt].
    + constructor; [now constructor|].
      constructor; [exact Hle|].
      eapply Forall_impl; [|exact Hq]. unfold key_le. intros r Hr. lia.
    + constructor; [exact IH|].
      eapply Permutation_Forall; [symmetry; apply insert_by_perm|].
      constructor; [unfold key_le; lia | exact Hq].
Qed.

Lemma sort_pairs_sorted (l : list (Z * Z)) :
  StronglySorted key_le (fold_right insert_by [] l).
Proof.
  induction l as [|p l IH]; cbn; [constructor | now apply insert_by_sorted].
Qed.

Lemma sorted_perm_unique (l l' : list Z) :
  StronglySorted Z.le l -> StronglySorted Z.le l' ->
  Permutation l l' -> l = l'.
Proof.
  intros Hs. revert l'. induction Hs as [|h l Hs IH Hh]; intros l' Hs' Hp.
  - apply Permutation_nil in Hp. now subst.
  - destruct Hs' as [|h' l' Hs' Hh'].
    + symmetry in Hp. apply Permutation_nil in Hp. discriminate.
    + assert (E : h = h').
      { assert (In h (h' :: l')) by (eapply Permutation_in; [exact Hp | now left]).
        assert (In h' (h :: l))
          by (eapply Permutation_in; [symmetry; exact Hp | now left]).
        rewrite Forall_forall in Hh, Hh'.
        destruct H as [-> | H]; [reflexivity|].
        destruct H0 as [-> | H0]; [reflexivity|].
        specialize (Hh _ H0). specialize (Hh' _ H). lia. }
      subst h'. f_equal. apply IH; [assumption|].
      eapply Permutation_cons_inv; eassumption.
Qed.

Lemma seq_sorted (s n : nat) :
  StronglySorted Z.le (map Z.of_nat (seq s n)).
Proof.
  revert s. induction n as [|n IH]; intros s; cbn; constructor.
  - apply IH.
  - apply Forall_map, Forall_forall. intros x Hx. apply in_seq in Hx. lia.
Qed.

Lemma map_fst_sorted (l : list (Z * Z)) :
  StronglySorted key_le l -> StronglySorted Z.le (map fst l).
Proof.
  induction 1 as [|p l Hs IH Hp]; cbn; constructor; [assumption|].
  apply Forall_map. exact Hp.
Qed.

Lemma map_fst_combine {A B : Type} (l : list A) (m : list B) :
  length l = length m -> map fst (combine l m) = l.
Proof.
  revert m. induction l as [|a l IH]; intros [|b m] H; cbn in *;
    try discriminate; [reflexivity|].
  f_equal. apply IH. lia.
Qed.

(** On a permutation of [0 .. n-1], the [k]-th entry of [argsort] is
    the position where the permutation takes the value [k]. *)
Lemma argsort_nth (perm : list Z) (n k : nat) :
  Permutation perm (arange n) -> (k < n)%nat ->
  exists i : nat,
    nth_error (argsort perm) k = Some (Z.of_nat i) /\
    nth_error perm i = Some (Z.of_nat k).
Proof.
  intros Hperm Hk. unfold argsort.
  set (pairs := combine perm (arange (length perm))).
  set (sorted := fold_right insert_by [] pairs).
  assert (Hkeys : map fst sorted = arange n).
  { apply sorted_perm_unique.
    - apply map_fst_sorted, sort_pairs_sorted.
    - apply seq_sorted.
    - rewrite <- Hperm. unfold sorted.
      rewrite (Permutation_map fst (sort_pairs_perm pairs)).
      unfold pairs. rewrite map_fst_combine; [reflexivity|].
      now rewrite arange_length. }
  assert (Hlen : length sorted = n).
  { rewrite <- (length_map fst), Hkeys. apply arange_length. }
  destruct (nth_error sorted k) as [[v j]|] eqn:Hs.
  2:{ apply nth_error_None in Hs. lia. }
  assert (Hv : v = Z.of_nat k).
  { assert (H : nth_error (map fst sorted) k = Some v)
      by (now rewrite nth_error_map, Hs).
    rewrite Hkeys in H. unfold arange in H.
    rewrite nth_error_map, (nth_error_seq0 n k Hk) in H.
    cbn in H. congruence. }
  subst v.
  assert (Hin : In (Z.of_nat k, j) pairs).
  { eapply Permutation_in; [apply sort_pairs_perm|].
    eapply nth_error_In; exact Hs. }
  apply In_nth_error in Hin. destruct Hin as [i Hi].
  unfold pairs, arange in Hi. rewrite combine_arange_nth in Hi.
  destruct (nth_error perm i) as [w|] eqn:Hw; [|discriminate].
  inversion Hi; subst. exists i.
  split; [|exact Hw]. now rewrite nth_error_map, Hs.
Qed.

Lemma argsort_length (perm : list Z) :
  length (argsort perm) = length perm.
Proof.
  unfold argsort.
  rewrite length_map, (Permutation_length (sort_pairs_perm _)).
  rewrite length_combine, arange_length. lia.
Qed.

Lemma perm_arange_nodup (perm : list Z) (n : nat) :
  Permutation perm (arange n) -> NoDup perm.
Proof.
  intros H. eapply Permutation_NoDup; [symmetry; exact H|].
  unfold arange. generalize (seq_NoDup n 0).
  induction 1 as [|a l Ha _ IH]; cbn; constructor; [|exact IH].
  intros Hin. apply in_map_iff in Hin. destruct Hin as (b & Hb & Hin).
  apply Nat2Z.inj in Hb. now subst.
Qed.

(** The other direction: the position [i] of the value [v] of the
    permutation is what [argsort] holds at [v]. *)
Lemma argsort_inverse (perm : list Z) (n i : nat) (v : Z) :
  Permutation perm (arange n) ->
  nth_error perm i = Some v ->
  0 <= v /\ nth_error (argsort perm) (Z.to_nat v) = Some (Z.of_nat i).
Proof.
  intros Hperm Hi.
  assert (Hin : In v (arange n)).
  { eapply Permutation_in; [exact Hperm|]. eapply nth_error_In; exact Hi. }
  unfold arange in Hin. apply in_map_iff in Hin.
  destruct Hin as (k & <- & Hk). apply in_seq in Hk.
  split; [lia|]. rewrite Nat2Z.id.
  destruct (argsort_nth perm n k Hperm ltac:(lia)) as (i' & Ha & Hp).
  rewrite Ha. do 2 f_equal.
  assert (Hnd := perm_arange_nodup perm n Hperm).
  rewrite NoDup_nth_error in Hnd. apply Hnd; [|congruence].
  apply nth_error_Some. congruence.
Qed.

(** ** What a composed example holds *)

Lemma sp_pad_seq (n k : nat) :
  map (fun j => Z.of_nat n + Z.of_nat j) (seq 0 k) = map Z.of_nat (seq n k).
Proof.
  assert (G : forall s,
    map (fun j => Z.of_nat n + Z.of_nat j) (seq s k)
    = map Z.of_nat (seq (n + s) k)).
  { induction k as [|k IH]; intros s; cbn; [reflexivity|].
    rewrite IH. f_equal; [lia|]. now rewrite Nat.add_succ_r. }
  rewrite G. now rewrite Nat.add_0_r.
Qed.

(** The bookkeeping entries of a composed example, in terms of the
    permutation drawn and of the gathered lists. *)
Lemma compose_inv (self : Anet_SRL) (rnd : Draws) (idx : Z) (g : Gathered)
    (out : NvidOut) :
  valid_draws rnd ->
  compose self rnd idx g = Ok out ->
  exists (perm idxs' vc' : list Z) (vl' : list string),
    let n := length (new_idxs g) in
    let k := Z.to_nat (cs_nvids_sample self - Z.of_nat n) in
    Permutation perm (arange n) /\
    shuffle_list_from_perm (new_idxs g) perm = Ok idxs' /\
    shuffle_list_from_perm (verb_cmp g) perm = Ok vc' /\
    shuffle_list_from_perm (verb_list g) perm = Ok vl' /\
    py_index (argsort perm) 0 = Ok (target_cmp out) /\
    num_cmp out = Z.of_nat n /\
    Z.of_nat n <= cs_nvids_sample self /\
    permute out = perm ++ map Z.of_nat (seq n k) /\
    permute_inv out = argsort perm ++ map Z.of_nat (seq n k) /\
    new_srl_idxs out = idxs' ++ repeat 1 k /\
    out_verb_cmp out = vc' ++ repeat 0 k /\
    num_cmp_msk out = repeat 1 n ++ repeat 0 k /\
    verb_cross_cmp out
    = map (fun r => r ++ repeat 0 k)
        (map (fun a => map (fun b => Z.b2z (String.eqb a b)) vl') vl')
        ++ repeat (repeat 0 (n + k)) k.
Proof.
  intros [_ Hrand] H. unfold compose in H.
  set (n := length (new_idxs g)) in *.
  set (perm := if cs_shuffle self then randperm rnd n else arange n) in *.
  assert (Hperm : Permutation perm (arange n)).
  { unfold perm. destruct (cs_shuffle self); [apply Hrand | reflexivity]. }
  assert (Hplen : length perm = n).
  { rewrite (Permutation_length Hperm). apply arange_length. }
  clearbody perm.
  repeat inv_bind H.
  inversion H; subst out; clear H.
  cbn [num_cmp_msk num_cmp out_verb_cmp target_cmp permute permute_inv
       new_srl_idxs verb_cross_cmp].
  match goal with
  | E : py_index (argsort perm) 0 = Ok _ |- _ => rename E into Etarg
  end.
  match goal with
  | E : shuffle_list_from_perm (new_idxs g) perm = Ok ?x |- _ =>
      rename E into Eidxs; rename x into idxs'
  end.
  match goal with
  | E : shuffle_list_from_perm (verb_cmp g) perm = Ok ?x |- _ =>
      rename E into Evc; rename x into vc'
  end.
  match goal with
  | E : shuffle_list_from_perm (verb_list g) perm = Ok ?x |- _ =>
      rename E into Evl; rename x into vl'
  end.
  match goal with
  | E : mapM (simple_item_getter _) _ = Ok _ |- _ => rename E into Edicts
  end.
  match goal with
  | E : mapM _ idxs' = Ok _ |- _ => rename E into Eann
  end.
  match goal with
  | E : collate_dict_list _ _ = Ok (_, ?z) |- _ =>
      rename E into Ecoll; rename z into ncmp
  end.
  match goal with
  | E : pad_words_with_vocab idxs' _ _ _ = Ok _ |- _ => rename E into Epad1
  end.
  match goal with
  | E : pad_words_with_vocab vc' _ _ _ = Ok _ |- _ => rename E into Epad2
  end.
  match goal with
  | E : np_pad_after _ (map _ _) _ = Ok _ |- _ => rename E into Ecross
  end.
  match goal with
  | E : np_pad_after _ (np_eye _) _ = Ok _ |- _ => rename E into Earr
  end.
  apply collate_dict_list_num in Ecoll.
  assert (Li : length idxs' = n)
    by (unfold shuffle_list_from_perm in Eidxs;
        now rewrite (mapM_length _ _ _ Eidxs)).
  assert (Lc : length vc' = n)
    by (unfold shuffle_list_from_perm in Evc;
        now rewrite (mapM_length _ _ _ Evc)).
  assert (Ll : length vl' = n)
    by (unfold shuffle_list_from_perm in Evl;
        now rewrite (mapM_length _ _ _ Evl)).
  assert (Hn : ncmp = Z.of_nat n).
  { rewrite Ecoll. unfold len.
    now rewrite (mapM_length _ _ _ Edicts), (mapM_length _ _ _ Eann), Li. }
  clear Ecoll. subst ncmp.
  pose proof (np_pad_after_inv _ _ _ _ Earr) as Hcs.
  assert (Hcs0 : 0 <= cs_nvids_sample self) by lia.
  rewrite pad_nonneg in Epad1, Epad2 by assumption.
  inversion Epad1; subst; clear Epad1.
  inversion Epad2; subst; clear Epad2.
  assert (Hgt : (len vl' >? cs_nvids_sample self) = false).
  { unfold len. rewrite Ll.
    destruct (Z.gtb_spec (Z.of_nat n) (cs_nvids_sample self)); [lia|].
    reflexivity. }
  rewrite Hgt in Ecross. unfold np_pad_after in Ecross.
  unfold len in Ecross. rewrite Ll in Ecross.
  destruct (Z.ltb_spec (cs_nvids_sample self - Z.of_nat n) 0); [lia|].
  inversion Ecross; subst; clear Ecross.
  exists perm, idxs', vc', vl'. cbv zeta.
  rewrite !list_mul_single, sp_pad_seq, Nat2Z.id.
  rewrite !firstn_all2 by lia.
  rewrite Li, Lc.
  replace (Z.to_nat (cs_nvids_sample self) - n)%nat
    with (Z.to_nat (cs_nvids_sample self - Z.of_nat n)) by lia.
  repeat split; try assumption; try reflexivity. lia.
Qed.

Lemma nvid_inv (fuel : nat) (self : Anet_SRL) (rnd : Draws) (idx : Z)
    (out : NvidOut) :
  verb_item_getter_nvid fuel self rnd idx = Some (Ok out) ->
  exists (more : MoreIdxs) (curr_verb : string) (g : Gathered),
    more_idx_collector self rnd idx = Ok more /\
    lemma_verbs self idx = Ok curr_verb /\
    gather fuel self curr_verb more
      {| new_idxs := [idx]; verb_cmp := [1]; verb_list := [curr_verb] |}
    = Some (Ok g) /\
    compose self rnd idx g = Ok out.
Proof.
  unfold verb_item_getter_nvid. intros H.
  destruct (more_idx_collector self rnd idx) as [more|e]; [|discriminate].
  destruct (lemma_verbs self idx) as [curr_verb|e]; [|discriminate].
  destruct (gather fuel self curr_verb more _) as [[g|e]|] eqn:G;
    try discriminate.
  inversion H. exists more, curr_verb, g. auto.
Qed.

(** The gathering only appends: the lists it started from stay in
    front. *)
Lemma gather_prefix (fuel : nat) (self : Anet_SRL) (curr_verb : string)
    (more : MoreIdxs) (g g' : Gathered) :
  gather fuel self curr_verb more g = Some (Ok g') ->
  gathered_ok g ->
  exists extra, new_idxs g' = new_idxs g ++ extra.
Proof.
  unfold gather. intros H Hok. destruct (split_type self).
  - destruct (gather_train_inv _ _ _ _ _ _ _ (Z.le_refl 0) H Hok)
      as (_ & extra & He & _). eauto.
  - inversion H as [H1].
    destruct (gather_pass_inv _ _ _ _ _ _ (Z.le_refl 0) H1 Hok)
      as (_ & extra & He & _). eauto.
  - inversion H as [H1].
    destruct (gather_pass_inv _ _ _ _ _ _ (Z.le_refl 0) H1 Hok)
      as (_ & extra & He & _). eauto.
Qed.

Lemma shuffle_length {A : Type} (lst r : list A) (perm : list Z) (n : nat) :
  Permutation perm (arange n) ->
  shuffle_list_from_perm lst perm = Ok r -> length r = n.
Proof.
  intros Hp H. unfold shuffle_list_from_perm in H.
  rewrite (mapM_length _ _ _ H), (Permutation_length Hp).
  apply arange_length.
Qed.

Lemma pad_tail_nth (front : list Z) (n k i : nat) (j : Z) :
  length front = n -> (n <= i)%nat ->
  nth_error (front ++ map Z.of_nat (seq n k)) i = Some j ->
  j = Z.of_nat i /\ (i < n + k)%nat.
Proof.
  intros Hl Hi H. rewrite nth_error_app2, Hl in H by lia.
  rewrite nth_error_map, nth_error_seq in H.
  destruct (Nat.ltb_spec (i - n) k); [|discriminate].
  cbn in H. inversion H. split; [f_equal|]; lia.
Qed.

Lemma pad_tail_self (front : list Z) (n k i : nat) :
  length front = n -> (n <= i < n + k)%nat ->
  nth_error (front ++ map Z.of_nat (seq n k)) i = Some (Z.of_nat i).
Proof.
  intros Hl Hi. rewrite nth_error_app2, Hl by lia.
  rewrite nth_error_map, nth_error_seq.
  destruct (Nat.ltb_spec (i - n) k); [|lia].
  cbn. do 2 f_equal. lia.
Qed.

(** X7.  In every example [verb_item_getter_nvid] returns, [permute] is
    a permutation of the [cs_nvids_sample] slots and [permute_inv] is its
    inverse, padding slots included: if [permute[k] = j] then
    [permute_inv[j] = k], and if [permute_inv[k] = j] then
    [permute[j] = k]. *)
Theorem nvid_permute_inverse :
  forall (fuel : nat) (self : Anet_SRL) (rnd : Draws) (idx : Z)
         (out : NvidOut),
    valid_draws rnd ->
    verb_item_getter_nvid fuel self rnd idx = Some (Ok out) ->
    Permutation (permute out) (arange (Z.to_nat (cs_nvids_sample self))) /\
    (forall (k : nat) (j : Z),
        nth_error (permute out) k = Some j ->
        0 <= j /\
        nth_error (permute_inv out) (Z.to_nat j) = Some (Z.of_nat k)) /\
    (forall (k : nat) (j : Z),
        nth_error (permute_inv out) k = Some j ->
        0 <= j /\
        nth_error (permute out) (Z.to_nat j) = Some (Z.of_nat k)).
Proof.
  intros fuel self rnd idx out Hrnd H.
  destruct (nvid_inv _ _ _ _ _ H) as (more & cv & g & _ & _ & _ & Hc).
  destruct (compose_inv _ _ _ _ _ Hrnd Hc)
    as (perm & idxs' & vc' & vl' & Hperm & _ & _ & _ & _ & _ & Hle
        & Hp & Hpi & _).
  cbv zeta in *.
  set (n := length (new_idxs g)) in *.
  set (k0 := Z.to_nat (cs_nvids_sample self - Z.of_nat n)) in *.
  assert (Hplen : length perm = n)
    by (rewrite (Permutation_length Hperm); apply arange_length).
  assert (Halen : length (argsort perm) = n)
    by (now rewrite argsort_length).
  rewrite Hp, Hpi. split; [|split].
  - replace (Z.to_nat (cs_nvids_sample self)) with (n + k0)%nat
      by (unfold k0; lia).
    unfold arange. rewrite seq_app, map_app. cbn [Nat.add].
    apply Permutation_app_tail. exact Hperm.
  - intros k j Hk.
    destruct (Nat.ltb_spec k n) as [Hlt | Hge].
    + rewrite nth_error_app1 in Hk by lia.
      destruct (argsort_inverse perm n k j Hperm Hk) as [Hj Ha].
      split; [assumption|].
      rewrite nth_error_app1; [assumption|].
      apply nth_error_Some. congruence.
    + destruct (pad_tail_nth perm n k0 k j Hplen Hge Hk) as [-> Hb].
      split; [lia|]. rewrite Nat2Z.id.
      apply pad_tail_self; [assumption | lia].
  - intros k j Hk.
    destruct (Nat.ltb_spec k n) as [Hlt | Hge].
    + rewrite nth_error_app1 in Hk by lia.
      destruct (argsort_nth perm n k Hperm Hlt) as (i & Ha & Hi).
      rewrite Ha in Hk. inversion Hk; subst j.
      split; [lia|]. rewrite Nat2Z.id.
      rewrite nth_error_app1; [assumption|].
      apply nth_error_Some. congruence.
    + destruct (pad_tail_nth (argsort perm) n k0 k j Halen Hge Hk)
        as [-> Hb].
      split; [lia|]. rewrite Nat2Z.id.
      apply pad_tail_self; [assumption | lia].
Qed.

Lemma nvid_permute_inverse_witness :
  exists out,
    verb_item_getter_nvid 5 (example_srl Train 3 true) example_draws 0
    = Some (Ok out) /\
    Permutation (permute out) (arange 3) /\
    nth_error (permute_inv out) 2 = Some 0.
Proof.
  destruct (verb_item_getter_nvid 5 (example_srl Train 3 true)
              example_draws 0) as [[out|e]|] eqn:E.
  - exists out. split; [reflexivity|].
    destruct (nvid_permute_inverse 5 (example_srl Train 3 true)
                example_draws 0 out)
      as (Hperm & Hinv & _).
    + apply firstn_draws_valid; reflexivity.
    + exact E.
    + split; [exact Hperm|].
      apply (Hinv 0%nat 2).
      vm_compute in E. inversion E; subst out. reflexivity.
  - vm_compute in E. discriminate E.
  - vm_compute in E. discriminate E.
Defined.

(** X8.  In every example [verb_item_getter_nvid] returns for the row
    [idx], the slot [target_cmp] of [new_srl_idxs] holds [idx] itself:
    the target index points at the target's video, wherever the
    permutation moved it. *)
Theorem nvid_target_slot :
  forall (fuel : nat) (self : Anet_SRL) (rnd : Draws) (idx : Z)
         (out : NvidOut),
    valid_draws rnd ->
    verb_item_getter_nvid fuel self rnd idx = Some (Ok out) ->
    py_index (new_srl_idxs out) (target_cmp out) = Ok idx /\
    sent_idx out = idx.
Proof.
  intros fuel self rnd idx out Hrnd H.
  destruct (nvid_inv _ _ _ _ _ H) as (more & cv & g & _ & _ & Hg & Hc).
  destruct (gather_prefix _ _ _ _ _ _ Hg ltac:(repeat split))
    as [extra Hextra].
  cbn [new_idxs] in Hextra.
  destruct (compose_inv _ _ _ _ _ Hrnd Hc)
    as (perm & idxs' & vc' & vl' & Hperm & Hidxs & _ & _ & Htarg & _ & _
        & _ & _ & Hnew & _).
  cbv zeta in *.
  destruct (argsort_head perm _ _ Hperm Htarg) as (i & Hi & Hpi).
  unfold shuffle_list_from_perm in Hidxs.
  destruct (mapM_nth _ _ _ _ _ Hidxs Hpi) as (y & Hy & Hyi).
  rewrite Hextra in Hy. cbn in Hy. inversion Hy; subst y.
  split.
  - rewrite Hi, Hnew. apply py_index_nth.
    rewrite nth_error_app1; [assumption|].
    apply nth_error_Some. congruence.
  - unfold compose in Hc. repeat inv_bind Hc. now inversion Hc.
Qed.

Lemma nvid_target_slot_witness :
  exists out,
    verb_item_getter_nvid 5 (example_srl Train 3 true) example_draws 0
    = Some (Ok out) /\
    new_srl_idxs out = [8; 7; 0] /\
    py_index (new_srl_idxs out) (target_cmp out) = Ok 0.
Proof.
  destruct (verb_item_getter_nvid 5 (example_srl Train 3 true)
              example_draws 0) as [[out|e]|] eqn:E.
  - exists out. split; [reflexivity|].
    destruct (nvid_target_slot 5 (example_srl Train 3 true)
                example_draws 0 out) as (Hslot & _).
    + apply firstn_draws_valid; reflexivity.
    + exact E.
    + split; [|exact Hslot].
      vm_compute in E. inversion E; subst out. reflexivity.
  - vm_compute in E. discriminate E.
  - vm_compute in E. discriminate E.
Defined.

(** X9.  In every example [verb_item_getter_nvid] returns, the five
    per-slot vectors have exactly [cs_nvids_sample] entries, the mask
    [num_cmp_msk] is 1 on the [num_cmp] real slots, and every slot from
    [num_cmp] on is padding: mask 0, verb flag 0, the filler row index 1
    in [new_srl_idxs], and both permutations fixing the slot. *)
Theorem nvid_padding_slots :
  forall (fuel : nat) (self : Anet_SRL) (rnd : Draws) (idx : Z)
         (out : NvidOut),
    valid_draws rnd ->
    verb_item_getter_nvid fuel self rnd idx = Some (Ok out) ->
    (len (new_srl_idxs out) = cs_nvids_sample self /\
     len (out_verb_cmp out) = cs_nvids_sample self /\
     len (num_cmp_msk out) = cs_nvids_sample self /\
     len (permute out) = cs_nvids_sample self /\
     len (permute_inv out) = cs_nvids_sample self) /\
    (forall k : nat,
        Z.of_nat k < num_cmp out -> nth_error (num_cmp_msk out) k = Some 1) /\
    (forall k : nat,
        num_cmp out <= Z.of_nat k < cs_nvids_sample self ->
        nth_error (num_cmp_msk out) k = Some 0 /\
        nth_error (out_verb_cmp out) k = Some 0 /\
        nth_error (new_srl_idxs out) k = Some 1 /\
        nth_error (permute out) k = Some (Z.of_nat k) /\
        nth_error (permute_inv out) k = Some (Z.of_nat k)).
Proof.
  intros fuel self rnd idx out Hrnd H.
  destruct (nvid_inv _ _ _ _ _ H) as (more & cv & g & _ & _ & _ & Hc).
  destruct (compose_inv _ _ _ _ _ Hrnd Hc)
    as (perm & idxs' & vc' & vl' & Hperm & Hidxs & Hvc & _ & _ & Hnum & Hle
        & Hp & Hpi & Hnew & Hcmp & Hmsk & _).
  cbv zeta in *.
  set (n := length (new_idxs g)) in *.
  set (k0 := Z.to_nat (cs_nvids_sample self - Z.of_nat n)) in *.
  assert (Hplen : length perm = n)
    by (rewrite (Permutation_length Hperm); apply arange_length).
  assert (Halen : length (argsort perm) = n)
    by (now rewrite argsort_length).
  pose proof (shuffle_length _ _ _ _ Hperm Hidxs) as Li.
  pose proof (shuffle_length _ _ _ _ Hperm Hvc) as Lc.
  rewrite Hp, Hpi, Hnew, Hcmp, Hmsk, Hnum. unfold len.
  rewrite !length_app, !repeat_length, !length_map, !length_seq.
  rewrite Hplen, Halen, Li, Lc.
  split; [repeat split; unfold k0; lia|]. split.
  - intros k Hk. rewrite nth_error_app1 by (rewrite repeat_length; lia).
    apply nth_error_repeat. lia.
  - intros k Hk. repeat split.
    + rewrite nth_error_app2 by (rewrite repeat_length; lia).
      apply nth_error_repeat. rewrite repeat_length. unfold k0. lia.
    + rewrite nth_error_app2 by lia.
      apply nth_error_repeat. unfold k0. lia.
    + rewrite nth_error_app2 by lia.
      apply nth_error_repeat. unfold k0. lia.
    + apply pad_tail_self; [assumption | unfold k0; lia].
    + apply pad_tail_self; [assumption | unfold k0; lia].
Qed.

Lemma nvid_padding_slots_witness :
  exists out,
    verb_item_getter_nvid 5 (example_srl Valid 4 false) example_draws 0
    = Some (Ok out) /\
    num_cmp out = 3 /\
    nth_error (num_cmp_msk out) 3 = Some 0 /\
    nth_error (new_srl_idxs out) 3 = Some 1.
Proof.
  destruct (verb_item_getter_nvid 5 (example_srl Valid 4 false)
              example_draws 0) as [[out|e]|] eqn:E.
  - exists out. split; [reflexivity|].
    destruct (nvid_padding_slots 5 (example_srl Valid 4 false)
                example_draws 0 out) as (_ & _ & Hpad).
    + apply firstn_draws_valid; reflexivity.
    + exact E.
    + assert (Hn : num_cmp out = 3).
      { clear Hpad. vm_compute in E. inversion E; subst out. reflexivity. }
      split; [exact Hn|].
      destruct (Hpad 3%nat) as (H1 & _ & H3 & _); [rewrite Hn; cbn; lia|].
      auto.
  - vm_compute in E. discriminate E.
  - vm_compute in E. discriminate E.
Defined.

(** ** Verb flags *)

Lemma gather_pass_flags (self : Anet_SRL) (curr_verb : string) (cons : Z)
    (items : MoreIdxs) (g g' : Gathered) :
  gather_pass self curr_verb cons items g = Ok g' ->
  flags_ok self curr_verb g -> flags_ok self curr_verb g'.
Proof.
  revert g. induction items as [|[name ids] items IH]; intros g H Hok.
  - cbn in H. now inversion H; subst.
  - cbn [gather_pass] in H.
    destruct (len (new_idxs g) <? cs_nvids_sample self);
      [|eapply IH; eassumption].
    inv_bind H.
    destruct (negb (a =? -1)); [|eapply IH; eassumption].
    inv_bind H. apply IH in H; [exact H|].
    destruct Hok as (Hc & Hl & Hflags).
    unfold flags_ok. cbn [new_idxs verb_cmp verb_list].
    rewrite !length_app. cbn [length].
    split; [lia|]. split; [lia|].
    intros i x Hx.
    destruct (Nat.ltb_spec i (length (new_idxs g))) as [Hlt | Hge].
    + rewrite nth_error_app1 in Hx by assumption.
      destruct (Hflags i x Hx) as (v & Hv & Hvl & Hvc).
      exists v. split; [assumption|].
      rewrite !nth_error_app1 by lia. auto.
    + rewrite nth_error_app2 in Hx by assumption.
      destruct (i - length (new_idxs g))%nat as [|d] eqn:Hd.
      * cbn in Hx. inversion Hx; subst x.
        match goal with
        | Ev : lemma_verbs self a = Ok ?w |- _ => exists w; split; [exact Ev|]
        end.
        rewrite !nth_error_app2 by lia.
        replace (i - length (verb_list g))%nat with 0%nat by lia.
        replace (i - length (verb_cmp g))%nat with 0%nat by lia.
        split; reflexivity.
      * cbn in Hx. destruct d; discriminate.
Qed.

Lemma gather_flags (fuel : nat) (self : Anet_SRL) (curr_verb : string)
    (more : MoreIdxs) (g g' : Gathered) :
  gather fuel self curr_verb more g = Some (Ok g') ->
  flags_ok self curr_verb g -> flags_ok self curr_verb g'.
Proof.
  unfold gather. destruct (split_type self).
  - generalize 0 as cons. revert g.
    induction fuel as [|fuel IH]; intros g cons H Hok;
      cbn [gather_train] in H;
      destruct (len (new_idxs g) <? cs_nvids_sample self);
      try discriminate; try (inversion H; subst; assumption).
    destruct (gather_pass self curr_verb cons more g) as [g1|e] eqn:P;
      [|discriminate].
    eapply IH; [exact H|]. eapply gather_pass_flags; eassumption.
  - intros H Hok. inversion H as [H1].
    eapply gather_pass_flags; eassumption.
  - intros H Hok. inversion H as [H1].
    eapply gather_pass_flags; eassumption.
Qed.

(** X10.  In every example [verb_item_getter_nvid] returns, the verb
    flag of each real slot says whether the row in that slot has the
    target's lemma verb: for [k < num_cmp], [verb_cmp[k]] is 1 when the
    lemma verb of row [new_srl_idxs[k]] equals the lemma verb of [idx],
    and 0 otherwise. *)
Theorem nvid_verb_flags :
  forall (fuel : nat) (self : Anet_SRL) (rnd : Draws) (idx : Z)
         (out : NvidOut),
    valid_draws rnd ->
    verb_item_getter_nvid fuel self rnd idx = Some (Ok out) ->
    exists curr_verb,
      lemma_verbs self idx = Ok curr_verb /\
      forall k : nat,
        Z.of_nat k < num_cmp out ->
        exists (x : Z) (v : string),
          nth_error (new_srl_idxs out) k = Some x /\
          lemma_verbs self x = Ok v /\
          nth_error (out_verb_cmp out) k
          = Some (Z.b2z (String.eqb v curr_verb)).
Proof.
  intros fuel self rnd idx out Hrnd H.
  destruct (nvid_inv _ _ _ _ _ H) as (more & cv & g & _ & Hcv & Hg & Hc).
  exists cv. split; [exact Hcv|].
  assert (Hok : flags_ok self cv g).
  { eapply gather_flags; [exact Hg|].
    split; [reflexivity|]. split; [reflexivity|].
    intros [|i] x Hx; cbn in Hx; [|destruct i; discriminate].
    inversion Hx; subst x. exists cv.
    rewrite String.eqb_refl. auto. }
  destruct Hok as (_ & _ & Hflags).
  destruct (compose_inv _ _ _ _ _ Hrnd Hc)
    as (perm & idxs' & vc' & vl' & Hperm & Hidxs & Hvc & _ & _ & Hnum & _
        & _ & _ & Hnew & Hcmp & _).
  cbv zeta in *.
  assert (Hplen : length perm = length (new_idxs g))
    by (rewrite (Permutation_length Hperm); apply arange_length).
  pose proof (shuffle_length _ _ _ _ Hperm Hidxs) as Li.
  pose proof (shuffle_length _ _ _ _ Hperm Hvc) as Lc.
  intros k Hk. rewrite Hnum in Hk.
  destruct (nth_error perm k) as [j|] eqn:Hj.
  2:{ apply nth_error_None in Hj. lia. }
  assert (Hj0 : 0 <= j).
  { assert (Hin : In j (arange (length (new_idxs g)))).
    { eapply Permutation_in; [exact Hperm|].
      eapply nth_error_In; exact Hj. }
    unfold arange in Hin. apply in_map_iff in Hin.
    destruct Hin as (i & <- & _). lia. }
  unfold shuffle_list_from_perm in Hidxs, Hvc.
  destruct (mapM_nth _ _ _ _ _ Hidxs Hj) as (x & Hx & Hxk).
  destruct (mapM_nth _ _ _ _ _ Hvc Hj) as (y & Hy & Hyk).
  apply py_index_nonneg_nth in Hx; [|assumption].
  apply py_index_nonneg_nth in Hy; [|assumption].
  destruct (Hflags _ _ Hx) as (v & Hv & _ & Hflag).
  rewrite Hflag in Hy. inversion Hy; subst y.
  exists x, v. rewrite Hnew, Hcmp.
  rewrite !nth_error_app1 by lia. auto.
Qed.

Lemma nvid_verb_flags_witness :
  exists out,
    verb_item_getter_nvid 5 (example_srl Train 3 true) example_draws 0
    = Some (Ok out) /\
    new_srl_idxs out = [8; 7; 0] /\
    out_verb_cmp out = [0; 1; 1] /\
    exists curr_verb, lemma_verbs (example_srl Train 3 true) 0 = Ok curr_verb.
Proof.
  destruct (verb_item_getter_nvid 5 (example_srl Train 3 true)
              example_draws 0) as [[out|e]|] eqn:E.
  - exists out. split; [reflexivity|].
    destruct (nvid_verb_flags 5 (example_srl Train 3 true)
                example_draws 0 out) as (cv & Hcv & _).
    + apply firstn_draws_valid; reflexivity.
    + exact E.
    + vm_compute in E. inversion E; subst out.
      repeat split. exists cv. exact Hcv.
  - vm_compute in E. discriminate E.
  - vm_compute in E. discriminate E.
Defined.

(** ** The verb cross-comparison matrix *)

Lemma cross_get (vl : list string) (k i j : nat) :
  mat_get
    (map (fun r => r ++ repeat 0 k)
       (map (fun a => map (fun b => Z.b2z (String.eqb a b)) vl) vl)
       ++ repeat (repeat 0 (length vl + k)) k) i j
  = if (i <? length vl + k)%nat && (j <? length vl + k)%nat
    then Some (match nth_error vl i, nth_error vl j with
               | Some a, Some b => Z.b2z (String.eqb a b)
               | _, _ => 0
               end)
    else None.
Proof.
  unfold mat_get. set (n := length vl).
  destruct (Nat.ltb_spec i n) as [Hi | Hi].
  - rewrite nth_error_app1 by (rewrite !length_map; exact Hi).
    rewrite !nth_error_map.
    destruct (nth_error vl i) as [a|] eqn:Ha.
    2:{ apply nth_error_None in Ha. fold n in Ha. lia. }
    cbn [option_map].
    destruct (Nat.ltb_spec i (n + k)); [|lia]. cbn [andb].
    destruct (Nat.ltb_spec j n) as [Hj | Hj].
    + rewrite nth_error_app1 by (rewrite length_map; exact Hj).
      rewrite nth_error_map.
      destruct (nth_error vl j) as [b|] eqn:Hb.
      2:{ apply nth_error_None in Hb. fold n in Hb. lia. }
      destruct (Nat.ltb_spec j (n + k)); [reflexivity | lia].
    + rewrite nth_error_app2 by (rewrite length_map; exact Hj).
      rewrite length_map. fold n.
      assert (Hb : nth_error vl j = None) by (apply nth_error_None; exact Hj).
      rewrite Hb.
      destruct (Nat.ltb_spec j (n + k)).
      * apply nth_error_repeat. lia.
      * apply nth_error_None. rewrite repeat_length. lia.
  - rewrite nth_error_app2 by (rewrite !length_map; exact Hi).
    rewrite !length_map. fold n.
    assert (Ha : nth_error vl i = None) by (apply nth_error_None; exact Hi).
    rewrite Ha.
    destruct (Nat.ltb_spec i (n + k)).
    + rewrite nth_error_repeat by lia. cbn [andb].
      destruct (Nat.ltb_spec j (n + k)).
      * apply nth_error_repeat. lia.
      * apply nth_error_None. rewrite repeat_length. lia.
    + cbn [andb].
      assert (E : nth_error (repeat (repeat 0 (n + k)) k) (i - n) = None)
        by (apply nth_error_None; rewrite repeat_length; lia).
      now rewrite E.
Qed.

(** X11.  In every example [verb_item_getter_nvid] returns,
    [verb_cross_cmp] is a [cs_nvids_sample] x [cs_nvids_sample] matrix;
    between two real slots its entry is 1 when the rows in the two slots
    have the same lemma verb and 0 otherwise; every entry touching a
    padding slot is 0; and the matrix is symmetric. *)
Theorem nvid_verb_cross_cmp :
  forall (fuel : nat) (self : Anet_SRL) (rnd : Draws) (idx : Z)
         (out : NvidOut),
    valid_draws rnd ->
    verb_item_getter_nvid fuel self rnd idx = Some (Ok out) ->
    (forall i j : nat,
        Z.of_nat i < num_cmp out -> Z.of_nat j < num_cmp out ->
        exists (xi xj : Z) (vi vj : string),
          nth_error (new_srl_idxs out) i = Some xi /\
          nth_error (new_srl_idxs out) j = Some xj /\
          lemma_verbs self xi = Ok vi /\
          lemma_verbs self xj = Ok vj /\
          mat_get (verb_cross_cmp out) i j
          = Some (Z.b2z (String.eqb vi vj))) /\
    (forall i j : nat,
        Z.of_nat i < cs_nvids_sample self ->
        Z.of_nat j < cs_nvids_sample self ->
        num_cmp out <= Z.of_nat i \/ num_cmp out <= Z.of_nat j ->
        mat_get (verb_cross_cmp out) i j = Some 0) /\
    (forall i j : nat,
        mat_get (verb_cross_cmp out) i j = mat_get (verb_cross_cmp out) j i) /\
    (forall i j : nat,
        mat_get (verb_cross_cmp out) i j <> None <->
        Z.of_nat i < cs_nvids_sample self /\
        Z.of_nat j < cs_nvids_sample self).
Proof.
  intros fuel self rnd idx out Hrnd H.
  destruct (nvid_inv _ _ _ _ _ H) as (more & cv & g & _ & Hcv & Hg & Hc).
  assert (Hok : flags_ok self cv g).
  { eapply gather_flags; [exact Hg|].
    split; [reflexivity|]. split; [reflexivity|].
    intros [|i] x Hx; cbn in Hx; [|destruct i; discriminate].
    inversion Hx; subst x. exists cv.
    rewrite String.eqb_refl. auto. }
  destruct Hok as (_ & _ & Hflags).
  destruct (compose_inv _ _ _ _ _ Hrnd Hc)
    as (perm & idxs' & vc' & vl' & Hperm & Hidxs & _ & Hvl & _ & Hnum & Hle
        & _ & _ & Hnew & _ & _ & Hcross).
  cbv zeta in *.
  set (n := length (new_idxs g)) in *.
  set (k0 := Z.to_nat (cs_nvids_sample self - Z.of_nat n)) in *.
  assert (Hplen : length perm = n)
    by (rewrite (Permutation_length Hperm); apply arange_length).
  pose proof (shuffle_length _ _ _ _ Hperm Hidxs) as Li.
  pose proof (shuffle_length _ _ _ _ Hperm Hvl) as Ll.
  assert (Hget : forall i j,
    mat_get (verb_cross_cmp out) i j
    = if (i <? n + k0)%nat && (j <? n + k0)%nat
      then Some (match nth_error vl' i, nth_error vl' j with
                 | Some a, Some b => Z.b2z (String.eqb a b)
                 | _, _ => 0
                 end)
      else None).
  { intros i j. rewrite Hcross.
    replace (n + k0)%nat with (length vl' + k0)%nat by lia.
    apply cross_get. }
  assert (Hslot : forall i, (i < n)%nat ->
    exists x v, nth_error (new_srl_idxs out) i = Some x /\
                lemma_verbs self x = Ok v /\
                nth_error vl' i = Some v).
  { intros i Hi.
    destruct (nth_error perm i) as [p|] eqn:Hp.
    2:{ apply nth_error_None in Hp. lia. }
    assert (Hp0 : 0 <= p).
    { assert (Hin : In p (arange n)).
      { eapply Permutation_in; [exact Hperm|].
        eapply nth_error_In; exact Hp. }
      unfold arange in Hin. apply in_map_iff in Hin.
      destruct Hin as (q & <- & _). lia. }
    unfold shuffle_list_from_perm in Hidxs, Hvl.
    destruct (mapM_nth _ _ _ _ _ Hidxs Hp) as (x & Hx & Hxi).
    destruct (mapM_nth _ _ _ _ _ Hvl Hp) as (w & Hw & Hwi).
    apply py_index_nonneg_nth in Hx; [|assumption].
    apply py_index_nonneg_nth in Hw; [|assumption].
    destruct (Hflags _ _ Hx) as (v & Hv & Hvv & _).
    rewrite Hvv in Hw. inversion Hw; subst w.
    exists x, v. rewrite Hnew, nth_error_app1 by lia. auto. }
  split; [|split; [|split]].
  - intros i j Hi Hj. rewrite Hnum in Hi, Hj.
    destruct (Hslot i ltac:(lia)) as (xi & vi & Hxi & Hvi & Hli).
    destruct (Hslot j ltac:(lia)) as (xj & vj & Hxj & Hvj & Hlj).
    exists xi, xj, vi, vj. rewrite Hget, Hli, Hlj.
    destruct (Nat.ltb_spec i (n + k0)); [|lia].
    destruct (Nat.ltb_spec j (n + k0)); [|lia].
    auto.
  - intros i j Hi Hj Hout. rewrite Hget. rewrite Hnum in Hout.
    destruct (Nat.ltb_spec i (n + k0)); [|unfold k0 in *; lia].
    destruct (Nat.ltb_spec j (n + k0)); [|unfold k0 in *; lia].
    cbn [andb]. f_equal.
    destruct Hout as [Ho | Ho].
    + assert (E : nth_error vl' i = None)
        by (apply nth_error_None; lia).
      now rewrite E.
    + assert (E : nth_error vl' j = None)
        by (apply nth_error_None; lia).
      rewrite E. now destruct (nth_error vl' i).
  - intros i j. rewrite !Hget, andb_comm.
    destruct ((j <? n + k0)%nat && (i <? n + k0)%nat); [|reflexivity].
    f_equal.
    destruct (nth_error vl' i) as [a|], (nth_error vl' j) as [b|];
      try reflexivity.
    now rewrite String.eqb_sym.
  - intros i j. rewrite Hget.
    destruct (Nat.ltb_spec i (n + k0)), (Nat.ltb_spec j (n + k0));
      cbn [andb]; unfold k0 in *; split; intros Hx;
      try congruence; try lia; try discriminate.
Qed.

Lemma nvid_verb_cross_cmp_witness :
  exists out,
    verb_item_getter_nvid 5 (example_srl Valid 4 false) example_draws 0
    = Some (Ok out) /\
    verb_cross_cmp out
    = [[1; 1; 0; 0]; [1; 1; 0; 0]; [0; 0; 1; 0]; [0; 0; 0; 0]] /\
    mat_get (verb_cross_cmp out) 0 1 = mat_get (verb_cross_cmp out) 1 0.
Proof.
  destruct (verb_item_getter_nvid 5 (example_srl Valid 4 false)
              example_draws 0) as [[out|e]|] eqn:E.
  - exists out. split; [reflexivity|].
    destruct (nvid_verb_cross_cmp 5 (example_srl Valid 4 false)
                example_draws 0 out) as (_ & _ & Hsym & _).
    + apply firstn_draws_valid; reflexivity.
    + exact E.
    + split; [|apply Hsym].
      clear Hsym. vm_compute in E. inversion E; subst out. reflexivity.
  - vm_compute in E. discriminate E.
  - vm_compute in E. discriminate E.
Defined.

(** ** Gathering on the valid and test splits *)

Lemma gather_pass_heads (self : Anet_SRL) (curr_verb : string)
    (items items' : MoreIdxs) (g : Gathered) :
  Forall2 (fun a b => py_index (snd a) 0 = py_index (snd b) 0) items items' ->
  gather_pass self curr_verb 0 items g
  = gather_pass self curr_verb 0 items' g.
Proof.
  intros H. revert g.
  induction H as [|[na ia] [nb ib] items items' Hab _ IH]; intros g;
    [reflexivity|].
  cbn [gather_pass]. cbn [snd] in Hab. rewrite Hab.
  destruct (len (new_idxs g) <? cs_nvids_sample self); [|apply IH].
  destruct (py_index ib 0) as [x|e]; cbn [bind]; [|reflexivity].
  destruct (negb (x =? -1)); [|apply IH].
  destruct (lemma_verbs self x); cbn [bind]; [apply IH | reflexivity].
Qed.

Lemma gather_pass_bound (self : Anet_SRL) (curr_verb : string) (cons : Z)
    (items : MoreIdxs) (g g' : Gathered) :
  gather_pass self curr_verb cons items g = Ok g' ->
  len (new_idxs g') <= len (new_idxs g) + len items.
Proof.
  revert g. induction items as [|[name ids] items IH]; intros g H.
  - cbn in H. inversion H; subst. unfold len. cbn. lia.
  - cbn [gather_pass] in H. unfold len in *. cbn [length].
    destruct (Z.of_nat (length (new_idxs g)) <? cs_nvids_sample self).
    + inv_bind H. destruct (negb (a =? -1)).
      * inv_bind H. apply IH in H. cbn [new_idxs] in H.
        rewrite length_app in H. cbn [length] in H. lia.
      * apply IH in H. lia.
    + apply IH in H. lia.
Qed.

(** X12.  On the valid and test splits the gathering makes one pass and
    reads only the first entry of each candidate list: two mappings whose
    lists agree on their first entries (or both lack one) give the same
    outcome, and at most one candidate per argument name is added. *)
Theorem gather_eval_first_entries :
  forall (fuel : nat) (self : Anet_SRL) (curr_verb : string)
         (items items' : MoreIdxs) (g : Gathered),
    split_type self <> Train ->
    Forall2 (fun a b => py_index (snd a) 0 = py_index (snd b) 0)
      items items' ->
    gather fuel self curr_verb items g = gather fuel self curr_verb items' g /\
    (forall g',
        gather fuel self curr_verb items g = Some (Ok g') ->
        len (new_idxs g') <= len (new_idxs g) + len items).
Proof.
  intros fuel self cv items items' g Hsplit Hheads. unfold gather.
  destruct (split_type self); [congruence| |].
  - split; [f_equal; now apply gather_pass_heads|].
    intros g' H. inversion H as [H1]. eapply gather_pass_bound; exact H1.
  - split; [f_equal; now apply gather_pass_heads|].
    intros g' H. inversion H as [H1]. eapply gather_pass_bound; exact H1.
Qed.

Lemma gather_eval_first_entries_witness :
  gather 0 (example_srl Valid 3 false) "play"
    [("ARG0"%string, [7; 8; 7]); ("ARG1"%string, [8; 7; 8])] example_gathered
  = gather 0 (example_srl Valid 3 false) "play"
      [("ARG0"%string, [7]); ("ARG1"%string, [8; 0])] example_gathered.
Proof.
  apply (gather_eval_first_entries 0 (example_srl Valid 3 false)
           "play"%string
           [("ARG0"%string, [7; 8; 7]); ("ARG1"%string, [8; 7; 8])]
           [("ARG0"%string, [7]); ("ARG1"%string, [8; 0])]
           example_gathered).
  - discriminate.
  - repeat constructor.
Defined.


(** ** Flattening nested index lists *)

Lemma mapM_cases {A B : Type} (f : A -> result B) (g : A -> B)
    (P : A -> Prop) (e : exn) :
  (forall a, P a -> f a = Ok (g a)) ->
  (forall a, ~ P a -> f a = Raise e) ->
  (forall a, P a \/ ~ P a) ->
  forall l,
    (Forall P l -> mapM f l = Ok (map g l)) /\
    (~ Forall P l -> mapM f l = Raise e).
Proof.
  intros Hok Hbad Hdec l. split.
  - intros H. apply mapM_total. eapply Forall_impl; [|exact H]. exact Hok.
  - induction l as [|a l IH]; intros H.
    + exfalso. apply H. constructor.
    + cbn. destruct (Hdec a) as [Ha | Ha].
      * rewrite (Hok a Ha). cbn. rewrite IH; [reflexivity|].
        intros Hl. apply H. now constructor.
      * now rewrite (Hbad a Ha).
Qed.

Lemma depth_list_le (l : list PyVal) (k : nat) :
  (fold_right (fun q m => Nat.max (depth q) m) 0 l <= k)%nat <->
  Forall (fun q => (depth q <= k)%nat) l.
Proof.
  induction l as [|q l IH]; cbn [fold_right].
  - split; [constructor | lia].
  - split.
    + intros H. constructor; [lia|]. apply IH. lia.
    + intros H. inversion H; subst. apply IH in H3. lia.
Qed.

Lemma depth0 (p : PyVal) : (depth p <= 0)%nat <-> exists z, p = PInt z.
Proof.
  destruct p as [z|l]; cbn; split; intros H; eauto; try lia.
  destruct H as [z H]. discriminate.
Qed.

Lemma flat_map_leaves (l : list PyVal) :
  flat_map leaves l = concat (map leaves l).
Proof. apply flat_map_concat_map. Qed.

Lemma leaves_flat (zs : list Z) : flat_map leaves (map PInt zs) = zs.
Proof. induction zs as [|z zs IH]; cbn; [reflexivity | now rewrite IH]. Qed.

Lemma pidx2list_level3 (l : list PyVal) :
  (Forall (fun q => (depth q <= 0)%nat) l ->
   mapM (fun p3 => match p3 with
                   | PInt z => Ok z
                   | PList _ => Raise AssertionError
                   end) l
   = Ok (flat_map leaves l)) /\
  (~ Forall (fun q => (depth q <= 0)%nat) l ->
   mapM (fun p3 => match p3 with
                   | PInt z => Ok z
                   | PList _ => Raise AssertionError
                   end) l
   = Raise AssertionError).
Proof.
  destruct (mapM_cases
              (fun p3 => match p3 with
                         | PInt z => Ok z
                         | PList _ => Raise AssertionError
                         end)
              (fun p3 => match p3 with PInt z => z | PList _ => 0 end)
              (fun q => (depth q <= 0)%nat) AssertionError) with (l := l)
    as [Hok Hbad].
  - intros [z|l0] H; [reflexivity | cbn in H; lia].
  - intros [z|l0] H; [cbn in H; lia | reflexivity].
  - intros a. lia.
  - split; [|exact Hbad].
    intros H. rewrite (Hok H). f_equal. clear Hok Hbad.
    induction H as [|q l' Hq _ IH]; [reflexivity|].
    apply depth0 in Hq. destruct Hq as [z ->]. cbn [map flat_map leaves app].
    now rewrite IH.
Qed.

Lemma pidx2list_level2 (p2 : PyVal) :
  ((depth p2 <= 1)%nat ->
   mapM (fun p3 => match p3 with
                   | PInt z => Ok z
                   | PList _ => Raise AssertionError
                   end) (as_list p2)
   = Ok (leaves p2)) /\
  (~ (depth p2 <= 1)%nat ->
   mapM (fun p3 => match p3 with
                   | PInt z => Ok z
                   | PList _ => Raise AssertionError
                   end) (as_list p2)
   = Raise AssertionError).
Proof.
  destruct p2 as [z|l].
  - cbn. split; [reflexivity | lia].
  - cbn [as_list leaves depth].
    destruct (pidx2list_level3 l) as [Hok Hbad]. split.
    + intros H. apply Hok, depth_list_le. lia.
    + intros H. apply Hbad. intros HF. apply depth_list_le in HF. lia.
Qed.

Lemma pidx2list_level1 (p1 : PyVal) :
  let f2 := fun p2 =>
    mapM (fun p3 => match p3 with
                    | PInt z => Ok z
                    | PList _ => Raise AssertionError
                    end) (as_list p2) in
  ((depth p1 <= 2)%nat ->
   (per_p2 <- mapM f2 (as_list p1) ;; Ok (concat per_p2)) = Ok (leaves p1)) /\
  (~ (depth p1 <= 2)%nat ->
   (per_p2 <- mapM f2 (as_list p1) ;; Ok (concat per_p2))
   = Raise AssertionError).
Proof.
  intros f2.
  assert (Hlist : forall l,
    (Forall (fun q => (depth q <= 1)%nat) l ->
     mapM f2 l = Ok (map leaves l)) /\
    (~ Forall (fun q => (depth q <= 1)%nat) l ->
     mapM f2 l = Raise AssertionError)).
  { apply mapM_cases.
    - intros a. apply pidx2list_level2.
    - intros a. apply pidx2list_level2.
    - intros a. lia. }
  destruct p1 as [z|l].
  - cbn. split; [reflexivity | lia].
  - cbn [as_list leaves depth]. destruct (Hlist l) as [Hok Hbad]. split.
    + intros H. rewrite Hok by (apply depth_list_le; lia).
      cbn. now rewrite flat_map_leaves.
    + intros H. rewrite Hbad; [reflexivity|].
      intros HF. apply depth_list_le in HF. lia.
Qed.

(** X13.  [pidx2list] flattens: when every item of [pidx] is an index, a
    list of indices, or a list of such lists, it returns all the indices
    in their left-to-right order; a flat list of indices comes back
    unchanged; and an item nested one level deeper makes the assertion
    fail. *)
Theorem pidx2list_flatten :
  forall pidx : list PyVal,
    (Forall (fun p => (depth p <= 2)%nat) pidx ->
     pidx2list pidx = Ok (flat_map leaves pidx)) /\
    (~ Forall (fun p => (depth p <= 2)%nat) pidx ->
     pidx2list pidx = Raise AssertionError) /\
    (forall zs : list Z, pidx = map PInt zs -> pidx2list pidx = Ok zs).
Proof.
  intros pidx.
  destruct (mapM_cases
              (fun p1 =>
                 per_p2 <-
                   mapM (fun p2 =>
                           mapM (fun p3 => match p3 with
                                           | PInt z => Ok z
                                           | PList _ => Raise AssertionError
                                           end) (as_list p2))
                     (as_list p1) ;;
                 Ok (concat per_p2))
              leaves (fun p => (depth p <= 2)%nat) AssertionError)
    with (l := pidx) as [Hok Hbad].
  - intros a. apply (pidx2list_level1 a).
  - intros a. apply (pidx2list_level1 a).
  - intros a. lia.
  - assert (Hflat : Forall (fun p => (depth p <= 2)%nat) pidx ->
                    pidx2list pidx = Ok (flat_map leaves pidx)).
    { intros H. unfold pidx2list. rewrite (Hok H). cbn.
      now rewrite flat_map_leaves. }
    split; [exact Hflat|]. split.
    + intros H. unfold pidx2list. now rewrite (Hbad H).
    + intros zs ->. rewrite Hflat.
      * f_equal. apply leaves_flat.
      * apply Forall_map, Forall_forall. intros z _. cbn. lia.
Qed.

Lemma pidx2list_flatten_witness :
  pidx2list [PInt 3; PList [PInt 4; PList [PInt 5; PInt 6]]; PList []]
  = Ok [3; 4; 5; 6] /\
  pidx2list [PList [PList [PList [PInt 1]]]] = Raise AssertionError.
Proof.
  split.
  - destruct (pidx2list_flatten
                [PInt 3; PList [PInt 4; PList [PInt 5; PInt 6]]; PList []])
      as (Hflat & _).
    rewrite Hflat; [reflexivity|].
    repeat constructor; cbn; lia.
  - destruct (pidx2list_flatten [PList [PList [PList [PInt 1]]]])
      as (_ & Hbad & _).
    apply Hbad. intros H. inversion H; subst. cbn in *. lia.
Defined.

(** ** Batch collation *)

Lemma mapM_exists {A B : Type} (f : A -> result B) (l : list A) :
  (forall a, In a l -> exists b, f a = Ok b) -> exists r, mapM f l = Ok r.
Proof.
  induction l as [|a l IH]; intros H; cbn; [eauto|].
  destruct (H a (or_introl eq_refl)) as [b ->].
  destruct IH as [r ->]; [intros; apply H; now right|].
  cbn. eauto.
Qed.

Lemma mapM_In {A B : Type} (f : A -> result B) (l : list A) (r : list B)
    (a : A) :
  mapM f l = Ok r -> In a l -> exists b, f a = Ok b /\ In b r.
Proof.
  intros H Ha. apply In_nth_error in Ha. destruct Ha as [i Hi].
  destruct (mapM_nth _ _ _ _ _ H Hi) as (b & Hb & Hr).
  exists b. split; [assumption|]. eapply nth_error_In; eassumption.
Qed.

Lemma mapM_In_inv {A B : Type} (f : A -> result B) (l : list A) (r : list B)
    (b : B) :
  mapM f l = Ok r -> In b r -> exists a, In a l /\ f a = Ok b.
Proof.
  revert r. induction l as [|a l IH]; cbn; intros r H Hb.
  - inversion H; subst. contradiction.
  - destruct (f a) as [b0|] eqn:Fa; [|discriminate]. cbn in H.
    destruct (mapM f l) as [r0|] eqn:M; [|discriminate]. cbn in H.
    inversion H; subst. destruct Hb as [<- | Hb].
    + exists a. auto.
    + destruct (IH r0 eq_refl Hb) as (a' & Ha' & Hf). exists a'. auto.
Qed.

Lemma shape_eqb_eq (a b : list nat) : shape_eqb a b = true <-> a = b.
Proof.
  unfold shape_eqb. destruct (list_eq_dec Nat.eq_dec a b); split;
    congruence.
Qed.

Lemma torch_stack_inv (ts : list Tensor) (v : Tensor) :
  torch_stack ts = Ok v ->
  exists t0 ts',
    ts = t0 :: ts' /\
    Forall (fun t => t_shape t = t_shape t0) ts /\
    t_shape v = length ts :: t_shape t0 /\
    t_data v = concat (map t_data ts).
Proof.
  unfold torch_stack. destruct ts as [|t0 ts']; [discriminate|].
  destruct (forallb _ _) eqn:F; [|discriminate].
  intros [= <-]. exists t0, ts'. split; [reflexivity|].
  split; [|split; reflexivity].
  rewrite forallb_forall in F. apply Forall_forall.
  intros t Ht. now apply shape_eqb_eq, F.
Qed.

Lemma torch_stack_total (t0 : Tensor) (ts' : list Tensor) :
  Forall (fun t => t_shape t = t_shape t0) ts' ->
  torch_stack (t0 :: ts')
  = Ok {| t_shape := S (length ts') :: t_shape t0;
          t_data := concat (map t_data (t0 :: ts')) |}.
Proof.
  intros H. unfold torch_stack.
  assert (F : forallb (fun t => shape_eqb (t_shape t) (t_shape t0))
                (t0 :: ts') = true).
  { apply forallb_forall. intros t [<- | Ht].
    - now apply shape_eqb_eq.
    - rewrite Forall_forall in H. now apply shape_eqb_eq, H. }
  now rewrite F.
Qed.

(** X14.  [BatchCollator] returns a batch exactly when every example
    has every key of the first example with a tensor of the same shape.
    The batch then has the keys of the first example, in its order, and
    under each key the examples' tensors stacked in batch order, of shape
    [(N, *shape)]; keys that only later examples have are left out.  An
    empty batch raises an [IndexError]. *)
Theorem BatchCollator_call_spec :
  forall (b0 : list (string * Tensor))
         (rest : list (list (string * Tensor))),
    (shapes_agree b0 (b0 :: rest) ->
     exists out,
       BatchCollator_call (b0 :: rest) = Ok out /\
       dict_keys out = dict_keys b0 /\
       forall (k : string) (v : Tensor),
         In (k, v) out ->
         exists t0 ts,
           dict_get b0 k = Ok t0 /\
           mapM (fun b => dict_get b k) (b0 :: rest) = Ok ts /\
           t_shape v = S (length rest) :: t_shape t0 /\
           t_data v = concat (map t_data ts)) /\
    (forall out,
        BatchCollator_call (b0 :: rest) = Ok out ->
        shapes_agree b0 (b0 :: rest)) /\
    BatchCollator_call [] = Raise IndexError.
Proof.
  intros b0 rest. set (batch := b0 :: rest).
  set (F := fun k =>
              t0 <- dict_get b0 k ;;
              _ <- mapM (fun b => t <- dict_get b k ;;
                                  Ok (shape_eqb (t_shape t) (t_shape t0)))
                     batch ;;
              ts <- mapM (fun b => dict_get b k) batch ;;
              v <- torch_stack ts ;;
              Ok (k, v)).
  assert (Hcall :
    BatchCollator_call batch
    = (out_dict <- mapM F (dict_keys b0) ;;
       sizes <- mapM (fun kv => tensor_len (snd kv)) out_dict ;;
       _ <- py_assert (forallb (fun d => Nat.eqb d (length batch)) sizes) ;;
       Ok out_dict)) by reflexivity.
  split; [|split; [|reflexivity]].
  - intros Hagree.
    assert (Hkeys : forall ks, incl ks (dict_keys b0) ->
      exists outs,
        mapM F ks = Ok outs /\ map fst outs = ks /\
        Forall (fun kv =>
                  exists t0 ts,
                    dict_get b0 (fst kv) = Ok t0 /\
                    mapM (fun b => dict_get b (fst kv)) batch = Ok ts /\
                    t_shape (snd kv) = S (length rest) :: t_shape t0 /\
                    t_data (snd kv) = concat (map t_data ts)) outs).
    { induction ks as [|k ks IH]; intros Hincl.
      - exists []. cbn. auto.
      - destruct IH as (outs & Houts & Hfst & Hspec).
        { intros x Hx. apply Hincl. now right. }
        assert (Hk : In k (dict_keys b0)) by (apply Hincl; now left).
        destruct (Hagree k Hk b0 (or_introl eq_refl))
          as (t0 & t0' & Ht0 & _ & _).
        assert (Hget : forall b, In b batch ->
                  exists t, dict_get b k = Ok t /\ t_shape t = t_shape t0).
        { intros b Hb. destruct (Hagree k Hk b Hb) as (t & t1 & Ht & Ht1 & Hs).
          rewrite Ht0 in Ht1. inversion Ht1; subst t1. eauto. }
        destruct (mapM_exists (fun b => dict_get b k) rest) as [ts' Hts'].
        { intros b Hb. destruct (Hget b (or_intror Hb)) as (t & Ht & _). eauto. }
        destruct (mapM_exists
                    (fun b => t <- dict_get b k ;;
                              Ok (shape_eqb (t_shape t) (t_shape t0))) batch)
          as [shapes Hshapes].
        { intros b Hb. destruct (Hget b Hb) as (t & -> & _). cbn. eauto. }
        assert (Hts : mapM (fun b => dict_get b k) batch = Ok (t0 :: ts')).
        { unfold batch. cbn [mapM]. rewrite Ht0. cbn [bind].
          rewrite Hts'. reflexivity. }
        assert (Hsh : Forall (fun t => t_shape t = t_shape t0) ts').
        { apply Forall_forall. intros t Ht.
          destruct (mapM_In_inv _ _ _ _ Hts' Ht) as (b & Hb & Hbt).
          destruct (Hget b (or_intror Hb)) as (t' & Ht' & Hs).
          rewrite Hbt in Ht'. inversion Ht'; subst t'. exact Hs. }
        eexists. cbn [mapM]. unfold F at 1.
        rewrite Ht0. cbn [bind]. rewrite Hshapes. cbn [bind].
        rewrite Hts. cbn [bind].
        rewrite (torch_stack_total t0 ts' Hsh). cbn [bind].
        rewrite Houts. cbn [bind]. split; [reflexivity|].
        cbn [map fst]. split; [now rewrite Hfst|].
        constructor; [|exact Hspec]. cbn [fst snd t_shape t_data].
        exists t0, (t0 :: ts'). repeat split; try assumption.
        do 2 f_equal. rewrite (mapM_length _ _ _ Hts'). reflexivity. }
    destruct (Hkeys (dict_keys b0) (incl_refl _)) as (outs & Houts & Hfst & Hspec).
    exists outs. rewrite Hcall, Houts. cbn [bind].
    rewrite (mapM_total _ (fun _ => length batch)).
    + cbn [bind].
      assert (Hall : forallb (fun d => Nat.eqb d (length batch))
                       (map (fun _ : string * Tensor => length batch) outs)
                     = true).
      { apply forallb_forall. intros d Hd. apply in_map_iff in Hd.
        destruct Hd as (x & <- & _). apply Nat.eqb_refl. }
      rewrite Hall. cbn [py_assert bind].
      split; [reflexivity|]. split; [exact Hfst|].
      intros k v Hin. rewrite Forall_forall in Hspec.
      exact (Hspec (k, v) Hin).
    + eapply Forall_impl; [|exact Hspec].
      intros [k v] (t0 & ts & _ & _ & Hshape & _). cbn [snd] in *.
      unfold tensor_len. rewrite Hshape. reflexivity.
  - intros out Hout. rewrite Hcall in Hout.
    inv_bind Hout. rename E into Hm.
    intros k Hk b Hb.
    destruct (mapM_In _ _ _ _ Hm Hk) as ([k' v] & HF & _).
    unfold F in HF.
    inv_bind HF. rename a0 into t0.
    inv_bind HF. inv_bind HF. rename a1 into ts.
    inv_bind HF.
    match goal with
    | E : torch_stack ts = Ok _ |- _ =>
        apply torch_stack_inv in E;
        destruct E as (t1 & ts' & -> & Hsame & _)
    end.
    match goal with
    | E : mapM (fun b => dict_get b k) batch = Ok _ |- _ => rename E into Hts
    end.
    assert (Ht1 : t1 = t0).
    { unfold batch in Hts. cbn [mapM] in Hts.
      match goal with E : dict_get b0 k = Ok t0 |- _ => rewrite E in Hts end.
      cbn [bind] in Hts. inv_bind Hts. now inversion Hts. }
    subst t1.
    destruct (mapM_In _ _ _ _ Hts Hb) as (t & Ht & Hin).
    exists t, t0. split; [assumption|].
    split; [assumption || reflexivity|].
    rewrite Forall_forall in Hsame. now apply Hsame.
Qed.

Lemma example_batch_agrees :
  shapes_agree
    [ ("feat"%string, {| t_shape := [2%nat]; t_data := [1; 2]%Q |});
      ("num"%string, {| t_shape := []; t_data := [7]%Q |}) ]
    example_batch.
Proof.
  intros k Hk b Hb. cbn in Hk.
  destruct Hb as [<- | [<- | []]];
    destruct Hk as [<- | [<- | []]]; cbn; eauto.
Qed.

Lemma BatchCollator_call_spec_witness :
  exists out,
    BatchCollator_call example_batch = Ok out /\
    dict_keys out = ["feat"; "num"]%string /\
    dict_get out "feat"
    = Ok {| t_shape := [2%nat; 2%nat]; t_data := [1; 2; 3; 4]%Q |}.
Proof.
  destruct (BatchCollator_call_spec
              [ ("feat"%string, {| t_shape := [2%nat]; t_data := [1; 2]%Q |});
                ("num"%string, {| t_shape := []; t_data := [7]%Q |}) ]
              [ [ ("num"%string, {| t_shape := []; t_data := [9]%Q |});
                  ("feat"%string,
                   {| t_shape := [2%nat]; t_data := [3; 4]%Q |});
                  ("extra"%string, {| t_shape := []; t_data := [0]%Q |}) ] ])
    as (Hret & _ & _).
  destruct (Hret example_batch_agrees) as (out & Hout & Hkeys & _).
  exists out. split; [exact Hout|]. split; [exact Hkeys|].
  vm_compute in Hout. inversion Hout; subst out. reflexivity.
Defined.

(** ** Reshuffling the proposals of the panels *)

Lemma nth_concat_blocks {A : Type} (p : nat) (blocks : list (list A))
    (b i : nat) :
  Forall (fun blk => length blk = p) blocks -> (i < p)%nat ->
  nth_error (concat blocks) (b * p + i)
  = match nth_error blocks b with
    | Some blk => nth_error blk i
    | None => None
    end.
Proof.
  intros H Hi. revert b. induction H as [|blk blocks Hb _ IH]; intros b.
  - cbn [concat]. destruct (b * p + i)%nat; destruct b; reflexivity.
  - destruct b as [|b]; cbn [concat nth_error Nat.mul Nat.add].
    + apply nth_error_app1. lia.
    + rewrite nth_error_app2 by lia.
      replace (p + b * p + i - length blk)%nat with (b * p + i)%nat by lia.
      apply IH.
Qed.

Lemma chunk_length {A : Type} (size k total : nat) (l : list A) :
  length l = (total * size)%nat -> (k < total)%nat ->
  length (chunk size k l) = size.
Proof.
  intros Hl Hk. unfold chunk. rewrite length_firstn, length_skipn. nia.
Qed.

Lemma chunk_nth {A : Type} (size k i : nat) (l : list A) :
  (i < size)%nat ->
  nth_error (chunk size k l) i = nth_error l (k * size + i).
Proof.
  intros Hi. unfold chunk. rewrite nth_error_firstn.
  destruct (Nat.ltb_spec i size); [|lia].
  now rewrite nth_error_skipn.
Qed.

(** X15.  [reshuffle_boxes] only reorders: on [n] videos of
    [num_frms * num_prop_per_frm] rows each it returns
    [n * num_frms * num_prop_per_frm] rows, and the row of proposal [k]
    of frame [f] of video [v] is found at position
    [(f * n + v) * num_prop_per_frm + k], so that the proposals of one
    frame of all the videos are adjacent. *)
Theorem reshuffle_boxes_position :
  forall (self : AnetEntDataset) (num_props : nat)
         (inp_t : list (list (list Q))) (flat : list (list Q)),
    SPAT.reshuffle_boxes self num_props inp_t = Ok flat ->
    Forall (fun video => length video = num_props) inp_t ->
    let nfrms := Z.to_nat (num_frms self) in
    let nppf := Z.to_nat (num_prop_per_frm self) in
    let n := length inp_t in
    length flat = (n * num_props)%nat /\
    num_props = (nfrms * nppf)%nat /\
    forall (v f k : nat) (video : list (list Q)),
      (f < nfrms)%nat -> (k < nppf)%nat ->
      nth_error inp_t v = Some video ->
      nth_error flat ((f * n + v) * nppf + k)
      = nth_error video (f * nppf + k).
Proof.
  intros self P inp flat H Hrows nfrms nppf n.
  unfold SPAT.reshuffle_boxes in H.
  destruct (Z.ltb_spec (num_frms self) 0); [discriminate|].
  destruct (Z.ltb_spec (num_prop_per_frm self) 0); [discriminate|].
  destruct (Z.eqb_spec (Z.of_nat P)
              (num_frms self * num_prop_per_frm self)) as [HP|];
    [|discriminate].
  cbn in H. inversion H; subst flat; clear H.
  fold nfrms nppf.
  assert (HPn : P = (nfrms * nppf)%nat) by (unfold nfrms, nppf; nia).
  assert (Hinner : forall f, (f < nfrms)%nat ->
            Forall (fun blk => length blk = nppf) (map (chunk nppf f) inp)).
  { intros f Hf. apply Forall_map.
    eapply Forall_impl; [|exact Hrows]. cbn. intros video Hv.
    apply (chunk_length nppf f nfrms); lia. }
  assert (Houter : Forall (fun blk => length blk = (n * nppf)%nat)
            (map (fun f => concat (map (chunk nppf f) inp)) (seq 0 nfrms))).
  { apply Forall_map, Forall_forall. intros f Hf. apply in_seq in Hf.
    specialize (Hinner f ltac:(lia)).
    clear - Hinner. unfold n.
    induction inp as [|video inp IH]; [reflexivity|].
    cbn in *. inversion Hinner; subst.
    rewrite length_app, IH by assumption. lia. }
  split; [|split; [exact HPn|]].
  - clear - Houter HPn.
    assert (G : forall blocks : list (list (list Q)),
              Forall (fun blk => length blk = (n * nppf)%nat) blocks ->
              length (concat blocks) = (length blocks * (n * nppf))%nat).
    { induction 1 as [|blk blocks Hb _ IH]; [reflexivity|].
      cbn. rewrite length_app, IH. lia. }
    rewrite (G _ Houter), length_map, length_seq. nia.
  - intros v f k video Hf Hk Hv.
    assert (Hvn : (v < n)%nat) by (apply nth_error_Some; congruence).
    replace ((f * n + v) * nppf + k)%nat
      with (f * (n * nppf) + (v * nppf + k))%nat by nia.
    rewrite (nth_concat_blocks (n * nppf)) by (assumption || nia).
    rewrite nth_error_map, (nth_error_seq0 nfrms f Hf). cbn [option_map].
    rewrite (nth_concat_blocks nppf) by (auto || lia).
    rewrite nth_error_map, Hv. cbn [option_map].
    now apply chunk_nth.
Qed.

Lemma reshuffle_boxes_position_witness :
  exists flat,
    SPAT.reshuffle_boxes example_dataset 4
      [ [[1]; [2]; [3]; [4]]; [[5]; [6]; [7]; [8]] ]%Q = Ok flat /\
    length flat = 8%nat /\
    nth_error flat 6 = Some [7%Q].
Proof.
  destruct (SPAT.reshuffle_boxes example_dataset 4
              [ [[1]; [2]; [3]; [4]]; [[5]; [6]; [7]; [8]] ]%Q)
    as [flat|e] eqn:E.
  - exists flat. split; [reflexivity|].
    destruct (reshuffle_boxes_position example_dataset 4 _ flat E)
      as (Hlen & _ & Hpos).
    + repeat constructor.
    + split; [exact Hlen|].
      apply (Hpos 1%nat 1%nat 0%nat [[5]; [6]; [7]; [8]]%Q);
        [cbn; lia | cbn; lia | reflexivity].
  - vm_compute in E. discriminate E.
Defined.

(** ** Ground-truth boxes of the panels and the box links *)

Lemma cumsum_from_nth (l : list Z) (acc : Z) (t : nat) :
  (t <= length l)%nat ->
  nth_error (acc :: cumsum_from acc l) t
  = Some (acc + sum_list (firstn t l)).
Proof.
  revert acc t. induction l as [|x l IH]; intros acc t Ht.
  - cbn in Ht. assert (t = 0%nat) by lia. subst. cbn. f_equal. lia.
  - destruct t as [|t].
    + cbn. f_equal. lia.
    + cbn [cumsum_from nth_error firstn]. rewrite IH by (cbn in Ht; lia).
      f_equal. unfold sum_list. cbn [fold_right]. lia.
Qed.

Lemma sum_list_prefix_nonneg (l : list Z) (t : nat) :
  Forall (fun n => 0 <= n) l -> 0 <= sum_list (firstn t l).
Proof.
  intros H. revert t. induction H as [|x l Hx _ IH]; intros [|t];
    cbn [firstn]; unfold sum_list in *; cbn [fold_right]; try lia.
  specialize (IH t). lia.
Qed.

Lemma prefix_blocks_nth {A : Type} (gt_boxs : list (list A)) (nums : list Z) :
  Forall2 (fun vid n1 => 0 <= n1 <= len vid) gt_boxs nums ->
  forall (t : nat) (video : list A) (nb b : Z),
    nth_error gt_boxs t = Some video -> nth_error nums t = Some nb ->
    0 <= b < nb ->
    nth_error (concat (map2 (fun gt_box n1 => py_prefix gt_box n1)
                         gt_boxs nums))
      (Z.to_nat (sum_list (firstn t nums) + b))
    = nth_error video (Z.to_nat b).
Proof.
  induction 1 as [|vid n1 gt_boxs nums Hn HF IH];
    intros t video nb b Hv Hnb Hb.
  - destruct t; discriminate Hv.
  - assert (Hlen : length (py_prefix vid n1) = Z.to_nat n1).
    { rewrite py_prefix_nonneg by lia. rewrite length_firstn.
      unfold len in Hn. lia. }
    cbn [map2 concat]. destruct t as [|t].
    + cbn in Hv, Hnb. inversion Hv; inversion Hnb; subst.
      cbn [firstn]. change (sum_list []) with 0.
      rewrite nth_error_app1 by lia.
      rewrite py_prefix_nonneg by lia.
      rewrite nth_error_firstn.
      replace (Z.to_nat (0 + b)) with (Z.to_nat b) by lia.
      destruct (Nat.ltb_spec (Z.to_nat b) (Z.to_nat nb)); [reflexivity|lia].
    + cbn in Hv, Hnb. cbn [firstn].
      assert (Hs : 0 <= sum_list (firstn t nums)).
      { apply sum_list_prefix_nonneg.
        clear - HF. induction HF; constructor; (lia || assumption). }
      assert (Hsum : sum_list (n1 :: firstn t nums)
                     = n1 + sum_list (firstn t nums)) by reflexivity.
      rewrite Hsum, nth_error_app2 by lia.
      rewrite Hlen.
      replace (Z.to_nat (n1 + sum_list (firstn t nums) + b) - Z.to_nat n1)%nat
        with (Z.to_nat (sum_list (firstn t nums) + b)) by lia.
      eapply IH; eassumption.
Qed.

Lemma shift_srl_boxes_get (x1 x2 : list (list Z)) (pos : Z) (a j : nat)
    (b l : Z) :
  mat_get x1 a j = Some b -> mat_get x2 a j = Some l ->
  mat_get (shift_srl_boxes x1 x2 pos) a j
  = Some (if l >? 0 then b + pos else b).
Proof.
  unfold mat_get, shift_srl_boxes. intros H1 H2.
  destruct (nth_error x1 a) as [r1|] eqn:E1; [|discriminate].
  destruct (nth_error x2 a) as [r2|] eqn:E2; [|discriminate].
  rewrite (map2_nth _ _ _ _ _ _ E1 E2).
  exact (map2_nth (fun b l => if l >? 0 then b + pos else b)
           r1 r2 j b l H1 H2).
Qed.

(** X16.  The box links follow the target video into the concatenated
    ground-truth boxes.  When every video has at least [num_box] rows,
    a valid link (its [srl_boxes_lens] entry positive) to box [b] of the
    target video [tcmp] is moved by [x1[x2 > 0] += new_pos] to
    [new_pos + b], where [new_pos] is the number of boxes of the videos
    before the target; [process_gt_boxs] returns [max_gt_box] rows, and
    if row [new_pos + b] survives that cut it is row [b] of the target
    video.  Links whose validity entry is not positive are left as they
    are. *)
Theorem srl_boxes_follow_target :
  forall (self : AnetEntDataset) (gt_boxs : list (list (list Q)))
         (nums : list Z) (tcmp : nat) (video : list (list Q)) (nb : Z)
         (x1 x2 : list (list Z)) (a j : nat) (b l : Z),
    0 <= max_gt_box self ->
    Forall2 (fun vid n1 => 0 <= n1 <= len vid) gt_boxs nums ->
    nth_error gt_boxs tcmp = Some video ->
    nth_error nums tcmp = Some nb ->
    mat_get x1 a j = Some b ->
    mat_get x2 a j = Some l ->
    exists pos : Z,
      new_pos nums (Z.of_nat tcmp) = Ok pos /\
      pos = sum_list (firstn tcmp nums) /\
      (l <= 0 -> mat_get (shift_srl_boxes x1 x2 pos) a j = Some b) /\
      (0 < l -> 0 <= b < nb ->
       mat_get (shift_srl_boxes x1 x2 pos) a j = Some (pos + b) /\
       exists out : list (list Q),
         process_gt_boxs self gt_boxs nums = Ok out /\
         len out = max_gt_box self /\
         (pos + b < max_gt_box self ->
          nth_error out (Z.to_nat (pos + b))
          = nth_error video (Z.to_nat b))).
Proof.
  intros self gt_boxs nums tcmp video nb x1 x2 a j b l
    Hmax HF Hv Hnb Hx1 Hx2.
  assert (Hnn : Forall (fun n => 0 <= n) nums).
  { clear - HF. induction HF; constructor; (lia || assumption). }
  assert (Ht : (tcmp < length nums)%nat)
    by (apply nth_error_Some; congruence).
  pose proof (sum_list_prefix_nonneg nums tcmp Hnn) as Hpos0.
  exists (sum_list (firstn tcmp nums)).
  set (pos := sum_list (firstn tcmp nums)) in *.
  split.
  { unfold new_pos. apply py_index_nth.
    rewrite cumsum_from_nth by lia. reflexivity. }
  split; [reflexivity|].
  pose proof (shift_srl_boxes_get x1 x2 pos a j b l Hx1 Hx2) as Hshift.
  split.
  { intros Hl. rewrite Hshift.
    destruct (Z.gtb_spec l 0); [lia|reflexivity]. }
  intros Hl Hb. split.
  { rewrite Hshift. destruct (Z.gtb_spec l 0); [|lia].
    f_equal. lia. }
  pose proof (prefix_blocks_nth gt_boxs nums HF tcmp video nb b Hv Hnb Hb)
    as Hcat.
  fold pos in Hcat.
  assert (Hrow : exists row, nth_error video (Z.to_nat b) = Some row).
  { assert (Hvid : 0 <= nb <= len video).
    { clear - HF Hv Hnb. revert tcmp Hv Hnb.
      induction HF as [|v0 n0 g ns H0 _ IH]; intros [|t] Hv Hnb;
        try discriminate Hv.
      - cbn in Hv, Hnb. inversion Hv; inversion Hnb; subst. exact H0.
      - eapply IH; eassumption. }
    destruct (nth_error video (Z.to_nat b)) as [row|] eqn:E;
      [now exists row|].
    apply nth_error_None in E. unfold len in Hvid. lia. }
  destruct Hrow as [row Hrow]. rewrite Hrow in Hcat |- *.
  unfold process_gt_boxs.
  set (cat := concat (map2 (fun gt_box n1 => py_prefix gt_box n1)
                        gt_boxs nums)) in *.
  assert (Hlt : (Z.to_nat (pos + b) < length cat)%nat)
    by (apply nth_error_Some; congruence).
  destruct (Nat.eqb_spec (length cat) 0) as [E0|_]; [lia|].
  cbn [bind]. unfold F_pad_rows.
  destruct (Z.ltb_spec (len cat + (max_gt_box self - len cat)) 0);
    [lia|].
  destruct (Z.ltb_spec (max_gt_box self - len cat) 0).
  - eexists. split; [reflexivity|]. split.
    + unfold len in *. rewrite length_firstn. lia.
    + intros Hcut. rewrite nth_error_firstn.
      destruct (Nat.ltb_spec (Z.to_nat (pos + b))
                  (Z.to_nat (len cat + (max_gt_box self - len cat))));
        [exact Hcat|lia].
  - eexists. split; [reflexivity|]. split.
    + unfold len in *. rewrite length_app, repeat_length. lia.
    + intros Hcut. rewrite nth_error_app1 by exact Hlt. exact Hcat.
Qed.

Lemma srl_boxes_follow_target_witness :
  exists out : list (list Q),
    new_pos [1; 2] 1 = Ok 1 /\
    mat_get (shift_srl_boxes [[1; 0]] [[1; 0]] 1) 0 0 = Some 2 /\
    process_gt_boxs example_dataset
      [ [[1]; [0]]; [[2]; [3]] ]%Q [1; 2] = Ok out /\
    len out = max_gt_box example_dataset /\
    nth_error out 2 = Some [3%Q].
Proof.
  destruct (srl_boxes_follow_target example_dataset
              [ [[1]; [0]]; [[2]; [3]] ]%Q [1; 2] 1%nat
              [[2]; [3]]%Q 2 [[1; 0]] [[1; 0]] 0%nat 0%nat 1 1)
    as (pos & Hpos & Hsum & _ & Hlink).
  - vm_compute. discriminate.
  - repeat constructor; vm_compute; discriminate.
  - reflexivity.
  - reflexivity.
  - reflexivity.
  - reflexivity.
  - vm_compute in Hsum. subst pos.
    destruct Hlink as (Hshift & out & Hout & Hlen & Hnth); [lia | lia |].
    exists out. repeat split; try assumption.
    apply Hnth. vm_compute. reflexivity.
Defined.

(** X17.  When no video contributes a box (every [num_box] is 0),
    [process_gt_boxs] falls back on the first row of the first video,
    followed by zero rows up to [max_gt_box]; without any video, or with
    a first video without rows, the fallback raises [IndexError]. *)
Theorem process_gt_boxs_dummy :
  forall (self : AnetEntDataset) (gt_boxs : list (list (list Q)))
         (nums : list Z),
    0 < max_gt_box self ->
    Forall (fun n1 => n1 = 0) nums ->
    match gt_boxs with
    | (box0 :: _) :: _ =>
        process_gt_boxs self gt_boxs nums
        = Ok (box0 :: repeat (repeat 0%Q (length box0))
                        (Z.to_nat (max_gt_box self - 1)))
    | _ => process_gt_boxs self gt_boxs nums = Raise IndexError
    end.
Proof.
  intros self gt_boxs nums Hmax Hz.
  assert (Hcat : concat (map2 (fun (gt_box : list (list Q)) n1 =>
                                 py_prefix gt_box n1) gt_boxs nums) = []).
  { revert gt_boxs. induction Hz as [|n1 nums Hn _ IH]; intros [|v g];
      try reflexivity.
    subst n1. cbn [map2 concat]. rewrite IH.
    rewrite py_prefix_nonneg by lia. reflexivity. }
  unfold process_gt_boxs. rewrite Hcat. cbn [length Nat.eqb].
  destruct gt_boxs as [|[|box0 video0] rest]; try reflexivity.
  transitivity (F_pad_rows [box0] (max_gt_box self - 1)); [reflexivity|].
  unfold F_pad_rows. change (len [box0]) with 1.
  destruct (Z.ltb_spec (1 + (max_gt_box self - 1)) 0); [lia|].
  destruct (Z.ltb_spec (max_gt_box self - 1) 0); [lia|].
  reflexivity.
Qed.

Lemma process_gt_boxs_dummy_witness :
  process_gt_boxs example_dataset [ [[7; 8]; [0; 0]] ]%Q [0]
  = Ok ([7; 8]%Q :: repeat [0; 0]%Q
          (Z.to_nat (max_gt_box example_dataset - 1))).
Proof.
  apply (process_gt_boxs_dummy example_dataset [ [[7; 8]; [0; 0]] ]%Q [0]).
  - vm_compute. reflexivity.
  - repeat constructor.
Defined.

(** ** Box links of the SRL arguments *)

Lemma pad_length {A : Type} (l : list A) (d : A) (n : nat) :
  length (firstn n l ++ repeat d (n - length l)) = n.
Proof. rewrite length_app, length_firstn, repeat_length. lia. Qed.

Lemma pad_get {A : Type} (l : list A) (d : A) (n j : nat) :
  (j < n)%nat ->
  nth_error (firstn n l ++ repeat d (n - length l)) j = Some (nth j l d).
Proof.
  intros Hj. destruct (Nat.lt_ge_cases j (length l)) as [Hl|Hl].
  - rewrite nth_error_app1 by (rewrite length_firstn; lia).
    rewrite nth_error_firstn.
    destruct (Nat.ltb_spec j n); [|lia].
    now apply nth_error_nth'.
  - rewrite nth_error_app2 by (rewrite length_firstn; lia).
    rewrite length_firstn, nth_overflow by lia.
    apply nth_error_repeat. lia.
Qed.

Lemma mapi_nth (f : nat -> Z -> Z) (l : list Z) (j : nat) :
  f j 0 = 0 -> nth j (mapi f l) 0 = f j (nth j l 0).
Proof.
  intros H0. unfold mapi.
  destruct (Nat.lt_ge_cases j (length l)) as [Hl|Hl].
  - destruct (nth_error l j) as [x|] eqn:E;
      [|apply nth_error_None in E; lia].
    rewrite (nth_error_nth _ _ 0 E).
    apply nth_error_nth.
    apply map2_nth; [|exact E].
    rewrite nth_error_seq; destruct (Nat.ltb_spec j (length l));
      [reflexivity|lia].
  - rewrite !nth_overflow; [now rewrite H0 | lia |].
    rewrite map2_length, length_seq. lia.
Qed.

Lemma repeat_get (m j : nat) :
  nth j (repeat 1 m) 0 = if (j <? m)%nat then 1 else 0.
Proof.
  destruct (Nat.ltb_spec j m).
  - apply nth_error_nth. now apply nth_error_repeat.
  - apply nth_overflow. rewrite repeat_length. lia.
Qed.

Lemma combine_seq_nth {A : Type} (l : list A) (i : nat) (a : A) :
  nth_error l i = Some a ->
  nth_error (combine (seq 0 (length l)) l) i = Some (i, a).
Proof.
  intros H.
  assert (Hi : (i < length l)%nat) by (apply nth_error_Some; congruence).
  assert (G : forall s, nth_error (combine (seq s (length l)) l) i
                        = Some ((s + i)%nat, a)).
  { revert i H Hi. induction l as [|x l IH]; intros i H Hi s.
    - destruct i; discriminate H.
    - destruct i as [|i]; cbn in *.
      + inversion H. now rewrite Nat.add_0_r.
      + rewrite (IH i H ltac:(lia) (S s)). f_equal. f_equal. lia. }
  exact (G 0%nat).
Qed.

(** X18.  The box links of an SRL row, for non-negative
    [box_per_srl_arg] and [srl_arg_len] and at least one argument: the
    three outputs have [srl_arg_len] rows, the two matrices
    [box_per_srl_arg] columns.  For an argument [a] of the row with flag
    [flag] and box indices [s1], column [j] of [srl_boxes] is [s1[j]]
    (0 past the end of [s1]), column [j] of [srl_boxes_lens] is 1
    exactly when [flag] is 1 and [j < len(s1)], and the indicator is
    [flag]; past the arguments of the row everything is 0. *)
Theorem srl_box_links_spec :
  forall (box_per_srl_arg srl_arg_len : Z)
         (req_cls_pats_mask : list (string * Z * list Z)),
    0 <= box_per_srl_arg -> 0 <= srl_arg_len ->
    req_cls_pats_mask <> [] ->
    exists (srl_boxes srl_boxes_lens : list (list Z))
           (srl_arg_boxes_indicator : list Z),
      srl_box_links box_per_srl_arg srl_arg_len req_cls_pats_mask
      = Ok (srl_boxes, srl_boxes_lens, srl_arg_boxes_indicator) /\
      len srl_boxes = srl_arg_len /\
      len srl_boxes_lens = srl_arg_len /\
      len srl_arg_boxes_indicator = srl_arg_len /\
      Forall (fun r => len r = box_per_srl_arg) srl_boxes /\
      Forall (fun r => len r = box_per_srl_arg) srl_boxes_lens /\
      forall a j : nat,
        Z.of_nat a < srl_arg_len -> Z.of_nat j < box_per_srl_arg ->
        match nth_error req_cls_pats_mask a with
        | Some (_, flag, s1) =>
            mat_get srl_boxes a j = Some (nth j s1 0) /\
            mat_get srl_boxes_lens a j
            = Some (if (flag =? 1) && (Z.of_nat j <? len s1)
                    then 1 else 0) /\
            nth_error srl_arg_boxes_indicator a = Some flag
        | None =>
            mat_get srl_boxes a j = Some 0 /\
            mat_get srl_boxes_lens a j = Some 0 /\
            nth_error srl_arg_boxes_indicator a = Some 0
        end.
Proof.
  intros B A pats HB HA Hne.
  set (nB := Z.to_nat B). set (nA := Z.to_nat A).
  set (indicator := map (fun p : string * Z * list Z => snd (fst p)) pats).
  set (inds := map (fun p : string * Z * list Z => snd p) pats).
  set (g := fun p : nat * list Z =>
              let flag := nth (fst p) indicator 0 in
              let mult :=
                if flag =? 1 then Z.min (len (snd p)) B else 0 in
              let s11 :=
                mapi (fun x_ix x => if Z.of_nat x_ix <? B then x else 0)
                  (snd p) in
              (firstn nB s11 ++ repeat 0 (nB - length s11),
               firstn nB (repeat 1 (Z.to_nat mult))
                 ++ repeat 0 (nB - length (repeat 1 (Z.to_nat mult))))).
  set (per := map g (combine (seq 0 (length inds)) inds)).
  set (filler := repeat 0 nB).
  assert (Hrun : srl_box_links B A pats
                 = Ok (firstn nA (map fst per)
                         ++ repeat filler (nA - length (map fst per)),
                       firstn nA (map snd per)
                         ++ repeat filler (nA - length (map snd per)),
                       firstn nA indicator
                         ++ repeat 0 (nA - length indicator))).
  { unfold srl_box_links. destruct pats as [|p0 pats']; [congruence|].
    cbn [bind]. fold indicator inds.
    rewrite (mapM_total _ g).
    - cbn [bind]. fold per.
      rewrite list_mul_single. fold nB filler.
      rewrite !pad_nonneg by assumption. reflexivity.
    - apply Forall_forall. intros [i s1] Hin.
      apply in_combine_l in Hin. apply in_seq in Hin.
      cbn [fst snd].
      rewrite (py_index_in_range indicator (Z.of_nat i) 0).
      + cbn [bind]. rewrite Nat2Z.id.
        rewrite !pad_nonneg by assumption. cbn [bind].
        rewrite list_mul_single. reflexivity.
      + unfold len, indicator, inds in *. rewrite !length_map in *. lia. }
  assert (Hlen_per : length per = length pats).
  { unfold per, inds. rewrite length_map, length_combine, length_seq,
      length_map. lia. }
  assert (Hper : forall a name flag s1,
            nth_error pats a = Some (name, flag, s1) ->
            nth_error per a = Some (g (a, s1)) /\
            nth a indicator 0 = flag).
  { intros a name flag s1 Ha. split.
    - unfold per. rewrite nth_error_map.
      rewrite (combine_seq_nth inds a s1); [reflexivity|].
      unfold inds. rewrite nth_error_map, Ha. reflexivity.
    - apply nth_error_nth. unfold indicator.
      rewrite nth_error_map, Ha. reflexivity. }
  assert (Hrow : forall p, length (fst (g p)) = nB /\ length (snd (g p)) = nB).
  { intros p. unfold g. cbn [fst snd]. split; apply pad_length. }
  do 3 eexists. split; [exact Hrun|].
  unfold len. rewrite !pad_length.
  split; [unfold nA; lia|]. split; [unfold nA; lia|].
  split; [unfold nA; lia|].
  assert (Hrows : forall h : (list Z * list Z) -> list Z,
            (forall q, length (h (g q)) = nB) ->
            Forall (fun r => Z.of_nat (length r) = B)
              (firstn nA (map h per)
                 ++ repeat filler (nA - length (map h per)))).
  { intros h Hh. apply Forall_app. split.
    - apply Forall_prefix. unfold per.
      apply Forall_map, Forall_map, Forall_forall. intros q _.
      rewrite Hh. unfold nB. lia.
    - apply Forall_forall. intros r Hr. apply repeat_spec in Hr. subst r.
      unfold filler. rewrite repeat_length. unfold nB. lia. }
  split; [apply (Hrows fst); intros q; apply Hrow|].
  split; [apply (Hrows snd); intros q; apply Hrow|].
  intros a j Ha Hj.
  assert (Ha' : (a < nA)%nat) by (unfold nA; lia).
  assert (Hj' : (j < nB)%nat) by (unfold nB; lia).
  unfold mat_get. rewrite !pad_get by assumption.
  destruct (nth_error pats a) as [[[name flag] s1]|] eqn:Ea.
  - destruct (Hper a name flag s1 Ea) as [Hg Hflag].
    assert (Hf : nth a (map fst per) filler = fst (g (a, s1)))
      by (apply nth_error_nth; rewrite nth_error_map, Hg; reflexivity).
    assert (Hs : nth a (map snd per) filler = snd (g (a, s1)))
      by (apply nth_error_nth; rewrite nth_error_map, Hg; reflexivity).
    rewrite Hf, Hs.
    unfold g. cbn [fst snd]. rewrite !pad_get by assumption.
    rewrite Hflag. split; [|split; [|reflexivity]].
    + f_equal. rewrite mapi_nth by (now destruct (_ <? _)).
      destruct (Z.ltb_spec (Z.of_nat j) B); [reflexivity|lia].
    + f_equal. rewrite repeat_get. unfold len.
      destruct (Z.eqb_spec flag 1); cbn [andb].
      * destruct (Nat.ltb_spec j (Z.to_nat (Z.min (Z.of_nat (length s1)) B)));
          destruct (Z.ltb_spec (Z.of_nat j) (Z.of_nat (length s1)));
          (reflexivity || lia).
      * destruct (Nat.ltb_spec j (Z.to_nat 0)); [lia|reflexivity].
  - apply nth_error_None in Ea.
    rewrite !(nth_overflow _ filler)
      by (rewrite length_map, Hlen_per; exact Ea).
    unfold filler.
    rewrite (nth_error_repeat 0 Hj').
    rewrite nth_overflow
      by (unfold indicator; rewrite length_map; exact Ea).
    repeat split.
Qed.

Lemma srl_box_links_spec_witness :
  exists (srl_boxes srl_boxes_lens : list (list Z))
         (srl_arg_boxes_indicator : list Z),
    srl_box_links 2 3
      [("ARG0"%string, 1, [4; 5; 6]); ("ARG1"%string, 0, [0])]
    = Ok (srl_boxes, srl_boxes_lens, srl_arg_boxes_indicator) /\
    mat_get srl_boxes 0 1 = Some 5 /\
    mat_get srl_boxes_lens 0 1 = Some 1 /\
    mat_get srl_boxes_lens 1 0 = Some 0 /\
    nth_error srl_arg_boxes_indicator 2 = Some 0.
Proof.
  destruct (srl_box_links_spec 2 3
              [("ARG0"%string, 1, [4; 5; 6]); ("ARG1"%string, 0, [0])])
    as (boxes & lens & ind & Hrun & _ & _ & _ & _ & _ & Hget);
    [lia | lia | discriminate |].
  exists boxes, lens, ind. split; [exact Hrun|].
  pose proof (Hget 0%nat 1%nat ltac:(lia) ltac:(lia)) as H01.
  pose proof (Hget 1%nat 0%nat ltac:(lia) ltac:(lia)) as H10.
  pose proof (Hget 2%nat 0%nat ltac:(lia) ltac:(lia)) as H20.
  cbn in H01, H10, H20.
  destruct H01 as (Hb & Hl & _), H10 as (_ & Hl1 & _), H20 as (_ & _ & Hi).
  repeat split; assumption.
Defined.

(** ** Word positions of the SRL arguments *)

Lemma combine_nth_error_inv {A B : Type} (l : list A) (m : list B)
    (i : nat) (a : A) (b : B) :
  nth_error (combine l m) i = Some (a, b) ->
  nth_error l i = Some a /\ nth_error m i = Some b.
Proof.
  revert m i. induction l as [|x l IH]; intros [|y m] [|i] H;
    try discriminate H.
  - cbn in H. inversion H. now split.
  - cbn in H |- *. now apply IH.
Qed.

Lemma In_prefix {A : Type} (n : nat) (l : list A) (x : A) :
  In x (firstn n l) -> In x l.
Proof.
  intros H. rewrite <- (firstn_skipn n l). apply in_or_app. now left.
Qed.

Lemma py_range0_steps (L A : Z) :
  0 < L -> 0 < A ->
  py_range0 (L * A) L
  = Ok (map (fun i => Z.of_nat i * L) (seq 0 (Z.to_nat A))).
Proof.
  intros HL HA. unfold py_range0.
  destruct (Z.eqb_spec L 0); [lia|].
  destruct (Z.ltb_spec 0 L); [|lia].
  destruct (Z.ltb_spec 0 (L * A)); [|nia].
  assert (Hd : (L * A - 1) / L = A - 1).
  { symmetry. apply (Z.div_unique_pos _ _ _ (L - 1)); lia. }
  rewrite Hd. do 3 f_equal. lia.
Qed.

(** X19.  The index-selection map [srl_arg_words_mask], for positive
    [seq_length] and [srl_arg_len] and word counts between 0 and
    [seq_length]: it has [seq_length] entries, and every entry other
    than the filler -1 is [a * seq_length + i] for one of the first
    [srl_arg_len] arguments [a] and a word position [i] below that
    argument's word count, so that dividing by [seq_length] gives the
    argument and the remainder the word. *)
Theorem srl_arg_words_mask_decode :
  forall (seq_length srl_arg_len : Z) (srl_arg_words_length : list Z),
    0 < seq_length -> 0 < srl_arg_len ->
    srl_arg_words_length <> [] ->
    Forall (fun wlen => 0 <= wlen <= seq_length) srl_arg_words_length ->
    exists mask : list Z,
      srl_arg_words_mask seq_length srl_arg_len srl_arg_words_length
      = Ok mask /\
      len mask = seq_length /\
      forall q : Z,
        In q mask ->
        q = -1 \/
        exists (a : nat) (wlen : Z),
          nth_error srl_arg_words_length a = Some wlen /\
          Z.of_nat a < srl_arg_len /\
          q / seq_length = Z.of_nat a /\
          0 <= q mod seq_length < wlen.
Proof.
  intros L A lens HL HA Hne Hw.
  set (starts := map (fun i => Z.of_nat i * L) (seq 0 (Z.to_nat A))).
  set (g := fun p : Z * Z =>
              map (fun i => fst p + Z.of_nat i) (seq 0 (Z.to_nat (snd p)))).
  set (blocks := map g (combine starts lens)).
  assert (Hrun : srl_arg_words_mask L A lens
                 = Ok (firstn (Z.to_nat L) (concat blocks)
                         ++ repeat (-1)
                              (Z.to_nat L - length (concat blocks)))).
  { unfold srl_arg_words_mask. rewrite py_range0_steps by assumption.
    cbn [bind]. fold starts.
    rewrite (mapM_total _ g).
    - cbn [bind]. fold blocks.
      assert (Hb : blocks <> []).
      { unfold blocks, starts.
        destruct lens as [|w lens']; [congruence|].
        destruct (Z.to_nat A) as [|n] eqn:EA; [lia|]. discriminate. }
      destruct blocks as [|b0 blocks']; [congruence|].
      apply pad_nonneg. lia.
    - apply Forall_forall. intros [st w] Hin.
      apply in_combine_r in Hin.
      rewrite Forall_forall in Hw. specialize (Hw w Hin).
      unfold torch_arange. cbn [fst snd].
      destruct (Z.ltb_spec w 0); [lia|reflexivity]. }
  eexists. split; [exact Hrun|]. split.
  { unfold len. rewrite pad_length. lia. }
  intros q Hq. apply in_app_or in Hq. destruct Hq as [Hq|Hq].
  - right. apply In_prefix in Hq.
    apply in_concat in Hq. destruct Hq as (blk & Hblk & Hq).
    unfold blocks in Hblk. apply in_map_iff in Hblk.
    destruct Hblk as ([st w] & Hg & Hp). subst blk.
    apply In_nth_error in Hp. destruct Hp as [a Hp].
    apply combine_nth_error_inv in Hp. destruct Hp as [Hst Hwa].
    unfold g in Hq. cbn [fst snd] in Hq.
    apply in_map_iff in Hq. destruct Hq as (i & Hqi & Hi).
    apply in_seq in Hi.
    unfold starts in Hst. rewrite nth_error_map in Hst.
    destruct (nth_error (seq 0 (Z.to_nat A)) a) as [a'|] eqn:Ea;
      [|discriminate Hst].
    assert (Ha : (a < Z.to_nat A)%nat).
    { assert (Hs : (a < length (seq 0 (Z.to_nat A)))%nat)
        by (apply nth_error_Some; congruence).
      now rewrite length_seq in Hs. }
    rewrite (nth_error_seq0 _ _ Ha) in Ea. inversion Ea; subst a'.
    cbn in Hst. inversion Hst; subst st.
    rewrite Forall_forall in Hw.
    specialize (Hw w (nth_error_In _ _ Hwa)).
    exists a, w. split; [exact Hwa|]. split; [lia|].
    assert (Hqv : q = L * Z.of_nat a + Z.of_nat i) by lia.
    split.
    + symmetry. apply (Z.div_unique_pos _ _ _ (Z.of_nat i)); lia.
    + rewrite <- (Z.mod_unique_pos q L (Z.of_nat a) (Z.of_nat i)); lia.
  - left. apply repeat_spec in Hq. exact Hq.
Qed.

Lemma srl_arg_words_mask_decode_witness :
  exists mask : list Z,
    srl_arg_words_mask 5 3 [2; 0; 1] = Ok mask /\
    len mask = 5 /\
    forall q : Z,
      In q mask ->
      q = -1 \/
      exists (a : nat) (wlen : Z),
        nth_error [2; 0; 1] a = Some wlen /\
        Z.of_nat a < 3 /\ q / 5 = Z.of_nat a /\ 0 <= q mod 5 < wlen.
Proof.
  apply (srl_arg_words_mask_decode 5 3 [2; 0; 1]);
    [lia | lia | discriminate |].
  repeat constructor; lia.
Defined.

Lemma capture_from_nth (f : Z * Z -> Z -> Z * Z) (lens : list Z) :
  forall (acc : Z) (a : nat) (wlen : Z),
    nth_error lens a = Some wlen ->
    exists x : Z,
      x = acc + sum_list (firstn a lens) /\
      nth_error
        (map2 f (combine (removelast (acc :: cumsum_from acc lens))
                   (cumsum_from acc lens)) lens) a
      = Some (f (x, x + wlen) wlen).
Proof.
  induction lens as [|w lens IH]; intros acc a wlen Ha.
  - destruct a; discriminate Ha.
  - cbn [cumsum_from].
    change (removelast (acc :: (acc + w) :: cumsum_from (acc + w) lens))
      with (acc :: removelast ((acc + w) :: cumsum_from (acc + w) lens)).
    cbn [combine map2]. destruct a as [|a].
    + cbn in Ha. inversion Ha; subst wlen.
      exists acc. split; [cbn; unfold sum_list; cbn; lia | reflexivity].
    + cbn in Ha. destruct (IH (acc + w) a wlen Ha) as (x & Hx & Hn).
      exists x. split; [|exact Hn].
      rewrite Hx. cbn [firstn]. unfold sum_list. cbn [fold_right]. lia.
Qed.

Lemma capture_from_length (f : Z * Z -> Z -> Z * Z) (lens : list Z) :
  forall acc : Z,
    length (map2 f (combine (removelast (acc :: cumsum_from acc lens))
                      (cumsum_from acc lens)) lens)
    = length lens.
Proof.
  induction lens as [|w lens IH]; intros acc; [reflexivity|].
  cbn [cumsum_from].
  change (removelast (acc :: (acc + w) :: cumsum_from (acc + w) lens))
    with (acc :: removelast ((acc + w) :: cumsum_from (acc + w) lens)).
  cbn [combine map2 length]. now rewrite IH.
Qed.

(** X20.  The capture spans [srl_arg_words_capture], for [seq_length]
    at least 1 and non-negative word counts: one span per argument; an
    argument without words gets [(0, 0)]; an argument with [wlen] words
    that starts after [x] words of the arguments before it gets
    [(min(x, seq_length - 1), min(x + wlen - 1, seq_length - 1))]; in
    both cases the span is ordered and lies in [0 .. seq_length - 1]. *)
Theorem srl_arg_words_capture_spec :
  forall (seq_length : Z) (srl_arg_words_length : list Z),
    1 <= seq_length ->
    Forall (fun wlen => 0 <= wlen) srl_arg_words_length ->
    length (srl_arg_words_capture seq_length srl_arg_words_length)
    = length srl_arg_words_length /\
    forall (a : nat) (wlen : Z),
      nth_error srl_arg_words_length a = Some wlen ->
      exists s e : Z,
        nth_error (srl_arg_words_capture seq_length srl_arg_words_length) a
        = Some (s, e) /\
        0 <= s /\ s <= e /\ e <= seq_length - 1 /\
        (wlen = 0 -> s = 0 /\ e = 0) /\
        (0 < wlen ->
         s = Z.min (sum_list (firstn a srl_arg_words_length))
               (seq_length - 1) /\
         e = Z.min (sum_list (firstn a srl_arg_words_length) + wlen - 1)
               (seq_length - 1)).
Proof.
  intros L lens HL Hw. unfold srl_arg_words_capture. cbn zeta.
  change (tl (0 :: cumsum_from 0 lens)) with (cumsum_from 0 lens).
  split; [apply capture_from_length|].
  intros a wlen Ha.
  destruct (capture_from_nth
              (fun xy wlen =>
                 if wlen >? 0
                 then (Z.min (fst xy) (L - 1), Z.min (snd xy - 1) (L - 1))
                 else (0, 0)) lens 0 a wlen Ha) as (x & Hx & Hn).
  cbn [fst snd] in Hn.
  pose proof (sum_list_prefix_nonneg lens a Hw) as Hx0.
  rewrite Forall_forall in Hw. specialize (Hw wlen (nth_error_In _ _ Ha)).
  destruct (Z.gtb_spec wlen 0) as [Hpos|Hzero].
  - exists (Z.min x (L - 1)), (Z.min (x + wlen - 1) (L - 1)).
    split; [exact Hn|]. subst x. cbn [Z.add] in *.
    repeat split; try lia.
  - exists 0, 0. split; [exact Hn|]. repeat split; lia.
Qed.

Lemma srl_arg_words_capture_spec_witness :
  length (srl_arg_words_capture 5 [2; 0; 4]) = 3%nat /\
  nth_error (srl_arg_words_capture 5 [2; 0; 4]) 2 = Some (2, 4).
Proof.
  destruct (srl_arg_words_capture_spec 5 [2; 0; 4]) as [Hlen Hspan];
    [lia | repeat constructor; lia |].
  split; [exact Hlen|].
  destruct (Hspan 2%nat 4 eq_refl) as (s & e & Hn & _ & _ & _ & _ & Hv).
  destruct (Hv ltac:(lia)) as [Hs He].
  vm_compute in Hs, He. subst s e. exact Hn.
Defined.
